(** * QualAI analysis engines: coding, theming and grounded theory

  A shallow embedding of the three analysis engines of the repository
  (coding-engine.ts, theme-engine.ts, theory-engine.ts) together with the
  properties stated about them.

  Modelling conventions
  - JavaScript strings are [string]s of ASCII characters; [toLowerCase] and
    [toUpperCase] act on the ASCII letters, and the whitespace class of the
    regular expressions is the ASCII one (TAB, LF, VT, FF, CR, SPACE).
    [JsString.length] is [s.length], a number of UTF-16 code units: it
    reads the characters as the UTF-8 bytes of the text, so that a
    character outside ASCII counts as in the source.
  - A JavaScript [Map] is an association list in insertion order; [set] on
    a key that is present overwrites the value in place.
  - Counts are integers ([nat], [Z]).  A frequency is a JavaScript number
    that holds an integer: it is a [Z], and the sums of frequencies that
    the engines compute are rounded to the nearest double ([Double.add]),
    so that they are exact up to 2^53 and lose units beyond, as in the
    source.  A sum of magnitude 2^1024 or more, an infinity in the source,
    is outside the model.  Quotients computed by the engines are exact
    rationals ([Q]); the source holds the double nearest to them.  The one
    place where the source can divide zero by zero, [detectSaturation],
    uses [number], which adds NaN to the rationals.
  - [Array.prototype.sort] is stable: [js_sort] is a stable insertion sort
    driven by "the comparator is positive".
  - [async] functions are modelled by the value they resolve to, a thrown
    [Error] by the left summand of a sum type. *)

From Stdlib Require Import Bool Arith ZArith QArith Qminmax Lia Lqa List.
From Stdlib Require Import String Ascii Permutation.
Import ListNotations.

Local Open Scope string_scope.
Local Open Scope list_scope.
Local Open Scope nat_scope.

(* ================================================================== *)
(** ** JavaScript strings *)

Module JsString.

Definition dquote : ascii := ascii_of_nat 34.

(** [\s] *)
Definition is_space (c : ascii) : bool :=
  let n := nat_of_ascii c in
  ((9 <=? n) && (n <=? 13)) || (n =? 32).

(** [[-_\s]] *)
Definition is_sep (c : ascii) : bool :=
  is_space c || Ascii.eqb c "-" || Ascii.eqb c "_".

Definition is_upper (c : ascii) : bool :=
  let n := nat_of_ascii c in (65 <=? n) && (n <=? 90).

Definition is_lower (c : ascii) : bool :=
  let n := nat_of_ascii c in (97 <=? n) && (n <=? 122).

Definition is_digit (c : ascii) : bool :=
  let n := nat_of_ascii c in (48 <=? n) && (n <=? 57).

(** [\w] *)
Definition is_word (c : ascii) : bool :=
  is_upper c || is_lower c || is_digit c || Ascii.eqb c "_".

Definition lower_char (c : ascii) : ascii :=
  if is_upper c then ascii_of_nat (nat_of_ascii c + 32) else c.

Definition upper_char (c : ascii) : ascii :=
  if is_lower c then ascii_of_nat (nat_of_ascii c - 32) else c.

Fixpoint map_chars (f : ascii -> ascii) (s : string) : string :=
  match s with
  | EmptyString => EmptyString
  | String c s' => String (f c) (map_chars f s')
  end.

Definition toLowerCase : string -> string := map_chars lower_char.
Definition toUpperCase : string -> string := map_chars upper_char.

(** [s.includes(k)] *)
Fixpoint includes (s k : string) : bool :=
  String.prefix k s ||
  match s with
  | EmptyString => false
  | String _ s' => includes s' k
  end.

Fixpoint rev_acc (s acc : string) : string :=
  match s with
  | EmptyString => acc
  | String c s' => rev_acc s' (String c acc)
  end.

Definition rev (s : string) : string := rev_acc s EmptyString.

(** [s.endsWith(k)] *)
Definition endsWith (s k : string) : bool := String.prefix (rev k) (rev s).

Fixpoint trimStart (s : string) : string :=
  match s with
  | EmptyString => EmptyString
  | String c s' => if is_space c then trimStart s' else s
  end.

(** [s.trim()] *)
Definition trim (s : string) : string := rev (trimStart (rev (trimStart s))).

(** The pieces of [s.split(/[-_\s]+/)]: the first piece and the others.
    [prev_sep] tells that the character before [s] was a separator, so
    that a run of separators counts once. *)
Fixpoint split_aux (prev_sep : bool) (s : string) : string * list string :=
  match s with
  | EmptyString => (EmptyString, [])
  | String c s' =>
      if is_sep c then
        let '(t, ts) := split_aux true s' in
        if prev_sep then (t, ts) else (EmptyString, t :: ts)
      else
        let '(t, ts) := split_aux false s' in
        (String c t, ts)
  end.

(** [s.split(/[-_\s]+/)] *)
Definition split_words (s : string) : list string :=
  let '(t, ts) := split_aux false s in t :: ts.

(** The UTF-16 code units that the UTF-8 byte [c] opens: one for an ASCII
    character and for the first byte of a sequence of two or three bytes,
    two (a surrogate pair) for the first byte of a sequence of four, none
    for a continuation byte. *)
Definition units (c : ascii) : nat :=
  let n := nat_of_ascii c in
  if n <? 128 then 1
  else if n <? 192 then 0
  else if n <? 240 then 1
  else 2.

(** [s.length] *)
Fixpoint length (s : string) : nat :=
  match s with
  | EmptyString => 0
  | String c s' => units c + length s'
  end.

(** [s.replace(/\s+/g, '-')] *)
Fixpoint dash_spaces_aux (prev_space : bool) (s : string) : string :=
  match s with
  | EmptyString => EmptyString
  | String c s' =>
      if is_space c then
        if prev_space then dash_spaces_aux true s'
        else String "-" (dash_spaces_aux true s')
      else String c (dash_spaces_aux false s')
  end.

Definition dash_spaces (s : string) : string := dash_spaces_aux false s.

(** [xs.join(sep)] *)
Definition join (sep : string) (xs : list string) : string :=
  String.concat sep xs.

(** [s.substring(0, n)] for [n] within or beyond the string *)
Fixpoint take (n : nat) (s : string) : string :=
  match n, s with
  | O, _ => EmptyString
  | _, EmptyString => EmptyString
  | S n', String c s' => String c (take n' s')
  end.

Fixpoint drop (n : nat) (s : string) : string :=
  match n, s with
  | O, _ => s
  | _, EmptyString => EmptyString
  | S n', String _ s' => drop n' s'
  end.

(** [words.includes(w)] on an array of strings *)
Definition mem (w : string) (ws : list string) : bool :=
  existsb (String.eqb w) ws.

(** [/k1|k2|.../.test(s)] for an alternation of literal strings *)
Definition test_any (ks : list string) (s : string) : bool :=
  existsb (includes s) ks.

(** Decimal rendering of a count inside a template string *)
Fixpoint digits_aux (fuel n : nat) (acc : string) : string :=
  match fuel with
  | O => acc
  | S fuel' =>
      let d := ascii_of_nat (48 + n mod 10) in
      if n <? 10 then String d acc
      else digits_aux fuel' (n / 10) (String d acc)
  end.

Definition of_nat (n : nat) : string := digits_aux (S n) n EmptyString.

End JsString.

(* ================================================================== *)
(** ** JavaScript [Map] with string keys, in insertion order *)

Module JsMap.
Section WithValue.
Context {V : Type}.

Definition t := list (string * V).

Definition empty : t := [].

Fixpoint get (m : t) (k : string) : option V :=
  match m with
  | [] => None
  | (k', v) :: m' => if String.eqb k' k then Some v else get m' k
  end.

Definition has (m : t) (k : string) : bool :=
  match get m k with Some _ => true | None => false end.

Fixpoint set (m : t) (k : string) (v : V) : t :=
  match m with
  | [] => [(k, v)]
  | (k', v') :: m' =>
      if String.eqb k' k then (k', v) :: m' else (k', v') :: set m' k v
  end.

Definition keys (m : t) : list string := map fst m.
Definition values (m : t) : list V := map snd m.
Definition entries (m : t) : list (string * V) := m.

(** [new Map(entries)] *)
Definition of_entries (es : list (string * V)) : t :=
  fold_left (fun m e => set m (fst e) (snd e)) es empty.
End WithValue.
Arguments t : clear implicits.
End JsMap.

(* ================================================================== *)
(** ** Arrays *)

Section Arrays.
Context {A : Type}.

(** [gt a b] stands for [compareFn(a, b) > 0]. *)
Variable gt : A -> A -> bool.

Fixpoint js_insert (x : A) (l : list A) : list A :=
  match l with
  | [] => [x]
  | y :: l' => if gt x y then y :: js_insert x l' else x :: l
  end.

(** [xs.sort(compareFn)], stable *)
Definition js_sort (l : list A) : list A := fold_right js_insert [] l.
End Arrays.

(** The sum of [f] over a list, as an exact integer *)
Definition sum_by {A : Type} (f : A -> Z) (l : list A) : Z :=
  fold_left (fun sum x => (sum + f x)%Z) l 0%Z.

(** [x < y] on rationals as a boolean *)
Definition Qltb (x y : Q) : bool := negb (Qle_bool y x).

(* ================================================================== *)
(** ** Codes *)

Inductive CodeType := in_vivo | constructed | theoretical.

Record Code := mkCode {
  name : string;
  definition : string;
  examples : list string;
  frequency : Z;
  type : CodeType
}.

(** *** Frequencies as JavaScript numbers

    A frequency is a JavaScript number, an IEEE 754 double, that holds an
    integer.  Every integer of magnitude 2^53 or less is a double; beyond,
    a double has 53 significant bits, and the result of an addition is the
    double nearest to the exact sum. *)

Module Double.
Local Open Scope Z_scope.

Definition maxSafe : Z := 2 ^ 53.

(** The double nearest to the integer [z]; of two doubles at the same
    distance, the one with the even significand.  (A result of magnitude
    2^1024 or more is an infinity in the source; the model does not go that
    far.) *)
Definition round (z : Z) : Z :=
  let a := Z.abs z in
  if a <=? maxSafe then z
  else
    let e := Z.log2 a - 52 in
    let significand := Z.shiftr a e in
    let below := Z.shiftl significand e in
    let rest := a - below in
    let half := Z.shiftl 1 (e - 1) in
    let up := (half <? rest) || ((rest =? half) && Z.odd significand) in
    Z.sgn z * (if up then below + Z.shiftl 1 e else below).

(** [a + b] *)
Definition add (a b : Z) : Z := round (a + b).

End Double.

(** [codes.reduce((sum, c) => sum + c.frequency, 0)] *)
Definition sumFrequency (codes : list Code) : Z :=
  fold_left (fun sum c => Double.add sum (frequency c)) codes 0%Z.

(** [words1.filter(w => words2.includes(w))] *)
Definition commonWords (words1 words2 : list string) : list string :=
  filter (fun w => JsString.mem w words2) words1.

(** [commonWords.length / Math.max(words1.length, words2.length)] on the
    words of two code names; both engines compute it the same way. *)
Definition similarity (name1 name2 : string) : Q :=
  let words1 := JsString.split_words name1 in
  let words2 := JsString.split_words name2 in
  inject_Z (Z.of_nat (List.length (commonWords words1 words2)))
  / inject_Z (Z.of_nat (Nat.max (List.length words1) (List.length words2))).

(** *** Greedy grouping

    The loop shared by [refineCodebook] and [groupCodesBySimilarity]:
    every code joins the first group whose first member it is similar to,
    and opens a group under its own name otherwise. *)

Section Grouping.
Variable sim : Code -> Code -> bool.

(** The inner loop over [groups.entries()]; [None] when no group takes
    the code.  An empty group has no [groupCodes[0]]; none is ever built. *)
Fixpoint pushToSimilar (code : Code) (groups : JsMap.t (list Code))
  : option (JsMap.t (list Code)) :=
  match groups with
  | [] => None
  | (groupKey, groupCodes) :: rest =>
      if match groupCodes with first :: _ => sim code first | [] => false end
      then Some ((groupKey, groupCodes ++ [code]) :: rest)
      else option_map (cons (groupKey, groupCodes)) (pushToSimilar code rest)
  end.

Definition groupStep (groups : JsMap.t (list Code)) (code : Code)
  : JsMap.t (list Code) :=
  match pushToSimilar code groups with
  | Some groups' => groups'
  | None => JsMap.set groups (name code) [code]
  end.

Definition groupCodes (codes : list Code) : JsMap.t (list Code) :=
  fold_left groupStep codes JsMap.empty.
End Grouping.

(* ================================================================== *)
(** ** Coding engine *)

Record Merge := mkMerge {
  from : list string;
  to : string;
  reason : string
}.

Record RefineResult := mkRefineResult {
  refined : list Code;
  merges : list Merge
}.

Module CodingEngine.
Import JsString.

(** *** In-vivo codes *)

(** The matches of the quoted-phrase pattern (a double quote, one or more
    characters other than a double quote, a double quote), each without its
    two quotes.  [opened] holds, reversed, the characters read since the
    last candidate opening quote. *)
Fixpoint quoteScan (opened : option string) (s : string) : list string :=
  match s with
  | EmptyString => []
  | String c s' =>
      if Ascii.eqb c dquote then
        match opened with
        | Some (String _ _ as acc) => rev acc :: quoteScan None s'
        | _ => quoteScan (Some EmptyString) s'
        end
      else
        match opened with
        | Some acc => quoteScan (Some (String c acc)) s'
        | None => quoteScan None s'
        end
  end.

Definition quotes (text : string) : list string := quoteScan None text.

Fixpoint countWhile (p : ascii -> bool) (s : string) : nat :=
  match s with
  | EmptyString => 0
  | String c s' => if p c then S (countWhile p s') else 0
  end.

Definition emotionVerbs : list string :=
  ["feel"; "felt"; "feeling"; "think"; "thought"; "believe"; "believed"].

(** Length of the match of [(feel|...|believed)\s+(\w+)] (flag [i]) at the
    start of [s], trying the alternatives in order. *)
Fixpoint emotionMatchAt (verbs : list string) (s : string) : option nat :=
  match verbs with
  | [] => None
  | verb :: verbs' =>
      let rest := drop (String.length verb) s in
      let spaces := countWhile is_space rest in
      let word := countWhile is_word (drop spaces rest) in
      if String.prefix verb (toLowerCase s) && (0 <? spaces) && (0 <? word)
      then Some (String.length verb + spaces + word)
      else emotionMatchAt verbs' s
  end.

(** [text.matchAll(emotionPatterns)]: each match with its index.  After a
    match the scan resumes behind it ([skip] characters are passed over). *)
Fixpoint emotionScan (skip index : nat) (s : string) : list (nat * string) :=
  match s with
  | EmptyString => []
  | String _ s' =>
      match skip with
      | S skip' => emotionScan skip' (S index) s'
      | O =>
          match emotionMatchAt emotionVerbs s with
          | Some len => (index, take len s) :: emotionScan (len - 1) (S index) s'
          | None => emotionScan 0 (S index) s'
          end
      end
  end.

Definition quoteCode (text cleaned : string) : Code :=
  {| name := dash_spaces (toLowerCase cleaned);
     definition := "In-vivo code: " ++ String dquote cleaned ++ String dquote EmptyString;
     examples := [text];
     frequency := 1;
     type := in_vivo |}.

Definition emotionCode (text : string) (m : nat * string) : Code :=
  let phrase := toLowerCase (snd m) in
  {| name := dash_spaces phrase;
     definition := "Emotional/cognitive expression: " ++ phrase;
     examples := [take 100 (drop (fst m) text)];
     frequency := 1;
     type := in_vivo |}.

(** [cleaned.length > 10 && cleaned.length < 50] *)
Definition quoteLengthOk (cleaned : string) : bool :=
  (10 <? JsString.length cleaned) && (JsString.length cleaned <? 50).

Definition extractInVivoCodes (text : string) : list Code :=
  map (quoteCode text) (filter quoteLengthOk (map trim (quotes text)))
  ++ map (emotionCode text) (emotionScan 0 0 text).

(** *** Codebook refinement *)

Definition codesAreSimilar (code1 code2 : Code) : bool :=
  Qltb (1 # 2) (similarity (name code1) (name code2)).

(** [codes.sort((a, b) => a.name.length - b.name.length)]: the array is
    sorted in place, so the caller sees the sorted array afterwards. *)
Definition sortByNameLength (codes : list Code) : list Code :=
  js_sort (fun a b => String.length (name b) <? String.length (name a)) codes.

(** [codes.sort(...)[0].name], with the array as the sort leaves it; the
    empty name stands for the access on an empty array, which no caller
    performs. *)
Definition selectBestCodeName (codes : list Code) : string * list Code :=
  let sorted := sortByNameLength codes in
  (match sorted with c :: _ => name c | [] => EmptyString end, sorted).

(** The merged code of a group and the record of the merge.  The fields are
    evaluated in source order: the name first, which sorts [groupCodes]. *)
Definition mergeGroup (groupCodes : list Code) : Code * Merge :=
  let '(best, sorted) := selectBestCodeName groupCodes in
  let mergedCode :=
    {| name := best;
       definition := match sorted with c :: _ => definition c | [] => EmptyString end;
       examples := firstn 5 (flat_map examples sorted);
       frequency := sumFrequency sorted;
       type := match sorted with c :: _ => type c | [] => constructed end |}
  in
  (mergedCode,
   {| from := map name sorted;
      to := name mergedCode;
      reason := "Similar semantic meaning" |}).

(** One turn of the loop over [groups.entries()].  A group of one member
    passes its member on ([groupCodes[0]]). *)
Definition mergeStep (acc : RefineResult) (entry : string * list Code)
  : RefineResult :=
  let groupCodes := snd entry in
  if 1 <? List.length groupCodes then
    let '(mergedCode, m) := mergeGroup groupCodes in
    {| refined := refined acc ++ [mergedCode];
       merges := merges acc ++ [m] |}
  else
    {| refined := refined acc ++ firstn 1 groupCodes;
       merges := merges acc |}.

Definition refineCodebook (codes : list Code) : RefineResult :=
  let groups := groupCodes codesAreSimilar codes in
  fold_left mergeStep (JsMap.entries groups)
            {| refined := []; merges := [] |}.

End CodingEngine.

(* ================================================================== *)
(** ** JavaScript numbers where NaN can arise *)

Inductive number := NaN | PosInf | NegInf | Num (q : Q).

Module Number.

Definition div (a b : number) : number :=
  match a, b with
  | Num x, Num y =>
      if Qeq_bool y 0 then
        if Qeq_bool x 0 then NaN else if Qltb 0 x then PosInf else NegInf
      else Num (x / y)
  | Num _, (PosInf | NegInf) => Num 0
  | PosInf, Num y => if Qltb y 0 then NegInf else PosInf
  | NegInf, Num y => if Qltb y 0 then PosInf else NegInf
  | _, _ => NaN
  end.

(** [Math.min(a, b)] *)
Definition min (a b : number) : number :=
  match a, b with
  | NaN, _ | _, NaN => NaN
  | NegInf, _ | _, NegInf => NegInf
  | PosInf, y => y
  | x, PosInf => x
  | Num x, Num y => if Qle_bool x y then Num x else Num y
  end.

Definition sub (a b : number) : number :=
  match a, b with
  | Num x, Num y => Num (x - y)
  | Num _, PosInf => NegInf
  | Num _, NegInf => PosInf
  | PosInf, (Num _ | NegInf) => PosInf
  | NegInf, (Num _ | PosInf) => NegInf
  | _, _ => NaN
  end.

(** [a > b] *)
Definition gtb (a b : number) : bool :=
  match a, b with
  | NaN, _ | _, NaN => false
  | PosInf, PosInf => false
  | PosInf, _ => true
  | _, NegInf => match a with NegInf => false | _ => true end
  | Num x, Num y => Qltb y x
  | _, _ => false
  end.

Definition of_nat (n : nat) : number := Num (inject_Z (Z.of_nat n)).

(** [0 <= a <= 1]; NaN is in no interval. *)
Definition in_unit_interval (a : number) : Prop :=
  match a with
  | Num x => (0 <= x /\ x <= 1)%Q
  | _ => False
  end.

End Number.

(* ================================================================== *)
(** ** Theme engine *)

#[warnings="-register-all"]
Inductive Theme := mkTheme {
  theme_name : string;
  theme_description : string;
  supportingCodes : list string;
  prevalence : Q;
  theme_examples : list string;
  subThemes : option (list Theme)
}.

Inductive Mode := inductive | deductive.
Inductive Depth := shallow | medium | deep.
Inductive Level := code_level | theme_level | theoretical_level.
Inductive Strength := weak | moderate | strong.

Record SaturationAnalysis := mkSaturationAnalysis {
  level : Level;
  saturated : bool;
  saturationRate : number;
  newCodesPerSource : list nat;
  recommendation : string
}.

Record NegativeCase := mkNegativeCase {
  nc_code : string;
  contradiction : string;
  strength : Strength
}.

Record NegativeCases := mkNegativeCases {
  negativeCases : list NegativeCase;
  nc_recommendation : string
}.

Record Framework := mkFramework {
  fw_name : string;
  keywords : list string
}.

Record Opposition := mkOpposition {
  positive : string;
  negative : string;
  op_strength : Strength
}.

Module ThemeEngine.
Import JsString.

Definition codesAreSimilar (code1 code2 : Code) : bool :=
  Qltb (3 # 10) (similarity (name code1) (name code2)).

Definition groupCodesBySimilarity (codes : list Code)
  : JsMap.t (list Code) :=
  groupCodes codesAreSimilar codes.

(** [wordFreq.set(word, (wordFreq.get(word) || 0) + 1)] for the words
    longer than three characters of every code name *)
Definition countWord (wordFreq : JsMap.t nat) (word : string) : JsMap.t nat :=
  if 3 <? String.length word then
    JsMap.set wordFreq word
      (match JsMap.get wordFreq word with Some n => n | None => 0 end + 1)
  else wordFreq.

Definition wordFrequencies (codes : list Code) : JsMap.t nat :=
  fold_left
    (fun wordFreq code => fold_left countWord (split_words (name code)) wordFreq)
    codes JsMap.empty.

(** [w.charAt(0).toUpperCase() + w.slice(1)] *)
Definition capitalize (w : string) : string :=
  match w with
  | EmptyString => EmptyString
  | String c w' => String (upper_char c) w'
  end.

Definition generateThemeName (codes : list Code) : string :=
  let topWords :=
    map fst
      (firstn 3
         (js_sort (fun a b : string * nat => snd a <? snd b)
                  (JsMap.entries (wordFrequencies codes)))) in
  join " and " (map capitalize topWords).

Definition generateThemeDescription (codes : list Code) : string :=
  "This theme encompasses " ++ of_nat (List.length codes)
  ++ " related codes: " ++ join ", " (map name codes)
  ++ ". It represents a pattern of meaning across the data.".

(** The two sums are the source's, rounded as doubles are; their quotient
    is kept exact, where the source holds the double nearest to it. *)
Definition calculatePrevalence (themeCodes allCodes : list Code) : Q :=
  let themeFrequency := sumFrequency themeCodes in
  let totalFrequency := sumFrequency allCodes in
  if (0 <? totalFrequency)%Z
  then inject_Z themeFrequency / inject_Z totalFrequency
  else 0.

Definition subThemeOf (codes : list Code) (entry : string * list Code)
  : list Theme :=
  let groupCodes := snd entry in
  if 2 <=? List.length groupCodes then
    [ {| theme_name := generateThemeName groupCodes;
         theme_description := generateThemeDescription groupCodes;
         supportingCodes := map name groupCodes;
         prevalence := calculatePrevalence groupCodes codes;
         theme_examples := firstn 2 (flat_map examples groupCodes);
         subThemes := None |} ]
  else [].

Definition identifySubThemes (codes : list Code) : list Theme :=
  flat_map (subThemeOf codes)
           (JsMap.entries (groupCodesBySimilarity codes)).

Definition sortByPrevalence (themes : list Theme) : list Theme :=
  js_sort (fun a b => Qltb (prevalence a) (prevalence b)) themes.

Definition inductiveThemeOf (codes : list Code) (depth : Depth)
    (entry : string * list Code) : list Theme :=
  let groupCodes := snd entry in
  if List.length groupCodes <? 2 then []
  else
    [ {| theme_name := generateThemeName groupCodes;
         theme_description := generateThemeDescription groupCodes;
         supportingCodes := map name groupCodes;
         prevalence := calculatePrevalence groupCodes codes;
         theme_examples := firstn 3 (flat_map examples groupCodes);
         subThemes :=
           match depth with
           | deep =>
               if 5 <? List.length groupCodes
               then Some (identifySubThemes groupCodes)
               else None
           | _ => None
           end |} ].

Definition inductiveThemeExtraction (codes : list Code) (depth : Depth)
  : list Theme :=
  sortByPrevalence
    (flat_map (inductiveThemeOf codes depth)
              (JsMap.entries (groupCodesBySimilarity codes))).

Definition theoreticalFrameworks : list Framework :=
  [ mkFramework "Challenges and Barriers"
      ["difficult"; "challenge"; "problem"; "barrier"; "obstacle"; "struggle"];
    mkFramework "Strategies and Solutions"
      ["solution"; "strategy"; "approach"; "cope"; "manage"; "handle"];
    mkFramework "Emotional Experiences"
      ["feel"; "emotion"; "happy"; "sad"; "angry"; "frustrated"; "anxious"];
    mkFramework "Relationships and Interactions"
      ["relationship"; "interaction"; "connection"; "communication"; "support"];
    mkFramework "Identity and Self-Concept"
      ["identity"; "self"; "who"; "personal"; "individual"] ].

(** The predicate of [codes.filter] in the deductive extraction *)
Definition matchesFramework (framework : Framework) (code : Code) : bool :=
  existsb
    (fun keyword =>
       includes (name code) keyword
       || includes (toLowerCase (definition code)) keyword)
    (keywords framework).

Definition deductiveThemeOf (codes : list Code) (framework : Framework)
  : list Theme :=
  let matchingCodes := filter (matchesFramework framework) codes in
  if 0 <? List.length matchingCodes then
    [ {| theme_name := fw_name framework;
         theme_description :=
           "Theme identified through deductive analysis based on theoretical framework";
         supportingCodes := map name matchingCodes;
         prevalence := calculatePrevalence matchingCodes codes;
         theme_examples := firstn 3 (flat_map examples matchingCodes);
         subThemes := None |} ]
  else [].

Definition deductiveThemeExtraction (codes : list Code) (depth : Depth)
  : list Theme :=
  sortByPrevalence (flat_map (deductiveThemeOf codes) theoreticalFrameworks).

Definition extractThemes (codes : list Code) (mode : Mode) (depth : Depth)
  : list Theme :=
  match mode with
  | inductive => inductiveThemeExtraction codes depth
  | deductive => deductiveThemeExtraction codes depth
  end.

(** *** Saturation *)

(** One turn of the loop over the sources: [seenCodes] is consulted for the
    whole source before the new names are added to it. *)
Definition saturationStep (codesBySource : JsMap.t (list Code))
    (state : list nat * list string) (source : string)
  : list nat * list string :=
  let '(newCodesPerSource, seenCodes) := state in
  let sourceCodes :=
    match JsMap.get codesBySource source with Some cs => cs | None => [] end in
  let newCodes := filter (fun c => negb (mem (name c) seenCodes)) sourceCodes in
  (newCodesPerSource ++ [List.length newCodes],
   fold_left (fun seen c => if mem (name c) seen then seen else seen ++ [name c])
             newCodes seenCodes).

(** [xs.slice(-3)] *)
Definition lastThree {A : Type} (xs : list A) : list A :=
  skipn (List.length xs - 3) xs.

Definition levelName (l : Level) : string :=
  match l with
  | code_level => "code"
  | theme_level => "theme"
  | theoretical_level => "theoretical"
  end.

Definition detectSaturation (level : Level)
    (codesBySource : JsMap.t (list Code)) : SaturationAnalysis :=
  let sources := JsMap.keys codesBySource in
  let newCodesPerSource :=
    fst (fold_left (saturationStep codesBySource) sources ([], [])) in
  let recentSources := lastThree newCodesPerSource in
  let avgNewCodes :=
    Number.div (Number.of_nat (fold_left Nat.add recentSources 0))
               (Number.of_nat (List.length recentSources)) in
  let saturationRate :=
    Number.sub (Num 1) (Number.min (Number.div avgNewCodes (Num 5)) (Num 1)) in
  let saturated := Number.gtb saturationRate (Num (85 # 100)) in
  {| level := level;
     saturated := saturated;
     saturationRate := saturationRate;
     newCodesPerSource := newCodesPerSource;
     recommendation :=
       if saturated then
         "Saturation achieved at " ++ levelName level
         ++ " level. You likely have enough data."
       else if Number.gtb saturationRate (Num (7 # 10)) then
         "Approaching saturation. 2-3 more data sources recommended."
       else
         "Not yet saturated. Continue data collection for robust findings." |}.

(** *** Negative cases *)

Definition oppositions : list Opposition :=
  [ mkOpposition "positive" "negative" strong;
    mkOpposition "success" "failure" strong;
    mkOpposition "easy" "difficult" moderate;
    mkOpposition "support" "obstacle" moderate;
    mkOpposition "benefit" "cost" moderate ].

Definition emphasizes (a b : string) : string :=
  "Theme emphasizes " ++ String dquote a ++ String dquote " but code suggests "
  ++ String dquote b ++ String dquote EmptyString.

Fixpoint firstContradiction (ops : list Opposition)
    (themeName codeName codeDefinition : string) : option (string * Strength) :=
  match ops with
  | [] => None
  | op :: ops' =>
      if includes themeName (positive op)
         && (includes codeName (negative op)
             || includes codeDefinition (negative op))
      then Some (emphasizes (positive op) (negative op), op_strength op)
      else if includes themeName (negative op)
              && (includes codeName (positive op)
                  || includes codeDefinition (positive op))
      then Some (emphasizes (negative op) (positive op), op_strength op)
      else firstContradiction ops' themeName codeName codeDefinition
  end.

Definition detectContradiction (themeName : string) (code : Code)
  : option (string * Strength) :=
  firstContradiction oppositions themeName
    (toLowerCase (name code)) (toLowerCase (definition code)).

(** The cases collected before the threshold filter *)
Definition detectedCases (theme : Theme) (allCodes : list Code)
  : list NegativeCase :=
  let themeName := toLowerCase (theme_name theme) in
  flat_map
    (fun code =>
       if mem (name code) (supportingCodes theme) then []
       else
         match detectContradiction themeName code with
         | Some (reason, strength) =>
             [ {| nc_code := name code;
                  contradiction := reason;
                  strength := strength |} ]
         | None => []
         end)
    allCodes.

Definition strength_eqb (a b : Strength) : bool :=
  match a, b with
  | weak, weak | moderate, moderate | strong, strong => true
  | _, _ => false
  end.

Definition keptBy (threshold : Strength) (nc : NegativeCase) : bool :=
  match threshold with
  | weak => true
  | moderate => negb (strength_eqb (strength nc) weak)
  | strong => strength_eqb (strength nc) strong
  end.

Definition findNegativeCases (theme : Theme) (allCodes : list Code)
    (threshold : Strength) : NegativeCases :=
  let filtered := filter (keptBy threshold) (detectedCases theme allCodes) in
  {| negativeCases := filtered;
     nc_recommendation :=
       if List.length filtered =? 0 then
         "No significant negative cases found. Theme appears robust."
       else if List.length filtered <=? 2 then
         of_nat (List.length filtered)
         ++ " negative case(s) found. Consider refining theme definition to account for these exceptions."
       else
         of_nat (List.length filtered)
         ++ " negative cases found. Theme may need significant revision or should be split into multiple themes." |}.

End ThemeEngine.

(* ================================================================== *)
(** ** Theory engine *)

Record Dimension := mkDimension {
  property : string;
  range : string
}.

Record Category := mkCategory {
  cat_name : string;
  cat_description : string;
  properties : list string;
  dimensions : list Dimension;
  relatedCodes : list string;
  relatedCategories : list string;
  cat_examples : list string
}.

Record AxialCodingResult := mkAxialCodingResult {
  phenomenon : string;
  causalConditions : list string;
  context : list string;
  interveningConditions : list string;
  actionStrategies : list string;
  consequences : list string
}.

Inductive RelationshipType :=
  causes | leads_to | influences | part_of | contradicts.

Record Relationship := mkRelationship {
  relatedCategory : string;
  relationshipType : RelationshipType;
  rel_description : string
}.

Record CoreCategory := mkCoreCategory {
  core_name : string;
  core_description : string;
  centrality : Q;
  relationships : list Relationship;
  theoreticalMemo : string
}.

Inductive Stage :=
  open_coding | axial_coding | selective_coding | theory_integration.

Record GroundedTheoryResult := mkGroundedTheoryResult {
  coreCategory : CoreCategory;
  supportingCategories : list Category;
  theoreticalFramework : string;
  storyline : string;
  stage : Stage;
  completeness : Q;
  recommendations : list string
}.

Inductive Paradigm := constructivist | objectivist.

(** [throw new Error(message)] *)
Inductive Error := mkError (message : string).

Definition message (e : Error) : string := let 'mkError m := e in m.

Module TheoryEngine.
Import JsString.

Definition nl : string := String (ascii_of_nat 10) EmptyString.
Definition quoted (s : string) : string :=
  String dquote s ++ String dquote EmptyString.

(** *** Stage 1: open coding *)

Definition inferCategoryName (code : Code) : string :=
  let lname := toLowerCase (name code) in
  let ldefinition := toLowerCase (definition code) in
  if endsWith lname "ing" || test_any ["process"; "action"; "doing"] ldefinition
  then "processes"
  else if test_any ["condition"; "situation"; "context"; "when"] ldefinition
          || test_any ["condition"] lname
  then "conditions"
  else if test_any ["strategy"; "approach"; "cope"; "manage"; "handle"] ldefinition
          || test_any ["strategy"; "coping"] lname
  then "strategies"
  else if test_any ["emotion"; "feel"; "emotion"] ldefinition
          || test_any ["emotion"; "feel"] lname
  then "emotions"
  else if test_any ["challenge"; "problem"; "difficulty"; "barrier"] ldefinition
          || test_any ["challenge"; "problem"] lname
  then "challenges"
  else if test_any ["outcome"; "result"; "consequence"; "effect"] ldefinition
          || test_any ["outcome"; "result"] lname
  then "outcomes"
  else if test_any ["relationship"; "interaction"; "connection"] ldefinition
          || test_any ["relational"] lname
  then "relationships"
  else
    match filter (fun w => 3 <? String.length w) (split_words lname) with
    | w :: _ => w
    | [] => "miscellaneous"
    end.

Definition categoriesAreSimilar (cat1 cat2 : string) : bool :=
  String.eqb cat1 cat2
  || String.eqb cat1 (cat2 ++ "s") || String.eqb cat2 (cat1 ++ "s")
  || String.eqb cat1 (cat2 ++ "es") || String.eqb cat2 (cat1 ++ "es")
  || (0 <? List.length (commonWords (split_words cat1) (split_words cat2))).

(** [groups.get(category) || []] *)
Definition getCodes (groups : JsMap.t (list Code)) (category : string)
  : list Code :=
  match JsMap.get groups category with Some cs => cs | None => [] end.

(** The loop over [merged.entries()] *)
Fixpoint pushToSimilarCategory (category : string) (codes : list Code)
    (merged : JsMap.t (list Code)) : option (JsMap.t (list Code)) :=
  match merged with
  | [] => None
  | (mergedKey, mergedCodes) :: rest =>
      if categoriesAreSimilar category mergedKey
      then Some ((mergedKey, mergedCodes ++ codes) :: rest)
      else option_map (cons (mergedKey, mergedCodes))
                      (pushToSimilarCategory category codes rest)
  end.

Definition mergeCategoryStep (groups merged : JsMap.t (list Code))
    (category : string) : JsMap.t (list Code) :=
  match pushToSimilarCategory category (getCodes groups category) merged with
  | Some merged' => merged'
  | None => JsMap.set merged category (getCodes groups category)
  end.

Definition mergeSimilarCategories (groups : JsMap.t (list Code))
  : JsMap.t (list Code) :=
  fold_left (mergeCategoryStep groups) (JsMap.keys groups) JsMap.empty.

Definition categoryStep (groups : JsMap.t (list Code)) (code : Code)
  : JsMap.t (list Code) :=
  let categoryName := inferCategoryName code in
  let groups1 :=
    if JsMap.has groups categoryName then groups
    else JsMap.set groups categoryName [] in
  JsMap.set groups1 categoryName (getCodes groups1 categoryName ++ [code]).

Definition groupCodesIntoCategories (codes : list Code)
  : JsMap.t (list Code) :=
  mergeSimilarCategories (fold_left categoryStep codes JsMap.empty).

Definition generateCategoryDescription (codes : list Code)
    (paradigm : Paradigm) : string :=
  let prefix :=
    match paradigm with
    | constructivist => "This category represents participants' experiences of"
    | objectivist => "This category describes the phenomenon of"
    end in
  prefix ++ " " ++ join ", " (map name codes) ++ ". It emerged from "
  ++ of_nat (List.length codes) ++ " codes across the data.".

Definition isCommonWord (word : string) : bool :=
  mem (toLowerCase word)
      ["the"; "and"; "for"; "with"; "from"; "that"; "this";
       "have"; "has"; "had"; "was"; "were"; "been"; "being"].

(** [properties.add(word)] on a [Set] *)
Definition setAdd (s : list string) (x : string) : list string :=
  if mem x s then s else s ++ [x].

Definition identifyProperties (codes : list Code) : list string :=
  firstn 5
    (fold_left
       (fun props code =>
          fold_left
            (fun props word =>
               if (3 <? String.length word) && negb (isCommonWord word)
               then setAdd props word else props)
            (split_words (name code)) props)
       codes []).

Definition inferDimensionalRange (property : string) (codes : list Code)
  : string :=
  if existsb
       (fun c => test_any ["low"; "high"; "strong"; "weak"; "intense"; "mild"]
                          (toLowerCase (definition c))) codes
  then "low to high"
  else if existsb
       (fun c => test_any ["often"; "sometimes"; "rarely"; "always"; "never"]
                          (toLowerCase (definition c))) codes
  then "rarely to frequently"
  else "varies across contexts".

Definition identifyDimensions (codes : list Code) : list Dimension :=
  map (fun property =>
         {| property := property;
            range := inferDimensionalRange property codes |})
      (identifyProperties codes).

Definition identifyCategories (codes : list Code) (paradigm : Paradigm)
  : list Category :=
  flat_map
    (fun entry : string * list Code =>
       let '(categoryName, categoryCodes) := entry in
       if List.length categoryCodes <? 1 then []
       else
         [ {| cat_name := categoryName;
              cat_description :=
                generateCategoryDescription categoryCodes paradigm;
              properties := identifyProperties categoryCodes;
              dimensions := identifyDimensions categoryCodes;
              relatedCodes := map name categoryCodes;
              relatedCategories := [];
              cat_examples := firstn 3 (flat_map examples categoryCodes) |} ])
    (JsMap.entries (groupCodesIntoCategories codes)).

(** *** Stage 2: axial coding *)

(** [other.name.includes(k1) || other.name.includes(k2) || ...] *)
Definition nameHas (ks : list string) (other : Category) : bool :=
  existsb (includes (cat_name other)) ks.

Definition isOther (category other : Category) : bool :=
  negb (String.eqb (cat_name other) (cat_name category)).

(** [codes.filter(c => /.../.test(c.definition.toLowerCase()))
         .map(c => c.name).slice(0, 3)] *)
Definition codesDescribing (ks : list string) (codes : list Code)
  : list string :=
  firstn 3
    (map name (filter (fun c => test_any ks (toLowerCase (definition c))) codes)).

Definition identifyCausalConditions (category : Category)
    (allCategories : list Category) (codes : list Code) : list string :=
  map cat_name
      (filter (fun other => isOther category other
                            && nameHas ["condition"; "cause"] other)
              allCategories)
  ++ codesDescribing ["because"; "due to"; "caused by"; "result of"; "led to"]
                     codes.

Definition identifyContext (category : Category)
    (allCategories : list Category) (codes : list Code) : list string :=
  map cat_name (filter (nameHas ["context"; "situation"]) allCategories)
  ++ codesDescribing ["when"; "where"; "situation"; "context"; "environment"]
                     codes.

Definition identifyInterveningConditions (category : Category)
    (allCategories : list Category) : list string :=
  map cat_name
      (filter (fun other => isOther category other
                            && nameHas ["factor"; "influence"; "barrier"] other)
              allCategories).

Definition identifyActionStrategies (category : Category)
    (allCategories : list Category) : list string :=
  map cat_name
      (filter (nameHas ["strategy"; "coping"; "approach"; "process"])
              allCategories).

Definition identifyConsequences (category : Category)
    (allCategories : list Category) (codes : list Code) : list string :=
  map cat_name
      (filter (nameHas ["outcome"; "result"; "consequence"; "effect"])
              allCategories)
  ++ codesDescribing ["result"; "outcome"; "led to"; "caused"; "effect"] codes.

Definition analyzeParadigmModel (category : Category)
    (allCategories : list Category) (codes : list Code)
  : option AxialCodingResult :=
  Some {| phenomenon := cat_name category;
          causalConditions :=
            identifyCausalConditions category allCategories codes;
          context := identifyContext category allCategories codes;
          interveningConditions :=
            identifyInterveningConditions category allCategories;
          actionStrategies := identifyActionStrategies category allCategories;
          consequences := identifyConsequences category allCategories codes |}.

Definition performAxialCoding (categories : list Category)
    (codes : list Code) : list AxialCodingResult :=
  flat_map
    (fun category =>
       match analyzeParadigmModel category categories codes with
       | Some axialResult => [axialResult]
       | None => []
       end)
    categories.

(** *** Stage 3: selective coding *)

Definition count (l : list string) : Q := inject_Z (Z.of_nat (List.length l)).

Definition findAxial (axialResults : list AxialCodingResult) (phen : string)
  : option AxialCodingResult :=
  find (fun ar => String.eqb (phenomenon ar) phen) axialResults.

Definition categoryScore (axialResults : list AxialCodingResult)
    (category : Category) : Q :=
  let score := count (relatedCodes category) in
  match findAxial axialResults (cat_name category) with
  | Some connections =>
      score
      + count (causalConditions connections) * 2
      + count (consequences connections) * 2
      + count (actionStrategies connections) * (15 # 10)
      + count (context connections)
      + count (interveningConditions connections)
  | None => score
  end.

Definition categoryScores (categories : list Category)
    (axialResults : list AxialCodingResult) : JsMap.t Q :=
  fold_left
    (fun scores category =>
       JsMap.set scores (cat_name category)
                 (categoryScore axialResults category))
    categories JsMap.empty.

(** [entries.sort((a, b) => b[1] - a[1])] *)
Definition sortByScore (entries : list (string * Q)) : list (string * Q) :=
  js_sort (fun a b => Qltb (snd a) (snd b)) entries.

Definition buildRelationships (coreName : string)
    (coreAxial : option AxialCodingResult) : list Relationship :=
  match coreAxial with
  | Some ax =>
      map (fun cause =>
             {| relatedCategory := cause;
                relationshipType := causes;
                rel_description :=
                  cause ++ " contributes to the emergence of " ++ coreName |})
          (causalConditions ax)
      ++ map (fun consequence =>
                {| relatedCategory := consequence;
                   relationshipType := leads_to;
                   rel_description :=
                     coreName ++ " results in " ++ consequence |})
             (consequences ax)
      ++ map (fun strategy =>
                {| relatedCategory := strategy;
                   relationshipType := influences;
                   rel_description :=
                     coreName ++ " is managed through " ++ strategy |})
             (actionStrategies ax)
  | None => []
  end.

(** [memo += prefix + xs.join(', ') + '. '] when [xs] is not empty *)
Definition recite (prefix : string) (xs : list string) : string :=
  if 0 <? List.length xs then prefix ++ join ", " xs ++ ". " else EmptyString.

Definition generateTheoreticalMemo (category : Category)
    (axialResult : option AxialCodingResult) (researchQuestion : string)
  : string :=
  "THEORETICAL MEMO: " ++ toUpperCase (cat_name category) ++ nl ++ nl
  ++ "Research Question: " ++ researchQuestion ++ nl ++ nl
  ++ "The core category " ++ quoted (cat_name category)
  ++ " emerged as the central phenomenon "
  ++ "organizing this grounded theory. "
  ++ match axialResult with
     | Some ax =>
         recite "It appears to be caused or influenced by: "
                (causalConditions ax)
         ++ recite "This occurs within the context of: " (context ax)
         ++ recite "Participants respond through strategies such as: "
                   (actionStrategies ax)
         ++ recite "The consequences include: " (consequences ax)
     | None => EmptyString
     end
  ++ nl ++ nl ++ "This category integrates "
  ++ of_nat (List.length (relatedCodes category)) ++ " codes "
  ++ "and provides a theoretical explanation for the phenomenon under study.".

Definition noCategoriesError : Error :=
  mkError "No categories found. Please ensure your codes can form at least one category.".

Definition coreNotFoundError (coreName : string) : Error :=
  mkError ("Core category " ++ quoted coreName
           ++ " not found in categories list.").

Definition identifyCoreCategory (categories : list Category)
    (axialResults : list AxialCodingResult) (researchQuestion : string)
  : Error + CoreCategory :=
  let scores := categoryScores categories axialResults in
  match sortByScore (JsMap.entries scores) with
  | [] => inl noCategoriesError
  | (coreName, coreScore) :: _ =>
      match find (fun c => String.eqb (cat_name c) coreName) categories with
      | None => inl (coreNotFoundError coreName)
      | Some coreCategory =>
          let coreAxial := findAxial axialResults coreName in
          let totalScore :=
            fold_left Qplus (JsMap.values scores) (0 : Q) in
          inr {| core_name := coreName;
                 core_description := cat_description coreCategory;
                 centrality :=
                   if Qltb 0 totalScore then coreScore / totalScore else 0;
                 relationships := buildRelationships coreName coreAxial;
                 theoreticalMemo :=
                   generateTheoreticalMemo coreCategory coreAxial
                                           researchQuestion |}
      end
  end.

(** *** Stage 4: theory integration *)

Definition generateTheoreticalFramework (coreCategory : CoreCategory)
    (categories : list Category) (axialResults : list AxialCodingResult)
    (paradigm : Paradigm) : string :=
  match paradigm with
  | constructivist =>
      "This grounded theory, constructed from participants' lived experiences, "
  | objectivist =>
      "This grounded theory, derived from systematic data analysis, "
  end
  ++ "proposes that " ++ quoted (core_name coreCategory)
  ++ " serves as the core organizing concept. "
  ++ nl ++ nl ++ "The theory identifies " ++ of_nat (List.length categories)
  ++ " major categories that interact "
  ++ "to explain the phenomenon. These categories are: "
  ++ join ", " (map cat_name categories) ++ ". "
  ++ nl ++ nl ++ "The relationships between categories follow this pattern:"
  ++ nl
  ++ String.concat EmptyString
       (map (fun rel => ("- " ++ rel_description rel ++ nl)%string)
            (relationships coreCategory))
  ++ nl
  ++ "This theoretical framework provides a substantive explanation of the processes "
  ++ "and patterns observed in the data.".

Definition nonEmpty (xs : list string) : bool := 0 <? List.length xs.

Definition generateStoryline (coreCategory : CoreCategory)
    (categories : list Category) (axialResults : list AxialCodingResult)
    (researchQuestion : string) : string :=
  "GROUNDED THEORY STORYLINE" ++ nl ++ nl
  ++ "Addressing the research question " ++ quoted researchQuestion ++ ", "
  ++ "this theory explains how " ++ core_name coreCategory
  ++ " operates as the central process." ++ nl ++ nl
  ++ match findAxial axialResults (core_name coreCategory) with
     | Some coreAxial =>
         (if nonEmpty (causalConditions coreAxial)
             || nonEmpty (context coreAxial)
          then
            "The process begins when certain conditions are present. "
            ++ recite "Causal factors include " (causalConditions coreAxial)
            ++ recite "This occurs within contexts characterized by "
                      (context coreAxial)
            ++ nl ++ nl
          else EmptyString)
         ++ (if nonEmpty (actionStrategies coreAxial) then
               "In response to these conditions, participants engage in various strategies. "
               ++ "Key approaches include "
               ++ join ", " (actionStrategies coreAxial) ++ ". "
               ++ recite "These strategies are shaped by intervening factors such as "
                         (interveningConditions coreAxial)
               ++ nl ++ nl
             else EmptyString)
         ++ (if nonEmpty (consequences coreAxial) then
               "The outcomes of this process include "
               ++ join ", " (consequences coreAxial) ++ ". "
               ++ "These consequences may, in turn, influence future iterations of the process, "
               ++ "creating a dynamic and evolving pattern." ++ nl ++ nl
             else EmptyString)
     | None => EmptyString
     end
  ++ "This integrated storyline demonstrates how the categories work together "
  ++ "to form a coherent theoretical explanation.".

(** [Math.min(n * k, 20)] on counts *)
Definition capped (n k : nat) : Q := inject_Z (Z.of_nat (Nat.min (n * k) 20)).

Definition assessTheoryCompleteness (coreCategory : CoreCategory)
    (categories : list Category) (axialResults : list AxialCodingResult) : Q :=
  let maxScore : Q := (20 + 20 + 20 + 20 + 20)%Q in
  let score : Q :=
    (20
     + capped (List.length categories) 4
     + capped (List.length (relationships coreCategory)) 5
     + capped (List.length axialResults) 4
     + centrality coreCategory * 20)%Q in
  Qmin (score / maxScore) 1.

Definition generateRecommendations (completeness : Q)
    (coreCategory : CoreCategory) (categories : list Category)
  : list string :=
  [ if Qltb completeness (6 # 10) then
      "Theory is incomplete. Continue data collection and coding to develop more robust categories."
    else if Qltb completeness (8 # 10) then
      "Theory is developing well. Focus on refining relationships between categories."
    else
      "Theory is well-developed and ready for validation and refinement." ]
  ++ (if List.length (relationships coreCategory) <? 3 then
        [ "Consider exploring more relationships between the core category and other categories." ]
      else [])
  ++ (if List.length categories <? 5 then
        [ "Theory might benefit from identifying additional categories through further analysis." ]
      else [])
  ++ (if Qltb (centrality coreCategory) (5 # 10) then
        [ "The identified core category may not be sufficiently central. Consider if another category better integrates the theory." ]
      else [])
  ++ [ "Write detailed theoretical memos to document your analytical decisions.";
       "Consider member checking by sharing preliminary findings with participants." ].

Definition integrateTheory (coreCategory : CoreCategory)
    (categories : list Category) (axialResults : list AxialCodingResult)
    (researchQuestion : string) (paradigm : Paradigm)
  : GroundedTheoryResult :=
  let completeness :=
    assessTheoryCompleteness coreCategory categories axialResults in
  {| coreCategory := coreCategory;
     supportingCategories := categories;
     theoreticalFramework :=
       generateTheoreticalFramework coreCategory categories axialResults
                                    paradigm;
     storyline :=
       generateStoryline coreCategory categories axialResults researchQuestion;
     stage := theory_integration;
     completeness := completeness;
     recommendations :=
       generateRecommendations completeness coreCategory categories |}.

Definition buildGroundedTheory (codes : list Code)
    (themes : option (list Theme)) (researchQuestion : string)
    (paradigm : Paradigm) : Error + GroundedTheoryResult :=
  let categories := identifyCategories codes paradigm in
  let axialResults := performAxialCoding categories codes in
  match identifyCoreCategory categories axialResults researchQuestion with
  | inl e => inl e
  | inr coreCategory =>
      inr (integrateTheory coreCategory categories axialResults
                           researchQuestion paradigm)
  end.

End TheoryEngine.


(* ================================================================== *)
(** ** Coding engine: automatic coding

    The rest of coding-engine.ts: segmentation, constructed codes, the
    match of existing codes, accumulation and the summary. *)

From Stdlib Require Import Sorted Qround.

Record Segment := mkSegment {
  seg_text : string;
  seg_start : nat;
  seg_end : nat
}.

Record CodedSegment := mkCodedSegment {
  cs_text : string;
  cs_codes : list string;
  startIndex : nat;
  endIndex : nat
}.

Record Summary := mkSummary {
  totalCodes : nat;
  inVivoCodes : nat;
  constructedCodes : nat;
  theoreticalCodes : nat;
  averageCodesPerSegment : Q
}.

Record CodingResult := mkCodingResult {
  codes : list Code;
  segments : list CodedSegment;
  summary : Summary
}.

Module AutoCoding.
Import JsString.

Definition newline : ascii := ascii_of_nat 10.

Definition is_newline (c : ascii) : bool := Ascii.eqb c newline.

(** [[.!?]] *)
Definition is_terminator (c : ascii) : bool :=
  Ascii.eqb c "." || Ascii.eqb c "!" || Ascii.eqb c "?".

(** The pieces of [text.split(/\n\n+/)]: the first piece and the others.  A
    run of two newlines or more separates two pieces, a lone newline
    belongs to its piece; [skip] counts the newlines of the current run
    that are still to be passed over. *)
Fixpoint splitParagraphsAux (skip : nat) (s : string) : string * list string :=
  match s with
  | EmptyString => (EmptyString, [])
  | String c s' =>
      match skip with
      | S skip' => splitParagraphsAux skip' s'
      | O =>
          if is_newline c
             && (1 <=? CodingEngine.countWhile is_newline s') then
            let '(t, ts) :=
              splitParagraphsAux (CodingEngine.countWhile is_newline s') s' in
            (EmptyString, t :: ts)
          else
            let '(t, ts) := splitParagraphsAux 0 s' in
            (String c t, ts)
      end
  end.

Definition splitParagraphs (text : string) : list string :=
  let '(t, ts) := splitParagraphsAux 0 text in t :: ts.

(** The matches of the sentence pattern: one character or more outside
    [.!?] followed by one character or more among [.!?].  [body] and [term]
    hold, reversed, the two parts of the match being read; what follows the
    last terminator of the paragraph belongs to no match. *)
Fixpoint sentenceScan (body term : string) (s : string) : list string :=
  match s with
  | EmptyString =>
      match term with
      | EmptyString => []
      | _ => [rev (term ++ body)]
      end
  | String c s' =>
      if is_terminator c then
        match body with
        | EmptyString => sentenceScan EmptyString EmptyString s'
        | _ => sentenceScan body (String c term) s'
        end
      else
        match term with
        | EmptyString => sentenceScan (String c body) EmptyString s'
        | _ =>
            rev (term ++ body)
            :: sentenceScan (String c EmptyString) EmptyString s'
        end
  end.

(** [para.match(/[^.!?]+[.!?]+/g) || [para]] *)
Definition sentencesOf (para : string) : list string :=
  match sentenceScan EmptyString EmptyString para with
  | [] => [para]
  | sentences => sentences
  end.

(** One turn of the loop over the sentences of a long paragraph *)
Definition sentenceStep (state : list Segment * nat) (sentence : string)
  : list Segment * nat :=
  let '(segments, currentIndex) := state in
  let trimmed := trim sentence in
  if 0 <? String.length trimmed then
    (segments
     ++ [ {| seg_text := trimmed;
             seg_start := currentIndex;
             seg_end := currentIndex + String.length trimmed |} ],
     currentIndex + String.length sentence)
  else state.

(** One turn of the loop over the paragraphs *)
Definition paragraphStep (state : list Segment * nat) (para : string)
  : list Segment * nat :=
  let '(segments, currentIndex) := state in
  if String.length (trim para) =? 0 then state
  else if 500 <? String.length para then
    fold_left sentenceStep (sentencesOf para) state
  else
    (segments
     ++ [ {| seg_text := trim para;
             seg_start := currentIndex;
             seg_end := currentIndex + String.length para |} ],
     currentIndex + String.length para + 2).

Definition segmentText (text : string) : list Segment :=
  fst (fold_left paragraphStep (splitParagraphs text) ([], 0)).

(** *** Constructed codes *)

(** The maximal runs of word characters of [s], in order; [cur] holds the
    run being read, reversed. *)
Fixpoint wordTokensAux (cur : string) (s : string) : list string :=
  match s with
  | EmptyString =>
      match cur with
      | EmptyString => []
      | _ => [rev cur]
      end
  | String c s' =>
      if is_word c then wordTokensAux (String c cur) s'
      else
        match cur with
        | EmptyString => wordTokensAux EmptyString s'
        | _ => rev cur :: wordTokensAux EmptyString s'
        end
  end.

Definition wordTokens (s : string) : list string :=
  wordTokensAux EmptyString s.

(** [lowerText.match(/\b\w+ing\b/g) || []]: between two word boundaries the
    pattern can only cover a whole run of word characters, which must end
    in [ing] after one character at least. *)
Definition gerundsOf (lowerText : string) : list string :=
  filter (fun w => (4 <=? String.length w) && endsWith w "ing")
         (wordTokens lowerText).

(** [[...new Set(xs)]] *)
Definition unique (xs : list string) : list string :=
  fold_left (fun seen x => if mem x seen then seen else seen ++ [x]) xs [].

(** [new RegExp('\\b' + word + '\\b', 'i').test(text)] for a word made of
    word characters: it must be a whole run of word characters of the
    text. *)
Definition hasWord (word text : string) : bool :=
  mem word (wordTokens (toLowerCase text)).

(** [/k1|k2|.../i.test(text)] for lower-case literals *)
Definition testAnyI (ks : list string) (text : string) : bool :=
  test_any ks (toLowerCase text).

Definition constructedCode (n d text : string) : Code :=
  {| name := n; definition := d; examples := [text];
     frequency := 1; type := constructed |}.

Definition emotions : list string :=
  ["happy"; "sad"; "angry"; "frustrated"; "excited"; "worried"; "anxious"].

Definition groundedCodes (text : string) : list Code :=
  map (fun gerund => constructedCode gerund ("Process/action: " ++ gerund) text)
      (filter (fun gerund => 5 <? String.length gerund)
              (firstn 5 (unique (gerundsOf (toLowerCase text)))))
  ++ (if testAnyI ["relationship"; "interaction"; "connection"; "between"] text
      then [ constructedCode "relational-dynamics"
               "Describes relationships or interactions between entities" text ]
      else []).

Definition thematicCodes (text : string) : list Code :=
  (if testAnyI ["difficult"; "challenge"; "problem"; "issue"; "struggle"] text
   then [ constructedCode "challenge-identified"
            "Participant describes a difficulty or challenge" text ]
   else [])
  ++ (if testAnyI ["solution"; "strategy"; "approach"; "way to"; "how to"] text
      then [ constructedCode "coping-strategy"
               "Participant describes a strategy or solution" text ]
      else [])
  ++ map (fun emotion =>
            constructedCode ("emotion-" ++ emotion)
                            ("Emotional state: " ++ emotion) text)
         (filter (fun emotion => hasWord emotion text) emotions).

Definition phenomenologyCodes (text : string) : list Code :=
  if testAnyI ["experience"; "feel"; "sense"; "perceive"] text
  then [ constructedCode "lived-experience"
           "Description of lived experience or perception" text ]
  else [].

Definition generateConstructedCodes (text methodology : string) : list Code :=
  (if includes methodology "grounded" || String.eqb methodology "general"
   then groundedCodes text else [])
  ++ (if includes methodology "thematic" || String.eqb methodology "general"
      then thematicCodes text else [])
  ++ (if includes methodology "phenomenology"
      then phenomenologyCodes text else []).

(** *** Existing codes *)

Definition codeApplies (text code : string) : bool :=
  existsb (fun keyword => includes (toLowerCase text) (toLowerCase keyword))
          (split_words code).

Definition existingCodeFor (text existingCode : string) : Code :=
  {| name := existingCode;
     definition := "Existing code from codebook";
     examples := [(take 100 text ++ "...")%string];
     frequency := 1;
     type := constructed |}.

Definition generateCodesForSegment (text methodology : string)
    (existingCodes : list string) : list Code :=
  CodingEngine.extractInVivoCodes text
  ++ generateConstructedCodes text methodology
  ++ map (existingCodeFor text) (filter (codeApplies text) existingCodes).

(** *** Accumulation and summary *)

(** One turn of the loop over the codes of a segment: a name already in
    the map has its record counted once more and given one more example, a
    new name enters the map with its record. *)
Definition accumulate (segmentText : string) (allCodes : JsMap.t Code)
    (code : Code) : JsMap.t Code :=
  match JsMap.get allCodes (name code) with
  | Some existing =>
      JsMap.set allCodes (name code)
        {| name := name existing;
           definition := definition existing;
           examples := examples existing ++ [(take 100 segmentText ++ "...")%string];
           frequency := frequency existing + 1;
           type := type existing |}
  | None => JsMap.set allCodes (name code) code
  end.

Definition codeType_eqb (a b : CodeType) : bool :=
  match a, b with
  | in_vivo, in_vivo | constructed, constructed | theoretical, theoretical =>
      true
  | _, _ => false
  end.

Definition countType (t : CodeType) (cs : list Code) : nat :=
  List.length (filter (fun c => codeType_eqb (type c) t) cs).

(** [Math.round(x)] on a rational: the half goes up. *)
Definition round (x : Q) : Z := Qfloor (x + (1 # 2)).

Definition generateSummary (cs : list Code) (segs : list CodedSegment)
  : Summary :=
  let totalCodeApplications :=
    fold_left (fun sum seg => sum + List.length (cs_codes seg)) segs 0 in
  let average : Q :=
    if 0 <? List.length segs
    then (inject_Z (Z.of_nat totalCodeApplications)
          / inject_Z (Z.of_nat (List.length segs)))%Q
    else 0%Q in
  {| totalCodes := List.length cs;
     inVivoCodes := countType in_vivo cs;
     constructedCodes := countType constructed cs;
     theoreticalCodes := countType theoretical cs;
     averageCodesPerSegment := (inject_Z (round (average * 10)) / 10)%Q |}.

(** One turn of the loop over the segments *)
Definition codingStep (methodology : string) (existingCodes : list string)
    (state : JsMap.t Code * list CodedSegment) (segment : Segment)
  : JsMap.t Code * list CodedSegment :=
  let '(allCodes, codedSegments) := state in
  let segmentCodes :=
    generateCodesForSegment (seg_text segment) methodology existingCodes in
  (fold_left (accumulate (seg_text segment)) segmentCodes allCodes,
   codedSegments
   ++ [ {| cs_text := seg_text segment;
           cs_codes := map name segmentCodes;
           startIndex := seg_start segment;
           endIndex := seg_end segment |} ]).

Definition autoCoding (text : string) (existingCodes : list string)
    (methodology : string) : CodingResult :=
  let '(allCodes, codedSegments) :=
    fold_left (codingStep methodology existingCodes) (segmentText text)
              (JsMap.empty, []) in
  let cs := JsMap.values allCodes in
  {| codes := cs;
     segments := codedSegments;
     summary := generateSummary cs codedSegments |}.

End AutoCoding.

(* ================================================================== *)
(** ** Theme engine: pattern analysis *)

Module PatternAnalysis.
Import JsString.

Inductive PatternType := sequence | co_occurrence | contrast | hierarchy.
Inductive Significance := high | medium | low.

Record Pattern := mkPattern {
  pattern_type : PatternType;
  pattern_description : string;
  elements : list string;
  pattern_frequency : nat;
  significance : Significance
}.

Definition quoted (s : string) : string :=
  String dquote s ++ String dquote EmptyString.

(** [ex === ex2 || ex.includes(ex2) || ex2.includes(ex)] *)
Definition overlaps (ex ex2 : string) : bool :=
  String.eqb ex ex2 || includes ex ex2 || includes ex2 ex.

Definition sharedExamples (code1 code2 : Code) : list string :=
  filter (fun ex => existsb (overlaps ex) (examples code2)) (examples code1).

(** The body of the inner loop, for the pair of [code1] and a later
    [code2] *)
Definition coOccurrenceOf (code1 code2 : Code) : list Pattern :=
  let shared := sharedExamples code1 code2 in
  if 0 <? List.length shared then
    [ {| pattern_type := co_occurrence;
         pattern_description :=
           quoted (name code1) ++ " and " ++ quoted (name code2)
           ++ " frequently occur together";
         elements := [name code1; name code2];
         pattern_frequency := List.length shared;
         significance := if 2 <? List.length shared then high else medium |} ]
  else [].

(** The two nested loops over [i < j] *)
Fixpoint findCoOccurrences (cs : list Code) : list Pattern :=
  match cs with
  | [] => []
  | code1 :: rest =>
      flat_map (coOccurrenceOf code1) rest ++ findCoOccurrences rest
  end.

Definition oppositions : list (string * string) :=
  [ ("positive", "negative"); ("easy", "difficult"); ("success", "failure");
    ("before", "after"); ("challenge", "solution") ].

Definition contrastOf (cs : list Code) (terms : string * string)
  : list Pattern :=
  let '(term1, term2) := terms in
  let codes1 := filter (fun c => includes (name c) term1) cs in
  let codes2 := filter (fun c => includes (name c) term2) cs in
  if (0 <? List.length codes1) && (0 <? List.length codes2) then
    [ {| pattern_type := contrast;
         pattern_description :=
           "Contrast between " ++ term1 ++ " and " ++ term2 ++ " concepts";
         elements := map name codes1 ++ map name codes2;
         pattern_frequency := List.length codes1 + List.length codes2;
         significance := high |} ]
  else [].

Definition findContrasts (cs : list Code) : list Pattern :=
  flat_map (contrastOf cs) oppositions.

(** The codes of an array with their positions: the source tells a code
    from the others by identity ([c !== code]), which for an array of
    distinct objects is the position. *)
Definition indexed (cs : list Code) : list (nat * Code) :=
  combine (seq 0 (List.length cs)) cs.

Definition hierarchyOf (cs : list Code) (entry : nat * Code) : list Pattern :=
  let '(i, code) := entry in
  let potentialChildren :=
    map snd
        (filter (fun e : nat * Code =>
                   negb (fst e =? i)
                   && String.prefix (name code) (name (snd e)))
                (indexed cs)) in
  if 0 <? List.length potentialChildren then
    [ {| pattern_type := hierarchy;
         pattern_description :=
           quoted (name code) ++ " is a parent concept with "
           ++ of_nat (List.length potentialChildren) ++ " sub-categories";
         elements := name code :: map name potentialChildren;
         pattern_frequency := List.length potentialChildren;
         significance := medium |} ]
  else [].

Definition findHierarchies (cs : list Code) : list Pattern :=
  flat_map (hierarchyOf cs) (indexed cs).

(** [sigOrder] *)
Definition sigOrder (s : Significance) : nat :=
  match s with
  | high => 3
  | medium => 2
  | low => 1
  end.

Definition analyzePatterns (cs : list Code) : list Pattern :=
  js_sort (fun a b => sigOrder (significance a) <? sigOrder (significance b))
          (findCoOccurrences cs ++ findContrasts cs ++ findHierarchies cs).

End PatternAnalysis.
(* ================================================================== *)
(** ** Predicates used in the statements *)

(** Every group of a grouping map has a first member, and is stored under
    the name of that member. *)
Definition keyed (groups : JsMap.t (list Code)) : Prop :=
  Forall (fun e => exists c g, snd e = c :: g /\ fst e = name c) groups.

(** The map that holds every code of [codes] in a group of its own. *)
Definition singletons (codes : list Code) : JsMap.t (list Code) :=
  map (fun c => (name c, [c])) codes.

(** No code of [rest] is similar to a code of [seen] or to a code before it
    in [rest]. *)
Fixpoint noneSimilarTo (sim : Code -> Code -> bool) (seen rest : list Code)
  : bool :=
  match rest with
  | [] => true
  | c :: rest' =>
      forallb (fun p => negb (sim c p)) seen
      && noneSimilarTo sim (seen ++ [c]) rest'
  end.

(** A codebook in which no code is similar to an earlier one. *)
Definition pairwiseDissimilar (codes : list Code) : bool :=
  noneSimilarTo CodingEngine.codesAreSimilar [] codes.

(** What one group contributes to [refined] and to [merges]. *)
Definition refinedOf (entry : string * list Code) : list Code :=
  if 1 <? List.length (snd entry)
  then [fst (CodingEngine.mergeGroup (snd entry))]
  else firstn 1 (snd entry).

Definition mergesOf (entry : string * list Code) : list Merge :=
  if 1 <? List.length (snd entry)
  then [snd (CodingEngine.mergeGroup (snd entry))]
  else [].

(** Some group of the map has two members or more. *)
Definition hasLargeGroup (groups : JsMap.t (list Code)) : Prop :=
  Exists (fun e => 2 <= List.length (snd e)) groups.

(** ** Sample inputs *)

Definition sampleCode (n : string) (f : Z) : Code :=
  {| name := n; definition := EmptyString; examples := [];
     frequency := f; type := constructed |}.

(** The second code joins the first (three words of four in common); the
    third shares only two of the four words of the first and stays alone. *)
Definition nestedNames : list Code :=
  [ sampleCode "coping-with-exam-stress" 3;
    sampleCode "coping-with-exam" 2;
    sampleCode "coping-with" 1 ].

Definition dissimilarNames : list Code :=
  [ sampleCode "anxiety" 3; sampleCode "exercise" 2 ].

(** Frequencies that JavaScript numbers add without loss: none is
    negative, and together they stay within 2^53. *)
Definition countable (codes : list Code) : Prop :=
  Forall (fun c => (0 <= frequency c)%Z) codes
  /\ (sum_by frequency codes <= Double.maxSafe)%Z.

(** Three similar codes; the one with the shortest name, which the merge
    puts first, has a frequency of 2^53. *)
Definition largeFrequencies : list Code :=
  [ sampleCode "coping-with-exam-stress" 1;
    sampleCode "coping-with-exam-worry" 1;
    sampleCode "coping-with-exam" (2 ^ 53) ].

(** The themes of a result together with their sub-themes. *)
Definition withSubThemes (themes : list Theme) : list Theme :=
  themes
  ++ flat_map (fun t => match subThemes t with Some ss => ss | None => [] end)
              themes.

(** The frequency of the codes of [codes] that a theme names. *)
Definition supportingFrequency (t : Theme) (codes : list Code) : Z :=
  sum_by frequency
         (filter (fun c => JsString.mem (name c) (supportingCodes t)) codes).

(** Six codes that fall into one group and one that stays outside it. *)
Definition deepSample : list Code :=
  [ sampleCode "stress-exam" 1; sampleCode "stress-work" 1;
    sampleCode "stress-home" 1; sampleCode "stress-money" 1;
    sampleCode "stress-health" 1; sampleCode "stress-travel" 1;
    sampleCode "gardening" 1 ].



(** A result that meets the data model: the terminal stage, at least one
    category, every category with a code, the core category among the
    supporting ones, centrality in (0,1], completeness in [0,1] and at
    least one recommendation. *)
Definition wellFormed (r : GroundedTheoryResult) : Prop :=
  stage r = theory_integration
  /\ supportingCategories r <> []
  /\ Forall (fun c => relatedCodes c <> []) (supportingCategories r)
  /\ In (core_name (coreCategory r)) (map cat_name (supportingCategories r))
  /\ (0 < centrality (coreCategory r) <= 1)%Q
  /\ (0 <= completeness r <= 1)%Q
  /\ recommendations r <> [].

(** The pattern [/incomplete|continue|more/i] of the test suite. *)
Definition matchesIncomplete (s : string) : bool :=
  JsString.test_any ["incomplete"; "continue"; "more"] (JsString.toLowerCase s).

Definition incompleteAdvice : string :=
  "Theory is incomplete. Continue data collection and coding to develop more robust categories.".

Definition developingAdvice : string :=
  "Theory is developing well. Focus on refining relationships between categories.".

(** The code of the test "should handle minimal input gracefully", and a
    single code whose category is a process and whose definition names
    both a cause and an outcome. *)
Definition minimalCode : Code :=
  {| name := "single"; definition := "one code"; examples := [];
     frequency := 1; type := constructed |}.

Definition causedCode : Code :=
  {| name := "working"; definition := "caused by stress"; examples := [];
     frequency := 1; type := constructed |}.

(** Every group of the map holds a code. *)
Definition allNonEmpty (groups : JsMap.t (list Code)) : Prop :=
  Forall (fun e => snd e <> []) groups.

(* ================================================================== *)
(** ** Predicates of the further properties *)

(** A code as the strategies make it: counted once, of type in-vivo or
    constructed, with an example. *)
Definition generated (c : Code) : Prop :=
  frequency c = 1%Z /\ type c <> theoretical /\ examples c <> [].

(** A code of the accumulated codebook. *)
Definition counted (c : Code) : Prop :=
  (1 <= frequency c)%Z /\ type c <> theoretical /\ examples c <> [].

(** The map of the accumulated codes: every record under its own name, no
    name twice. *)
Definition codebook (m : JsMap.t Code) : Prop :=
  Forall (fun e => fst e = name (snd e)) m
  /\ NoDup (JsMap.keys m)
  /\ Forall (fun e => counted (snd e)) m.

(** The number of code names attached to the segments. *)
Definition attachments (segs : list CodedSegment) : nat :=
  list_sum (map (fun seg => List.length (cs_codes seg)) segs).

(** Every character of the string satisfies [p]. *)
Fixpoint allChars (p : ascii -> bool) (s : string) : bool :=
  match s with
  | EmptyString => true
  | String c s' => p c && allChars p s'
  end.





(** The gerunds that become codes: the first five distinct gerunds of the
    lowered text, those of five characters or less left out. *)
Definition codedGerunds (text : string) : list string :=
  filter (fun gerund => 5 <? String.length gerund)
         (firstn 5 (AutoCoding.unique
                      (AutoCoding.gerundsOf (JsString.toLowerCase text)))).

Definition isGerundCode (c : Code) : bool :=
  String.prefix "Process/action: " (definition c).

(** The number of codes that the merges make disappear. *)
Definition absorbed (ms : list Merge) : nat :=
  list_sum (map (fun m => List.length (from m) - 1) ms).

(** What holds of every pattern that the analysis can produce. *)
Definition patternShape (cs : list Code) (p : PatternAnalysis.Pattern) : Prop :=
  PatternAnalysis.pattern_type p <> PatternAnalysis.sequence
  /\ PatternAnalysis.significance p <> PatternAnalysis.low
  /\ 2 <= List.length (PatternAnalysis.elements p)
  /\ 1 <= PatternAnalysis.pattern_frequency p
  /\ incl (PatternAnalysis.elements p) (map name cs)
  /\ (PatternAnalysis.pattern_type p = PatternAnalysis.co_occurrence ->
      List.length (PatternAnalysis.elements p) = 2)
  /\ (PatternAnalysis.significance p = PatternAnalysis.high <->
      PatternAnalysis.pattern_type p = PatternAnalysis.contrast
      \/ (PatternAnalysis.pattern_type p = PatternAnalysis.co_occurrence
          /\ 2 < PatternAnalysis.pattern_frequency p)).

Definition overlappingExamples : list Code :=
  [ {| name := "code-a"; definition := "A"; examples := ["shared example"];
       frequency := 2; type := constructed |};
    {| name := "code-b"; definition := "B"; examples := ["shared example"];
       frequency := 2; type := constructed |} ].


(** The score of a category in selective coding, with the paradigm models
    of axial coding over the same categories and codes. *)
Definition scoreIn (codes : list Code) (categories : list Category)
    (category : Category) : Q :=
  TheoryEngine.categoryScore
    (TheoryEngine.performAxialCoding categories codes) category.

Definition totalScore (codes : list Code) (categories : list Category) : Q :=
  fold_left Qplus (map (scoreIn codes categories) categories) (0 : Q).

(** A property of a category: a word of more than three characters, not a
    common word, of the name of one of its codes. *)
Definition propertyOf (codes : list Code) (category : Category)
    (word : string) : Prop :=
  3 < String.length word
  /\ TheoryEngine.isCommonWord word = false
  /\ exists code, In code codes
                  /\ In (name code) (relatedCodes category)
                  /\ In word (JsString.split_words (name code)).

Definition theorySample : list Code :=
  [ {| name := "time pressure"; definition := "Deadlines felt as a problem";
       examples := ["never enough time"]; frequency := 2;
       type := constructed |};
    {| name := "asking peers"; definition := "A strategy to cope";
       examples := ["I ask my friends"]; frequency := 1;
       type := constructed |};
    {| name := "planning"; definition := "Organising the week";
       examples := ["I plan ahead"]; frequency := 1;
       type := constructed |} ].

(** What holds of every relationship of a core category. *)
Definition relationshipShape (codes : list Code) (categories : list Category)
    (rel : Relationship) : Prop :=
  relationshipType rel <> part_of
  /\ relationshipType rel <> contradicts
  /\ (In (relatedCategory rel) (map cat_name categories)
      \/ In (relatedCategory rel) (map name codes))
  /\ (relationshipType rel = influences ->
      In (relatedCategory rel) (map cat_name categories)).

(** ** Quoted phrases in [autoCoding] *)







(** Every group of a grouping map is stored under the name of its first
    member, and its other members are similar to the first. *)
Definition clustered (sim : Code -> Code -> bool)
    (groups : JsMap.t (list Code)) : Prop :=
  Forall (fun e => exists first rest,
                     snd e = first :: rest
                     /\ fst e = name first
                     /\ Forall (fun c => sim c first = true) rest)
         groups.
(* ================================================================== *)
(** * Properties *)

(** ** Sums, sorting and maps *)

Lemma fold_add_shift {A : Type} (f : A -> Z) (l : list A) (a : Z) :
  fold_left (fun sum x => (sum + f x)%Z) l a = (a + sum_by f l)%Z.
Proof.
  unfold sum_by. revert a.
  induction l as [|x l IH]; intros a; simpl.
  - lia.
  - rewrite IH, (IH (f x)). lia.
Qed.

Lemma sum_by_nil {A : Type} (f : A -> Z) : sum_by f [] = 0%Z.
Proof. reflexivity. Qed.

Lemma sum_by_cons {A : Type} (f : A -> Z) (x : A) (l : list A) :
  sum_by f (x :: l) = (f x + sum_by f l)%Z.
Proof. unfold sum_by at 1. simpl. now rewrite fold_add_shift. Qed.

Lemma sum_by_app {A : Type} (f : A -> Z) (l1 l2 : list A) :
  sum_by f (l1 ++ l2) = (sum_by f l1 + sum_by f l2)%Z.
Proof.
  induction l1 as [|x l1 IH].
  - rewrite sum_by_nil. reflexivity.
  - rewrite <- app_comm_cons, !sum_by_cons, IH. lia.
Qed.

Lemma sum_by_perm {A : Type} (f : A -> Z) (l1 l2 : list A) :
  Permutation l1 l2 -> sum_by f l1 = sum_by f l2.
Proof.
  induction 1; rewrite ?sum_by_cons; lia.
Qed.

Lemma sum_by_nonneg {A : Type} (f : A -> Z) (l : list A) :
  Forall (fun x => (0 <= f x)%Z) l -> (0 <= sum_by f l)%Z.
Proof.
  induction 1; rewrite ?sum_by_nil, ?sum_by_cons; lia.
Qed.

Lemma js_insert_perm {A : Type} (gt : A -> A -> bool) (x : A) (l : list A) :
  Permutation (js_insert gt x l) (x :: l).
Proof.
  induction l as [|y l IH]; simpl.
  - reflexivity.
  - destruct (gt x y).
    + rewrite IH. apply perm_swap.
    + reflexivity.
Qed.

Lemma js_sort_perm {A : Type} (gt : A -> A -> bool) (l : list A) :
  Permutation (js_sort gt l) l.
Proof.
  induction l as [|x l IH]; simpl.
  - reflexivity.
  - rewrite js_insert_perm. now constructor.
Qed.

Lemma js_sort_nil_inv {A : Type} (gt : A -> A -> bool) (l : list A) :
  js_sort gt l = [] -> l = [].
Proof.
  intros H. apply Permutation_nil. rewrite <- H.
  apply js_sort_perm.
Qed.

Lemma set_fresh {V : Type} (m : JsMap.t V) (k : string) (v : V) :
  Forall (fun e => fst e <> k) m -> JsMap.set m k v = m ++ [(k, v)].
Proof.
  induction 1 as [|[k' v'] m Hk _ IH]; simpl.
  - reflexivity.
  - simpl in Hk. apply String.eqb_neq in Hk. now rewrite Hk, IH.
Qed.

Lemma set_keys_incl {V : Type} (m : JsMap.t V) (k : string) (v : V) :
  forall k', In k' (JsMap.keys (JsMap.set m k v)) ->
             k' = k \/ In k' (JsMap.keys m).
Proof.
  unfold JsMap.keys.
  induction m as [|[k0 v0] m IH]; simpl; intros k' H.
  - destruct H as [H|[]]. now left.
  - destruct (String.eqb k0 k); simpl in H.
    + now right.
    + destruct H as [H|H]; [now right; left|].
      destruct (IH _ H) as [?|?]; [now left|now right; right].
Qed.

Lemma set_not_nil {V : Type} (m : JsMap.t V) (k : string) (v : V) :
  JsMap.set m k v <> [].
Proof.
  destruct m as [|[k0 v0] m]; simpl; [discriminate|].
  destruct (String.eqb k0 k); discriminate.
Qed.

(** ** Word overlap *)

Lemma commonWords_self (ws : list string) : commonWords ws ws = ws.
Proof.
  unfold commonWords.
  apply forallb_filter_id. apply forallb_forall. intros w Hw.
  unfold JsString.mem. apply existsb_exists.
  exists w. split; [assumption|apply String.eqb_refl].
Qed.

Lemma split_words_length (s : string) :
  1 <= List.length (JsString.split_words s).
Proof.
  unfold JsString.split_words.
  destruct (JsString.split_aux false s). simpl. lia.
Qed.

Lemma similarity_self (s : string) : (similarity s s == 1)%Q.
Proof.
  unfold similarity. rewrite commonWords_self, Nat.max_id.
  pose proof (split_words_length s) as H.
  set (n := List.length (JsString.split_words s)) in *.
  assert (Hn : (0 < inject_Z (Z.of_nat n))%Q).
  { change (inject_Z 0 < inject_Z (Z.of_nat n))%Q. rewrite <- Zlt_Qlt. lia. }
  field. intros E. rewrite E in Hn. now apply Qlt_irrefl in Hn.
Qed.

Lemma Qltb_true (x y : Q) : Qltb x y = true <-> (x < y)%Q.
Proof.
  unfold Qltb. rewrite negb_true_iff.
  split; intros H.
  - apply Qnot_le_lt. intros Hle. apply Qle_bool_iff in Hle. congruence.
  - destruct (Qle_bool y x) eqn:E; [|reflexivity].
    apply Qle_bool_iff in E. exfalso. now apply (Qlt_not_le x y).
Qed.

Lemma Qltb_false (x y : Q) : Qltb x y = false <-> (y <= x)%Q.
Proof.
  unfold Qltb. rewrite negb_false_iff. apply Qle_bool_iff.
Qed.

Lemma inject_Z_pos (z : Z) : (0 < z)%Z -> (0 < inject_Z z)%Q.
Proof.
  intros H. change (inject_Z 0 < inject_Z z)%Q. now rewrite <- Zlt_Qlt.
Qed.


(** ** Greedy grouping *)

Section GroupingFacts.
Variable sim : Code -> Code -> bool.
Hypothesis sim_self : forall c c', name c = name c' -> sim c c' = true.

Lemma pushToSimilar_None (code : Code) (groups : JsMap.t (list Code)) :
  pushToSimilar sim code groups = None ->
  Forall (fun e => forall first g, snd e = first :: g -> sim code first = false)
         groups.
Proof.
  induction groups as [|[k gc] groups IH]; simpl; intros H.
  - constructor.
  - destruct gc as [|first g].
    + destruct (pushToSimilar sim code groups); [discriminate|].
      constructor; [|now apply IH]. simpl. intros ? ? E. discriminate.
    + destruct (sim code first) eqn:Es; [discriminate|].
      destruct (pushToSimilar sim code groups); [discriminate|].
      constructor; [|now apply IH]. simpl. intros ? ? E.
      now inversion E; subst.
Qed.

Lemma pushToSimilar_Some (code : Code) (groups groups' : JsMap.t (list Code)) :
  pushToSimilar sim code groups = Some groups' ->
  exists pre k first g post,
    groups = pre ++ (k, first :: g) :: post
    /\ groups' = pre ++ (k, first :: g ++ [code]) :: post
    /\ sim code first = true.
Proof.
  revert groups'.
  induction groups as [|[k gc] groups IH]; simpl; intros groups' H.
  - discriminate.
  - destruct (match gc with first :: _ => sim code first | [] => false end)
      eqn:Es.
    + destruct gc as [|first g]; [discriminate|].
      inversion H; subst.
      exists [], k, first, g, groups. repeat split; assumption.
    + destruct (pushToSimilar sim code groups) as [rest'|]; [|discriminate].
      inversion H; subst.
      destruct (IH _ eq_refl) as (pre & k' & first & g & post & E1 & E2 & E3).
      exists ((k, gc) :: pre), k', first, g, post. subst. repeat split.
      assumption.
Qed.

Lemma keyed_fresh (code : Code) (groups : JsMap.t (list Code)) :
  keyed groups ->
  pushToSimilar sim code groups = None ->
  Forall (fun e => fst e <> name code) groups.
Proof.
  intros Hk Hn. apply pushToSimilar_None in Hn.
  unfold keyed in Hk. rewrite Forall_forall in *.
  intros e He Hname.
  destruct (Hk e He) as (c & g & Es & Ef).
  specialize (Hn e He c g Es).
  rewrite sim_self in Hn; [discriminate|congruence].
Qed.

Lemma groupStep_None (code : Code) (groups : JsMap.t (list Code)) :
  keyed groups ->
  pushToSimilar sim code groups = None ->
  groupStep sim groups code = groups ++ [(name code, [code])].
Proof.
  intros Hk Hn. unfold groupStep. rewrite Hn.
  apply set_fresh. now apply keyed_fresh.
Qed.

Lemma groupStep_keyed (code : Code) (groups : JsMap.t (list Code)) :
  keyed groups -> keyed (groupStep sim groups code).
Proof.
  intros Hk.
  destruct (pushToSimilar sim code groups) as [groups'|] eqn:E.
  - unfold groupStep. rewrite E.
    apply pushToSimilar_Some in E.
    destruct E as (pre & k & first & g & post & E1 & E2 & _). subst.
    unfold keyed in *. apply Forall_app in Hk. destruct Hk as [Hpre Hpost].
    apply Forall_app. split; [assumption|].
    inversion Hpost as [|? ? Hhd Htl]; subst.
    constructor; [|assumption].
    destruct Hhd as (c & g' & Es & Ef). simpl in *.
    inversion Es; subst. now exists c, (g' ++ [code]).
  - rewrite groupStep_None by assumption.
    apply Forall_app. split; [assumption|].
    constructor; [|constructor]. now exists code, [].
Qed.

Lemma groupStep_members (code : Code) (groups : JsMap.t (list Code)) :
  keyed groups ->
  Permutation (flat_map snd (groupStep sim groups code))
              (flat_map snd groups ++ [code]).
Proof.
  intros Hk.
  destruct (pushToSimilar sim code groups) as [groups'|] eqn:E.
  - unfold groupStep. rewrite E.
    apply pushToSimilar_Some in E.
    destruct E as (pre & k & first & g & post & E1 & E2 & _). subst.
    rewrite !flat_map_app. simpl.
    rewrite <- ?app_assoc. apply Permutation_app_head.
    simpl. constructor. rewrite <- ?app_assoc. apply Permutation_app_head.
    apply Permutation_cons_append.
  - rewrite groupStep_None by assumption.
    rewrite flat_map_app. simpl. reflexivity.
Qed.

Lemma groupStep_length (code : Code) (groups : JsMap.t (list Code)) :
  keyed groups ->
  List.length (groupStep sim groups code) <= S (List.length groups).
Proof.
  intros Hk.
  destruct (pushToSimilar sim code groups) as [groups'|] eqn:E.
  - unfold groupStep. rewrite E.
    apply pushToSimilar_Some in E.
    destruct E as (pre & k & first & g & post & E1 & E2 & _). subst.
    rewrite !length_app. simpl. lia.
  - rewrite groupStep_None by assumption.
    rewrite length_app. simpl. lia.
Qed.

Lemma fold_groupStep_facts (codes : list Code) :
  forall groups,
    keyed groups ->
    let groups' := fold_left (groupStep sim) codes groups in
    keyed groups'
    /\ Permutation (flat_map snd groups') (flat_map snd groups ++ codes)
    /\ List.length groups' <= List.length groups + List.length codes.
Proof.
  induction codes as [|c codes IH]; intros groups Hk; simpl.
  - rewrite app_nil_r. repeat split; [assumption|reflexivity|lia].
  - destruct (IH _ (groupStep_keyed c groups Hk)) as (H1 & H2 & H3).
    repeat split.
    + assumption.
    + rewrite H2, groupStep_members by assumption.
      rewrite <- app_assoc. reflexivity.
    + pose proof (groupStep_length c groups Hk). lia.
Qed.

Lemma groupCodes_keyed (codes : list Code) : keyed (groupCodes sim codes).
Proof. apply (fold_groupStep_facts codes []). constructor. Qed.

Lemma groupCodes_members (codes : list Code) :
  Permutation (flat_map snd (groupCodes sim codes)) codes.
Proof. apply (fold_groupStep_facts codes []). constructor. Qed.

Lemma groupCodes_length (codes : list Code) :
  List.length (groupCodes sim codes) <= List.length codes.
Proof. apply (fold_groupStep_facts codes []). constructor. Qed.

(** A group of the map together with the codes outside it makes up the
    grouped list. *)
Lemma group_submultiset (codes : list Code) (k : string) (g : list Code) :
  In (k, g) (groupCodes sim codes) ->
  exists rest, Permutation (g ++ rest) codes.
Proof.
  intros Hin. apply in_split in Hin. destruct Hin as (pre & post & E).
  pose proof (groupCodes_members codes) as Hp. rewrite E in Hp.
  rewrite flat_map_app in Hp. simpl in Hp.
  exists (flat_map snd pre ++ flat_map snd post).
  rewrite <- Hp. rewrite !app_assoc.
  apply Permutation_app_tail. apply Permutation_app_comm.
Qed.

End GroupingFacts.

(** ** Codebook refinement *)

Lemma coding_similar_self (c c' : Code) :
  name c = name c' -> CodingEngine.codesAreSimilar c c' = true.
Proof.
  intros E. unfold CodingEngine.codesAreSimilar. rewrite E.
  apply Qltb_true. rewrite similarity_self. reflexivity.
Qed.

Lemma fold_mergeStep (es : list (string * list Code)) :
  forall acc,
    refined (fold_left CodingEngine.mergeStep es acc)
    = refined acc ++ flat_map refinedOf es
    /\ merges (fold_left CodingEngine.mergeStep es acc)
       = merges acc ++ flat_map mergesOf es.
Proof.
  induction es as [|e es IH]; intros acc; simpl.
  - now rewrite !app_nil_r.
  - destruct (IH (CodingEngine.mergeStep acc e)) as [Hr Hm].
    rewrite Hr, Hm. clear Hr Hm IH.
    unfold CodingEngine.mergeStep, refinedOf, mergesOf.
    destruct (1 <? List.length (snd e)).
    + destruct (CodingEngine.mergeGroup (snd e)) as [mergedCode m]. simpl.
      rewrite <- ?app_assoc. split; reflexivity.
    + simpl. rewrite <- ?app_assoc. split; reflexivity.
Qed.

Lemma refineCodebook_refined (codes : list Code) :
  refined (CodingEngine.refineCodebook codes)
  = flat_map refinedOf (groupCodes CodingEngine.codesAreSimilar codes).
Proof.
  unfold CodingEngine.refineCodebook, JsMap.entries.
  now rewrite (proj1 (fold_mergeStep _ _)).
Qed.

Lemma refineCodebook_merges (codes : list Code) :
  merges (CodingEngine.refineCodebook codes)
  = flat_map mergesOf (groupCodes CodingEngine.codesAreSimilar codes).
Proof.
  unfold CodingEngine.refineCodebook, JsMap.entries.
  now rewrite (proj2 (fold_mergeStep _ _)).
Qed.

(** *** Sums of frequencies *)

Lemma round_exact (z : Z) :
  (Z.abs z <= Double.maxSafe)%Z -> Double.round z = z.
Proof.
  intros H. unfold Double.round.
  now rewrite (proj2 (Z.leb_le _ _) H).
Qed.

Lemma fold_add_exact (l : list Code) :
  forall a,
    (0 <= a)%Z ->
    Forall (fun c => (0 <= frequency c)%Z) l ->
    (a + sum_by frequency l <= Double.maxSafe)%Z ->
    fold_left (fun sum c => Double.add sum (frequency c)) l a
    = (a + sum_by frequency l)%Z.
Proof.
  induction l as [|c l IH]; intros a Ha Hall Hmax.
  - rewrite sum_by_nil. simpl. lia.
  - inversion Hall as [|? ? Hc Hl]; subst.
    rewrite sum_by_cons in *.
    pose proof (sum_by_nonneg frequency l Hl) as Hpos.
    cbn [fold_left]. unfold Double.add at 2.
    rewrite round_exact by lia.
    rewrite IH; [lia|lia|assumption|lia].
Qed.

(** Within 2^53 the sum that the source computes is the exact sum. *)
Lemma sumFrequency_exact (codes : list Code) :
  countable codes -> sumFrequency codes = sum_by frequency codes.
Proof.
  intros [Hall Hmax]. unfold sumFrequency.
  rewrite fold_add_exact; [reflexivity|lia|assumption|].
  now rewrite Z.add_0_l.
Qed.

Lemma countable_perm (l1 l2 : list Code) :
  Permutation l1 l2 -> countable l1 -> countable l2.
Proof.
  intros Hp [Hall Hmax]. split.
  - rewrite Forall_forall in *. intros c Hc. apply Hall.
    apply (Permutation_in _ (Permutation_sym Hp) Hc).
  - now rewrite <- (sum_by_perm _ _ _ Hp).
Qed.

Lemma countable_app (l1 l2 : list Code) :
  countable (l1 ++ l2) -> countable l1 /\ countable l2.
Proof.
  intros [Hall Hmax]. apply Forall_app in Hall. destruct Hall as [H1 H2].
  rewrite sum_by_app in Hmax.
  pose proof (sum_by_nonneg frequency l1 H1).
  pose proof (sum_by_nonneg frequency l2 H2).
  split; split; try assumption; lia.
Qed.

Lemma mergeGroup_frequency (g : list Code) :
  countable g ->
  frequency (fst (CodingEngine.mergeGroup g)) = sum_by frequency g.
Proof.
  intros Hg. unfold CodingEngine.mergeGroup, CodingEngine.selectBestCodeName.
  cbn [fst frequency].
  assert (Hp : Permutation g (CodingEngine.sortByNameLength g)).
  { symmetry. apply js_sort_perm. }
  rewrite (sumFrequency_exact _ (countable_perm _ _ Hp Hg)).
  symmetry. now apply sum_by_perm.
Qed.

(** A group with a first member yields exactly one refined code, which
    carries the frequency of the whole group when that can be counted. *)
Lemma refinedOf_one (k : string) (c : Code) (g : list Code) :
  exists r, refinedOf (k, c :: g) = [r]
            /\ (countable (c :: g) ->
                frequency r = sum_by frequency (c :: g)).
Proof.
  unfold refinedOf. simpl snd.
  destruct (1 <? List.length (c :: g)) eqn:E.
  - eexists. split; [reflexivity|]. apply mergeGroup_frequency.
  - apply Nat.ltb_ge in E. destruct g as [|c' g]; [|simpl in E; lia].
    exists c. split; [reflexivity|]. intros _.
    now rewrite sum_by_cons, sum_by_nil, Z.add_0_r.
Qed.

Lemma refined_of_keyed (groups : JsMap.t (list Code)) :
  keyed groups ->
  List.length (flat_map refinedOf groups) = List.length groups
  /\ (countable (flat_map snd groups) ->
      sum_by frequency (flat_map refinedOf groups)
      = sum_by frequency (flat_map snd groups)).
Proof.
  induction 1 as [|[k gc] groups (c & g & Es & _) _ [IHl IHs]].
  - split; reflexivity.
  - simpl in Es. subst gc.
    destruct (refinedOf_one k c g) as (r & Er & Ef).
    cbn [flat_map]. rewrite Er. split.
    + simpl. now rewrite IHl.
    + cbn [snd]. intros Hc. apply countable_app in Hc.
      destruct Hc as [Hg Hrest].
      rewrite !sum_by_app, (IHs Hrest).
      rewrite (sum_by_cons _ r), sum_by_nil, (Ef Hg). lia.
Qed.

(** C2, as stated, fails where JavaScript numbers stop being exact: the
    three codes of [largeFrequencies] merge into one; the merge adds 1 and
    1 to 2^53, and each of the two additions gives 2^53 again.  The input
    frequencies add up to 2^53 + 2, also when they are added as doubles in
    the order of the input. *)
Lemma refineCodebook_loses_units_beyond_maxSafe :
  map frequency (refined (CodingEngine.refineCodebook largeFrequencies))
  = [(2 ^ 53)%Z]
  /\ sum_by frequency largeFrequencies = (2 ^ 53 + 2)%Z
  /\ sumFrequency largeFrequencies = (2 ^ 53 + 2)%Z
  /\ sum_by frequency (refined (CodingEngine.refineCodebook largeFrequencies))
     <> sum_by frequency largeFrequencies.
Proof. vm_compute. repeat split; try reflexivity. discriminate. Qed.

(** C2, amended.  The refined codebook is no longer than the input.  When
    no frequency is negative and the frequencies add up to 2^53 at most,
    merging conserves the total frequency: the frequencies of the refined
    codes add up to the frequencies of the input codes. *)
Theorem refineCodebook_shrinks_and_conserves_countable_frequency
    (codes : list Code) :
  List.length (refined (CodingEngine.refineCodebook codes))
    <= List.length codes
  /\ (countable codes ->
      sum_by frequency (refined (CodingEngine.refineCodebook codes))
      = sum_by frequency codes).
Proof.
  rewrite refineCodebook_refined.
  pose proof (groupCodes_keyed _ coding_similar_self codes) as Hk.
  pose proof (groupCodes_members _ coding_similar_self codes) as Hp.
  destruct (refined_of_keyed _ Hk) as [Hl Hs].
  split.
  - rewrite Hl. apply groupCodes_length. exact coding_similar_self.
  - intros Hc. rewrite Hs.
    + now apply sum_by_perm.
    + apply (countable_perm codes); [now symmetry|assumption].
Qed.

Lemma refineCodebook_conserves_on_nestedNames :
  countable nestedNames
  /\ sum_by frequency (refined (CodingEngine.refineCodebook nestedNames))
     = sum_by frequency nestedNames.
Proof.
  assert (H : countable nestedNames).
  { split; [repeat constructor; vm_compute; discriminate
           |vm_compute; discriminate]. }
  split; [exact H|].
  exact (proj2 (refineCodebook_shrinks_and_conserves_countable_frequency
                  nestedNames) H).
Defined.

(** ** Grouping a list that needs no merge *)

Section SingletonGroups.
Variable sim : Code -> Code -> bool.
Hypothesis sim_self : forall c c', name c = name c' -> sim c c' = true.

Lemma singletons_keyed (codes : list Code) : keyed (singletons codes).
Proof.
  unfold keyed, singletons. apply Forall_forall. intros e He.
  apply in_map_iff in He. destruct He as (c & <- & _). now exists c, [].
Qed.

Lemma singletons_app (l1 l2 : list Code) :
  singletons (l1 ++ l2) = singletons l1 ++ singletons l2.
Proof. apply map_app. Qed.

Lemma push_singletons (c : Code) (seen : list Code) :
  pushToSimilar sim c (singletons seen) = None
  <-> forallb (fun p => negb (sim c p)) seen = true.
Proof.
  induction seen as [|p seen IH]; simpl.
  - split; reflexivity.
  - destruct (sim c p); simpl.
    + split; discriminate.
    + rewrite <- IH.
      destruct (pushToSimilar sim c (singletons seen)); simpl;
        split; intros H; try discriminate H; reflexivity.
Qed.

Lemma groupStep_large (c : Code) (groups : JsMap.t (list Code)) :
  keyed groups -> hasLargeGroup groups ->
  hasLargeGroup (groupStep sim groups c).
Proof.
  intros Hk Hl.
  destruct (pushToSimilar sim c groups) as [groups'|] eqn:E.
  - unfold groupStep. rewrite E. apply pushToSimilar_Some in E.
    destruct E as (pre & k & first & g & post & -> & -> & _).
    unfold hasLargeGroup in *. rewrite Exists_app in *.
    destruct Hl as [Hl|Hl]; [now left|right].
    inversion Hl as [? ? Hhd|? ? Htl]; subst.
    + left. simpl in *. rewrite length_app. lia.
    + now right.
  - rewrite (groupStep_None sim sim_self) by assumption.
    unfold hasLargeGroup in *. rewrite Exists_app. now left.
Qed.

Lemma fold_groupStep_large (codes : list Code) :
  forall groups,
    keyed groups -> hasLargeGroup groups ->
    hasLargeGroup (fold_left (groupStep sim) codes groups).
Proof.
  induction codes as [|c codes IH]; intros groups Hk Hl; simpl.
  - assumption.
  - apply IH.
    + now apply groupStep_keyed.
    + now apply groupStep_large.
Qed.

(** Either no code meets a similar earlier one and every code stays alone,
    or some group grows beyond one member. *)
Lemma fold_groupStep_cases (rest : list Code) :
  forall seen,
    (noneSimilarTo sim seen rest = true
     /\ fold_left (groupStep sim) rest (singletons seen)
        = singletons (seen ++ rest))
    \/ (noneSimilarTo sim seen rest = false
        /\ hasLargeGroup (fold_left (groupStep sim) rest (singletons seen))).
Proof.
  induction rest as [|c rest IH]; intros seen; simpl.
  - left. now rewrite app_nil_r.
  - destruct (pushToSimilar sim c (singletons seen)) as [groups'|] eqn:E.
    + right. split.
      * destruct (forallb (fun p => negb (sim c p)) seen) eqn:Ef;
          [|reflexivity].
        apply push_singletons in Ef. congruence.
      * apply fold_groupStep_large.
        { apply groupStep_keyed; [assumption|apply singletons_keyed]. }
        unfold groupStep. rewrite E. apply pushToSimilar_Some in E.
        destruct E as (pre & k & first & g & post & _ & -> & _).
        apply Exists_app. right. left. simpl. rewrite length_app. simpl. lia.
    + assert (Es : groupStep sim (singletons seen) c = singletons (seen ++ [c])).
      { rewrite (groupStep_None sim sim_self);
          [|apply singletons_keyed|assumption].
        now rewrite singletons_app. }
      rewrite Es. apply push_singletons in E. rewrite E. simpl.
      specialize (IH (seen ++ [c])). rewrite <- app_assoc in IH. exact IH.
Qed.

End SingletonGroups.

Lemma refinedOf_singletons (codes : list Code) :
  flat_map refinedOf (singletons codes) = codes.
Proof.
  induction codes as [|c codes IH]; simpl; [reflexivity|].
  now rewrite IH.
Qed.

Lemma mergesOf_singletons (codes : list Code) :
  flat_map mergesOf (singletons codes) = [].
Proof.
  induction codes as [|c codes IH]; simpl; [reflexivity|].
  exact IH.
Qed.

Lemma mergesOf_large (groups : JsMap.t (list Code)) :
  hasLargeGroup groups -> flat_map mergesOf groups <> [].
Proof.
  induction 1 as [e groups He|e groups _ IH]; simpl.
  - unfold mergesOf at 1.
    apply Nat.ltb_lt in He. rewrite He. discriminate.
  - intros E. apply app_eq_nil in E. now apply IH.
Qed.

(** A run of [refineCodebook] merges nothing, and returns its input as it
    is, exactly on the codebooks in which no code is similar to an earlier
    one. *)
Lemma refineCodebook_fixpoint (codes : list Code) :
  (merges (CodingEngine.refineCodebook codes) = []
   /\ refined (CodingEngine.refineCodebook codes) = codes)
  <-> pairwiseDissimilar codes = true.
Proof.
  rewrite refineCodebook_merges, refineCodebook_refined.
  unfold pairwiseDissimilar, groupCodes.
  change (@JsMap.empty (list Code)) with (singletons []).
  destruct (fold_groupStep_cases _ coding_similar_self codes [])
    as [[Hd Hg]|[Hd Hg]].
  - rewrite Hg. cbn [app].
    rewrite mergesOf_singletons, refinedOf_singletons. tauto.
  - rewrite Hd. apply mergesOf_large in Hg.
    split; [intros [Hm _]; contradiction|discriminate].
Qed.

(** C3, as stated, fails: on [nestedNames] the first run merges the first
    two codes under the shorter name, which the third code is similar to,
    so the second run merges again. *)
Lemma refineCodebook_second_run_merges :
  map name (refined (CodingEngine.refineCodebook nestedNames))
    = ["coping-with-exam"; "coping-with"]
  /\ merges (CodingEngine.refineCodebook
               (refined (CodingEngine.refineCodebook nestedNames)))
     = [ {| from := ["coping-with"; "coping-with-exam"];
            to := "coping-with";
            reason := "Similar semantic meaning" |} ]
  /\ ~ (merges (CodingEngine.refineCodebook
                  (refined (CodingEngine.refineCodebook nestedNames))) = []
        /\ refined (CodingEngine.refineCodebook
                      (refined (CodingEngine.refineCodebook nestedNames)))
           = refined (CodingEngine.refineCodebook nestedNames)).
Proof.
  split; [vm_compute; reflexivity|].
  split; [vm_compute; reflexivity|].
  intros [H _]. vm_compute in H. discriminate H.
Qed.

(** C3, amended.  Running [refineCodebook] on the refined output of a run
    performs no merge and leaves the list unchanged if and only if no
    refined code is similar (word overlap above one half) to a refined code
    before it. *)
Theorem refineCodebook_rerun_characterised (codes : list Code) :
  (merges (CodingEngine.refineCodebook
             (refined (CodingEngine.refineCodebook codes))) = []
   /\ refined (CodingEngine.refineCodebook
                 (refined (CodingEngine.refineCodebook codes)))
      = refined (CodingEngine.refineCodebook codes))
  <-> pairwiseDissimilar (refined (CodingEngine.refineCodebook codes)) = true.
Proof. apply refineCodebook_fixpoint. Qed.

Lemma refineCodebook_rerun_on_dissimilarNames :
  pairwiseDissimilar (refined (CodingEngine.refineCodebook dissimilarNames))
  = true
  /\ merges (CodingEngine.refineCodebook
               (refined (CodingEngine.refineCodebook dissimilarNames))) = []
  /\ refined (CodingEngine.refineCodebook
                (refined (CodingEngine.refineCodebook dissimilarNames)))
     = refined (CodingEngine.refineCodebook dissimilarNames).
Proof.
  assert (H : pairwiseDissimilar
                (refined (CodingEngine.refineCodebook dissimilarNames))
              = true).
  { vm_compute. reflexivity. }
  split; [exact H|].
  exact (proj2 (refineCodebook_rerun_characterised dissimilarNames) H).
Defined.

(** ** Theme prevalence *)

Lemma theme_similar_self (c c' : Code) :
  name c = name c' -> ThemeEngine.codesAreSimilar c c' = true.
Proof.
  intros E. unfold ThemeEngine.codesAreSimilar. rewrite E.
  apply Qltb_true. rewrite similarity_self. reflexivity.
Qed.

(** C4.  On [deepSample], where every code has frequency 1, the deep
    inductive extraction returns one theme with one sub-theme.  The
    sub-theme has the supporting codes of its parent, which carry six of
    the seven units of frequency of the input, and its prevalence is 1: it
    is measured against the codes of the parent, not against the input. *)
Theorem subtheme_prevalence_not_of_input :
  Forall (fun c => (1 <= frequency c)%Z) deepSample
  /\ exists t s,
       ThemeEngine.extractThemes deepSample inductive deep = [t]
       /\ subThemes t = Some [s]
       /\ In s (withSubThemes
                  (ThemeEngine.extractThemes deepSample inductive deep))
       /\ supportingCodes s = supportingCodes t
       /\ (prevalence s == 1)%Q
       /\ (inject_Z (supportingFrequency s deepSample)
           / inject_Z (sum_by frequency deepSample) == 6 # 7)%Q
       /\ ~ (prevalence s
             == inject_Z (supportingFrequency s deepSample)
                / inject_Z (sum_by frequency deepSample))%Q.
Proof.
  split.
  - repeat constructor; vm_compute; discriminate.
  - eexists. eexists. split; [vm_compute; reflexivity|].
    split; [reflexivity|].
    split; [vm_compute; right; left; reflexivity|].
    vm_compute. repeat split; try reflexivity. discriminate.
Qed.

(** ** Saturation *)

Lemma saturation_fold_length (codesBySource : JsMap.t (list Code))
    (sources : list string) :
  forall state,
    List.length
      (fst (fold_left (ThemeEngine.saturationStep codesBySource) sources state))
    = List.length (fst state) + List.length sources.
Proof.
  induction sources as [|s sources IH]; intros [counts seen]; simpl.
  - lia.
  - rewrite IH. simpl. rewrite length_app. simpl. lia.
Qed.

Lemma lastThree_length {A : Type} (xs : list A) :
  xs <> [] -> 0 < List.length (ThemeEngine.lastThree xs).
Proof.
  intros H. unfold ThemeEngine.lastThree. rewrite length_skipn.
  destruct xs; [contradiction|]. cbn [List.length]. lia.
Qed.

Lemma fold_add_nonneg (xs : list nat) (a : nat) :
  (0 <= inject_Z (Z.of_nat (fold_left Nat.add xs a)))%Q.
Proof.
  change (inject_Z 0 <= inject_Z (Z.of_nat (fold_left Nat.add xs a)))%Q.
  rewrite <- Zle_Qle. lia.
Qed.

(** The rate computed from a non-empty list of counts is a number of the
    unit interval. *)
Lemma rate_in_unit (s n : Q) :
  (0 <= s)%Q -> (0 < n)%Q ->
  Number.in_unit_interval
    (Number.sub (Num 1)
       (Number.min (Number.div (Number.div (Num s) (Num n)) (Num 5)) (Num 1))).
Proof.
  intros Hs Hn. unfold Number.div at 2.
  assert (En : Qeq_bool n 0 = false).
  { destruct (Qeq_bool n 0) eqn:E; [|reflexivity].
    apply Qeq_bool_iff in E. rewrite E in Hn.
    now apply Qlt_irrefl in Hn. }
  rewrite En. unfold Number.div.
  change (Qeq_bool 5 0) with false. cbv iota.
  assert (Hq : (0 <= s / n / 5)%Q).
  { apply Qle_shift_div_l; [reflexivity|]. rewrite Qmult_0_l.
    apply Qle_shift_div_l; [assumption|]. now rewrite Qmult_0_l. }
  set (x := (s / n / 5)%Q) in *. clearbody x.
  unfold Number.min, Number.sub, Number.in_unit_interval.
  destruct (Qle_bool x 1) eqn:E.
  - apply Qle_bool_iff in E. split; lra.
  - split; lra.
Qed.

(** With at least one source the rate is a number between 0 and 1. *)
Lemma detectSaturation_rate_in_unit (level : Level)
    (codesBySource : JsMap.t (list Code)) :
  codesBySource <> [] ->
  Number.in_unit_interval
    (saturationRate (ThemeEngine.detectSaturation level codesBySource)).
Proof.
  intros Hne. unfold ThemeEngine.detectSaturation. cbn [saturationRate].
  set (counts := fst (fold_left _ _ _)).
  assert (Hc : counts <> []).
  { intros E. apply (f_equal (@List.length nat)) in E.
    unfold counts in E. rewrite saturation_fold_length in E.
    unfold JsMap.keys in E. rewrite length_map in E.
    destruct codesBySource; [contradiction|]. simpl in E. lia. }
  apply rate_in_unit.
  - apply fold_add_nonneg.
  - apply inject_Z_pos. pose proof (lastThree_length counts Hc). lia.
Qed.

(** C5.  On the empty map the list of counts is empty, the average is the
    quotient of zero by zero, and the rate is NaN: it lies in no interval,
    whatever the level. *)
Theorem detectSaturation_empty_map_rate (level : Level) :
  saturationRate (ThemeEngine.detectSaturation level JsMap.empty) = NaN
  /\ saturated (ThemeEngine.detectSaturation level JsMap.empty) = false
  /\ ~ Number.in_unit_interval
         (saturationRate (ThemeEngine.detectSaturation level JsMap.empty)).
Proof.
  split; [reflexivity|]. split; [reflexivity|]. intros H. exact H.
Qed.

Lemma of_entries_three {V : Type} (s1 s2 s3 : string) (v1 v2 v3 : V) :
  s1 <> s2 -> s1 <> s3 -> s2 <> s3 ->
  JsMap.of_entries [(s1, v1); (s2, v2); (s3, v3)]
  = [(s1, v1); (s2, v2); (s3, v3)].
Proof.
  intros H12 H13 H23. apply String.eqb_neq in H12, H13, H23.
  unfold JsMap.of_entries. simpl. rewrite H12. simpl.
  rewrite H13. simpl. now rewrite H23.
Qed.

Lemma counts_of_three (s1 s2 s3 : string) (v1 v2 v3 : list Code) :
  s1 <> s2 -> s1 <> s3 -> s2 <> s3 ->
  let m := [(s1, v1); (s2, v2); (s3, v3)] in
  fold_left (ThemeEngine.saturationStep m) (JsMap.keys m) ([], [])
  = ThemeEngine.saturationStep m
      (ThemeEngine.saturationStep m
         (ThemeEngine.saturationStep m ([], []) s1) s2) s3.
Proof. reflexivity. Qed.

Lemma get_three (s1 s2 s3 : string) (v1 v2 v3 : list Code) :
  s1 <> s2 -> s1 <> s3 -> s2 <> s3 ->
  let m := [(s1, v1); (s2, v2); (s3, v3)] in
  JsMap.get m s1 = Some v1 /\ JsMap.get m s2 = Some v2
  /\ JsMap.get m s3 = Some v3.
Proof.
  intros H12 H13 H23. apply String.eqb_neq in H12, H13, H23.
  simpl. rewrite !String.eqb_refl, H12, H13, H23. auto.
Qed.

(** C6.  Three sources, supplied in this order, whose codes are named
    {c1, c2}, {c1}, {c1} give the counts 2, 0, 0: the result is saturated
    and the rate exceeds 0.8.  Three sources whose codes are named c1, c2
    and c3, all different, give the counts 1, 1, 1: not saturated. *)
Theorem detectSaturation_repeated_and_disjoint_sources
    (level : Level) (s1 s2 s3 : string) (a b a' a'' x y z : Code) :
  s1 <> s2 -> s1 <> s3 -> s2 <> s3 ->
  name a <> name b -> name a' = name a -> name a'' = name a ->
  name x <> name y -> name x <> name z -> name y <> name z ->
  let repeated :=
    ThemeEngine.detectSaturation level
      (JsMap.of_entries [(s1, [a; b]); (s2, [a']); (s3, [a''])]) in
  let disjoint :=
    ThemeEngine.detectSaturation level
      (JsMap.of_entries [(s1, [x]); (s2, [y]); (s3, [z])]) in
  (newCodesPerSource repeated = [2; 0; 0]
   /\ saturated repeated = true
   /\ Number.gtb (saturationRate repeated) (Num (8 # 10)) = true)
  /\ (newCodesPerSource disjoint = [1; 1; 1]
      /\ saturated disjoint = false).
Proof.
  intros H12 H13 H23 Hab Ha' Ha'' Hxy Hxz Hyz repeated disjoint.
  assert (Hrep : newCodesPerSource repeated = [2; 0; 0]).
  { unfold repeated, ThemeEngine.detectSaturation. cbn [newCodesPerSource].
    rewrite of_entries_three by assumption.
    rewrite counts_of_three by assumption.
    destruct (get_three s1 s2 s3 [a; b] [a'] [a''] H12 H13 H23)
      as (G1 & G2 & G3).
    unfold ThemeEngine.saturationStep. rewrite G1, G2, G3.
    apply String.eqb_neq in Hab.
    assert (Hba : String.eqb (name b) (name a) = false).
    { now rewrite String.eqb_sym. }
    repeat (progress (cbn -[String.eqb];
                      rewrite ?Ha', ?Ha'', ?String.eqb_refl, ?Hba, ?Hab)).
    reflexivity. }
  assert (Hdis : newCodesPerSource disjoint = [1; 1; 1]).
  { unfold disjoint, ThemeEngine.detectSaturation. cbn [newCodesPerSource].
    rewrite of_entries_three by assumption.
    rewrite counts_of_three by assumption.
    destruct (get_three s1 s2 s3 [x] [y] [z] H12 H13 H23) as (G1 & G2 & G3).
    unfold ThemeEngine.saturationStep. rewrite G1, G2, G3.
    apply String.eqb_neq in Hxy, Hxz, Hyz.
    assert (Hyx : String.eqb (name y) (name x) = false).
    { now rewrite String.eqb_sym. }
    assert (Hzx : String.eqb (name z) (name x) = false).
    { now rewrite String.eqb_sym. }
    assert (Hzy : String.eqb (name z) (name y) = false).
    { now rewrite String.eqb_sym. }
    repeat (progress (cbn -[String.eqb]; rewrite ?Hyx, ?Hzx, ?Hzy)).
    reflexivity. }
  unfold repeated, disjoint, ThemeEngine.detectSaturation in *.
  cbn [newCodesPerSource saturated saturationRate] in *.
  rewrite Hrep, Hdis. repeat split.
Qed.

Lemma detectSaturation_on_test_sources :
  (newCodesPerSource
     (ThemeEngine.detectSaturation code_level
        (JsMap.of_entries
           [("source1", [sampleCode "code1" 1; sampleCode "code2" 1]);
            ("source2", [sampleCode "code1" 1]);
            ("source3", [sampleCode "code1" 1])])) = [2; 0; 0]
   /\ saturated
        (ThemeEngine.detectSaturation code_level
           (JsMap.of_entries
              [("source1", [sampleCode "code1" 1; sampleCode "code2" 1]);
               ("source2", [sampleCode "code1" 1]);
               ("source3", [sampleCode "code1" 1])])) = true
   /\ Number.gtb
        (saturationRate
           (ThemeEngine.detectSaturation code_level
              (JsMap.of_entries
                 [("source1", [sampleCode "code1" 1; sampleCode "code2" 1]);
                  ("source2", [sampleCode "code1" 1]);
                  ("source3", [sampleCode "code1" 1])])))
        (Num (8 # 10)) = true)
  /\ (newCodesPerSource
        (ThemeEngine.detectSaturation code_level
           (JsMap.of_entries
              [("source1", [sampleCode "code1" 1]);
               ("source2", [sampleCode "code2" 1]);
               ("source3", [sampleCode "code3" 1])])) = [1; 1; 1]
      /\ saturated
           (ThemeEngine.detectSaturation code_level
              (JsMap.of_entries
                 [("source1", [sampleCode "code1" 1]);
                  ("source2", [sampleCode "code2" 1]);
                  ("source3", [sampleCode "code3" 1])])) = false).
Proof.
  apply (detectSaturation_repeated_and_disjoint_sources
           code_level "source1" "source2" "source3"
           (sampleCode "code1" 1) (sampleCode "code2" 1)
           (sampleCode "code1" 1) (sampleCode "code1" 1)
           (sampleCode "code1" 1) (sampleCode "code2" 1)
           (sampleCode "code3" 1));
    simpl; solve [discriminate | reflexivity].
Defined.

(** ** Negative cases *)

Lemma filter_length_implies {A : Type} (p q : A -> bool) (l : list A) :
  (forall x, p x = true -> q x = true) ->
  List.length (filter p l) <= List.length (filter q l).
Proof.
  intros Hpq. induction l as [|x l IH]; simpl.
  - lia.
  - destruct (p x) eqn:Ep.
    + rewrite (Hpq x Ep). simpl. lia.
    + destruct (q x); simpl; lia.
Qed.

Lemma filter_all {A : Type} (l : list A) : filter (fun _ => true) l = l.
Proof. induction l as [|x l IH]; simpl; congruence. Qed.

(** C8.  On the same theme and codes, the weak threshold returns every
    detected case, the moderate threshold the detected cases whose strength
    is not weak, the strong threshold the detected cases whose strength is
    strong; so the counts do not increase from weak to moderate to strong. *)
Theorem findNegativeCases_threshold_monotone
    (theme : Theme) (allCodes : list Code) :
  let detected := ThemeEngine.detectedCases theme allCodes in
  let found threshold :=
    negativeCases (ThemeEngine.findNegativeCases theme allCodes threshold) in
  found weak = detected
  /\ found moderate
     = filter (fun nc => negb (ThemeEngine.strength_eqb (strength nc) weak))
              detected
  /\ found strong
     = filter (fun nc => ThemeEngine.strength_eqb (strength nc) strong)
              detected
  /\ List.length (found strong) <= List.length (found moderate)
  /\ List.length (found moderate) <= List.length (found weak).
Proof.
  intros detected found. unfold found, ThemeEngine.findNegativeCases.
  cbn [negativeCases]. fold detected.
  split; [apply filter_all|]. split; [reflexivity|]. split; [reflexivity|].
  split.
  - apply filter_length_implies. intros nc. unfold ThemeEngine.keptBy.
    now destruct (strength nc).
  - apply filter_length_implies. intros nc _. reflexivity.
Qed.

(** ** Deductive matching *)

(** On a name that is already in lower case the deductive match is
    insensitive to case in name and definition alike. *)
Lemma matchesFramework_lowercase_name (framework : Framework) (code : Code) :
  JsString.toLowerCase (name code) = name code ->
  ThemeEngine.matchesFramework framework code
  = existsb
      (fun keyword =>
         JsString.includes (JsString.toLowerCase (name code)) keyword
         || JsString.includes (JsString.toLowerCase (definition code)) keyword)
      (keywords framework).
Proof.
  intros E. unfold ThemeEngine.matchesFramework. now rewrite E.
Qed.

(** C10.  The keyword [challenge] occurs, up to letter case, in the name of
    this code, yet the deductive extraction does not match it: the name is
    compared as it is, only the definition is lowered. *)
Theorem deductive_name_match_is_case_sensitive :
  let code := sampleCode "Challenge-at-work" 1 in
  JsString.includes (JsString.toLowerCase (name code)) "challenge" = true
  /\ ThemeEngine.matchesFramework
       (mkFramework "Challenges and Barriers"
          ["difficult"; "challenge"; "problem"; "barrier"; "obstacle"; "struggle"])
       code = false
  /\ ThemeEngine.extractThemes [code] deductive medium = []
  /\ map theme_name
         (ThemeEngine.extractThemes
            [sampleCode "challenge-at-work" 1] deductive medium)
     = ["Challenges and Barriers"]
  /\ map theme_name
         (ThemeEngine.extractThemes
            [ {| name := "at-work"; definition := "A CHALLENGE";
                 examples := []; frequency := 1; type := constructed |} ]
            deductive medium)
     = ["Challenges and Barriers"].
Proof. vm_compute. repeat split. Qed.
(** ** In-vivo codes from quoted phrases *)



(** ** Grounded theory *)

Lemma set_entries {V : Type} (m : JsMap.t V) (k : string) (v : V) :
  forall e, In e (JsMap.set m k v) -> In e m \/ e = (k, v).
Proof.
  induction m as [|[k0 v0] m IH]; simpl; intros e H.
  - destruct H as [<-|[]]. now right.
  - destruct (String.eqb k0 k) eqn:E; simpl in H.
    + apply String.eqb_eq in E. subst k0.
      destruct H as [<-|H]; [now right|now left; right].
    + destruct H as [<-|H]; [now left; left|].
      destruct (IH _ H) as [?|?]; [now left; right|now right].
Qed.

Lemma count_nonneg (l : list string) : (0 <= TheoryEngine.count l)%Q.
Proof.
  unfold TheoryEngine.count.
  change (inject_Z 0 <= inject_Z (Z.of_nat (List.length l)))%Q.
  rewrite <- Zle_Qle. lia.
Qed.

Lemma count_pos (l : list string) : l <> [] -> (1 <= TheoryEngine.count l)%Q.
Proof.
  intros H. unfold TheoryEngine.count.
  change (inject_Z 1 <= inject_Z (Z.of_nat (List.length l)))%Q.
  rewrite <- Zle_Qle. destruct l; [contradiction|]. simpl List.length. lia.
Qed.

Lemma categoryScore_ge_codes (axialResults : list AxialCodingResult)
    (category : Category) :
  (TheoryEngine.count (relatedCodes category)
   <= TheoryEngine.categoryScore axialResults category)%Q.
Proof.
  unfold TheoryEngine.categoryScore.
  destruct (TheoryEngine.findAxial axialResults (cat_name category))
    as [ax|]; [|apply Qle_refl].
  pose proof (count_nonneg (causalConditions ax)).
  pose proof (count_nonneg (consequences ax)).
  pose proof (count_nonneg (actionStrategies ax)).
  pose proof (count_nonneg (context ax)).
  pose proof (count_nonneg (interveningConditions ax)).
  lra.
Qed.

(** Every entry of the score map is the score of a category of the list. *)
Lemma categoryScores_entries (axialResults : list AxialCodingResult)
    (categories : list Category) :
  forall e,
    In e (TheoryEngine.categoryScores categories axialResults) ->
    exists c, In c categories
              /\ fst e = cat_name c
              /\ snd e = TheoryEngine.categoryScore axialResults c.
Proof.
  unfold TheoryEngine.categoryScores.
  assert (G : forall cs (m : JsMap.t Q) e,
             In e (fold_left
                     (fun scores category =>
                        JsMap.set scores (cat_name category)
                          (TheoryEngine.categoryScore axialResults category))
                     cs m) ->
             In e m
             \/ exists c, In c cs /\ fst e = cat_name c
                          /\ snd e = TheoryEngine.categoryScore axialResults c).
  { induction cs as [|c cs IH]; simpl; intros m e H.
    - now left.
    - destruct (IH _ _ H) as [H'|(c' & Hc' & E1 & E2)].
      + apply set_entries in H'. destruct H' as [H'| ->]; [now left|].
        right. exists c. auto.
      + right. exists c'. auto. }
  intros e H. destruct (G _ _ _ H) as [[]|H']. exact H'.
Qed.

Lemma categoryScores_not_nil (axialResults : list AxialCodingResult)
    (categories : list Category) :
  categories <> [] ->
  TheoryEngine.categoryScores categories axialResults <> [].
Proof.
  unfold TheoryEngine.categoryScores.
  assert (G : forall cs (m : JsMap.t Q),
             m <> [] ->
             fold_left
               (fun scores category =>
                  JsMap.set scores (cat_name category)
                    (TheoryEngine.categoryScore axialResults category))
               cs m <> []).
  { induction cs as [|c cs IH]; simpl; intros m Hm; [assumption|].
    apply IH. apply set_not_nil. }
  destruct categories as [|c cs]; [contradiction|]. intros _. simpl.
  apply G. discriminate.
Qed.

Lemma fold_Qplus_bound (l : list Q) :
  Forall (fun x => (0 <= x)%Q) l ->
  forall a x, (0 <= a)%Q -> In x l ->
    (a <= fold_left Qplus l a)%Q /\ (x <= fold_left Qplus l a)%Q.
Proof.
  induction 1 as [|y l Hy Hl IH]; intros a x Ha Hin; [contradiction|].
  simpl. assert (Hay : (0 <= a + y)%Q) by lra.
  destruct Hin as [->|Hin].
  - destruct l as [|z l].
    + simpl. split; lra.
    + destruct (IH (a + x)%Q z Hay (or_introl eq_refl)) as [H1 _].
      split; lra.
  - destruct (IH (a + y)%Q x Hay Hin) as [H1 H2]. split; lra.
Qed.

Lemma find_name_some (categories : list Category) (c : Category) :
  In c categories ->
  exists c', find (fun c0 => String.eqb (cat_name c0) (cat_name c)) categories
             = Some c'.
Proof.
  induction categories as [|c0 cs IH]; intros Hin; [contradiction|].
  simpl. destruct (String.eqb (cat_name c0) (cat_name c)) eqn:E.
  - now exists c0.
  - destruct Hin as [->|Hin].
    + now rewrite String.eqb_refl in E.
    + now apply IH.
Qed.

Lemma identifyCategories_codes (codes : list Code) (paradigm : Paradigm) :
  Forall (fun c => relatedCodes c <> [])
         (TheoryEngine.identifyCategories codes paradigm).
Proof.
  apply Forall_forall. intros c Hc.
  unfold TheoryEngine.identifyCategories in Hc.
  apply in_flat_map in Hc. destruct Hc as ([k g] & _ & Hc).
  destruct (List.length g <? 1) eqn:E; [contradiction|].
  destruct Hc as [<-|[]]. cbn [relatedCodes].
  apply Nat.ltb_ge in E. destruct g; [simpl in E; lia|discriminate].
Qed.

Lemma identifyCoreCategory_none (axialResults : list AxialCodingResult)
    (researchQuestion : string) :
  TheoryEngine.identifyCoreCategory [] axialResults researchQuestion
  = inl TheoryEngine.noCategoriesError.
Proof. reflexivity. Qed.

(** With at least one category, each holding a code, selective coding
    finds a core category among the categories, with centrality in (0,1]. *)
Lemma identifyCoreCategory_some (categories : list Category)
    (axialResults : list AxialCodingResult) (researchQuestion : string) :
  categories <> [] ->
  Forall (fun c => relatedCodes c <> []) categories ->
  exists core,
    TheoryEngine.identifyCoreCategory categories axialResults researchQuestion
    = inr core
    /\ In (core_name core) (map cat_name categories)
    /\ (0 < centrality core <= 1)%Q.
Proof.
  intros Hne Hcodes. unfold TheoryEngine.identifyCoreCategory.
  set (scores := TheoryEngine.categoryScores categories axialResults).
  assert (Hscores : forall e, In e scores ->
            In (fst e) (map cat_name categories) /\ (1 <= snd e)%Q).
  { intros e He.
    destruct (categoryScores_entries _ _ _ He) as (c & Hc & E1 & E2).
    split.
    - rewrite E1. now apply in_map.
    - rewrite E2. rewrite Forall_forall in Hcodes.
      pose proof (count_pos _ (Hcodes c Hc)).
      pose proof (categoryScore_ge_codes axialResults c). lra. }
  destruct (TheoryEngine.sortByScore (JsMap.entries scores))
    as [|[coreName coreScore] rest] eqn:Es.
  - apply js_sort_nil_inv in Es.
    now apply (categoryScores_not_nil axialResults) in Hne.
  - assert (Hin : In (coreName, coreScore) scores).
    { unfold TheoryEngine.sortByScore in Es.
      pose proof (js_sort_perm (fun a b : string * Q => Qltb (snd a) (snd b))
                               (JsMap.entries scores)) as Hp.
      rewrite Es in Hp. apply (Permutation_in _ Hp). now left. }
    destruct (Hscores _ Hin) as [Hname Hscore]. simpl in Hname, Hscore.
    apply in_map_iff in Hname. destruct Hname as (c & Ec & Hc).
    destruct (find_name_some categories c Hc) as (c' & Hfind).
    rewrite Ec in Hfind. rewrite Hfind.
    eexists. split; [reflexivity|]. cbn [core_name centrality].
    split; [rewrite <- Ec; now apply in_map|].
    set (total := fold_left Qplus (JsMap.values scores) (0 : Q)).
    assert (Hvals : Forall (fun x => (0 <= x)%Q) (JsMap.values scores)).
    { apply Forall_forall. intros x Hx. apply in_map_iff in Hx.
      destruct Hx as (e & <- & He). destruct (Hscores e He). lra. }
    assert (Hcore : In coreScore (JsMap.values scores)).
    { apply in_map_iff. now exists (coreName, coreScore). }
    destruct (fold_Qplus_bound _ Hvals 0 coreScore (Qle_refl 0) Hcore)
      as [_ Hle].
    fold total in Hle.
    assert (Hpos : (0 < total)%Q) by lra.
    rewrite (proj2 (Qltb_true 0 total) Hpos). split.
    + apply Qlt_shift_div_l; [assumption|]. lra.
    + apply Qle_shift_div_r; [assumption|]. lra.
Qed.

Lemma capped_bounds (n k : nat) :
  (0 <= TheoryEngine.capped n k <= 20)%Q.
Proof.
  unfold TheoryEngine.capped. split.
  - change (inject_Z 0 <= inject_Z (Z.of_nat (Nat.min (n * k) 20)))%Q.
    rewrite <- Zle_Qle. lia.
  - change (inject_Z (Z.of_nat (Nat.min (n * k) 20)) <= inject_Z 20)%Q.
    rewrite <- Zle_Qle. lia.
Qed.

Lemma completeness_in_unit (core : CoreCategory) (categories : list Category)
    (axialResults : list AxialCodingResult) :
  (0 <= centrality core)%Q ->
  (0 <= TheoryEngine.assessTheoryCompleteness core categories axialResults
   <= 1)%Q.
Proof.
  intros Hc. unfold TheoryEngine.assessTheoryCompleteness. split.
  - apply Q.min_glb; [|lra].
    pose proof (capped_bounds (List.length categories) 4).
    pose proof (capped_bounds (List.length (relationships core)) 5).
    pose proof (capped_bounds (List.length axialResults) 4).
    apply Qle_shift_div_l; [reflexivity|]. lra.
  - apply Q.le_min_r.
Qed.

(** C1.  [buildGroundedTheory] fails with the error [No categories found]
    exactly when open coding produces no category, it fails in no other
    way, and whenever open coding produces a category it returns a
    well-formed result built on these categories. *)
Theorem buildGroundedTheory_no_categories_exactly
    (codes : list Code) (themes : option (list Theme))
    (researchQuestion : string) (paradigm : Paradigm) :
  (TheoryEngine.buildGroundedTheory codes themes researchQuestion paradigm
   = inl TheoryEngine.noCategoriesError
   <-> TheoryEngine.identifyCategories codes paradigm = [])
  /\ (TheoryEngine.identifyCategories codes paradigm <> [] ->
      exists r,
        TheoryEngine.buildGroundedTheory codes themes researchQuestion paradigm
        = inr r
        /\ supportingCategories r
           = TheoryEngine.identifyCategories codes paradigm
        /\ wellFormed r).
Proof.
  unfold TheoryEngine.buildGroundedTheory.
  set (categories := TheoryEngine.identifyCategories codes paradigm).
  set (axialResults := TheoryEngine.performAxialCoding categories codes).
  assert (Hsome : categories <> [] ->
            exists r,
              match TheoryEngine.identifyCoreCategory categories axialResults
                      researchQuestion with
              | inl e => inl e
              | inr coreCategory =>
                  inr (TheoryEngine.integrateTheory coreCategory categories
                         axialResults researchQuestion paradigm)
              end = inr r
              /\ supportingCategories r = categories /\ wellFormed r).
  { intros Hne.
    pose proof (identifyCategories_codes codes paradigm) as Hcodes.
    fold categories in Hcodes.
    destruct (identifyCoreCategory_some categories axialResults
                researchQuestion Hne Hcodes) as (core & -> & Hin & Hcent).
    eexists. split; [reflexivity|]. split; [reflexivity|].
    unfold wellFormed, TheoryEngine.integrateTheory.
    cbn [stage supportingCategories coreCategory completeness recommendations].
    repeat split; try assumption; try apply Hcent.
    - apply completeness_in_unit. destruct Hcent. lra.
    - apply completeness_in_unit. destruct Hcent. lra.
    - unfold TheoryEngine.generateRecommendations. discriminate. }
  split; [|exact Hsome]. split.
  - intros H. destruct categories as [|c cs] eqn:E; [reflexivity|].
    destruct Hsome as (r & Hr & _); [discriminate|]. congruence.
  - intros ->. reflexivity.
Qed.

Lemma buildGroundedTheory_minimalCode :
  TheoryEngine.identifyCategories [minimalCode] constructivist <> []
  /\ exists r,
       TheoryEngine.buildGroundedTheory [minimalCode] None "Test?"
                                        constructivist = inr r
       /\ supportingCategories r
          = TheoryEngine.identifyCategories [minimalCode] constructivist
       /\ wellFormed r.
Proof.
  assert (H : TheoryEngine.identifyCategories [minimalCode] constructivist
              <> []).
  { vm_compute. discriminate. }
  split; [exact H|].
  exact (proj2 (buildGroundedTheory_no_categories_exactly
                  [minimalCode] None "Test?" constructivist) H).
Defined.

(** ** Open coding yields a category as soon as there is a code *)

Lemma set_set {V : Type} (m : JsMap.t V) (k : string) (v1 v2 : V) :
  JsMap.set (JsMap.set m k v1) k v2 = JsMap.set m k v2.
Proof.
  induction m as [|[k0 v0] m IH]; simpl.
  - now rewrite String.eqb_refl.
  - destruct (String.eqb k0 k) eqn:E; simpl; rewrite E; [reflexivity|].
    now rewrite IH.
Qed.

Lemma get_in {V : Type} (m : JsMap.t V) (k : string) (v : V) :
  JsMap.get m k = Some v -> In (k, v) m.
Proof.
  induction m as [|[k0 v0] m IH]; simpl; [discriminate|].
  destruct (String.eqb k0 k) eqn:E.
  - apply String.eqb_eq in E. intros H. inversion H; subst. now left.
  - intros H. right. now apply IH.
Qed.

Lemma get_key {V : Type} (m : JsMap.t V) (k : string) :
  In k (JsMap.keys m) -> exists v, JsMap.get m k = Some v.
Proof.
  unfold JsMap.keys.
  induction m as [|[k0 v0] m IH]; simpl; [contradiction|].
  destruct (String.eqb k0 k) eqn:E.
  - intros _. now exists v0.
  - intros [H|H]; [|now apply IH].
    subst. now rewrite String.eqb_refl in E.
Qed.

Lemma categoryStep_set (groups : JsMap.t (list Code)) (code : Code) :
  exists codes,
    TheoryEngine.categoryStep groups code
    = JsMap.set groups (TheoryEngine.inferCategoryName code) (codes ++ [code]).
Proof.
  unfold TheoryEngine.categoryStep.
  destruct (JsMap.has groups (TheoryEngine.inferCategoryName code)).
  - eexists. reflexivity.
  - eexists. rewrite set_set. reflexivity.
Qed.

Lemma set_allNonEmpty (groups : JsMap.t (list Code)) (k : string)
    (codes : list Code) :
  allNonEmpty groups -> codes <> [] -> allNonEmpty (JsMap.set groups k codes).
Proof.
  unfold allNonEmpty. rewrite !Forall_forall. intros Hg Hc e He.
  apply set_entries in He. destruct He as [He| ->]; [now apply Hg|exact Hc].
Qed.

Lemma fold_categoryStep (codes : list Code) :
  forall groups,
    allNonEmpty groups ->
    allNonEmpty (fold_left TheoryEngine.categoryStep codes groups)
    /\ (groups <> [] \/ codes <> [] ->
        fold_left TheoryEngine.categoryStep codes groups <> []).
Proof.
  induction codes as [|c codes IH]; intros groups Hg; simpl.
  - split; [assumption|]. intros [H|H]; [assumption|contradiction].
  - destruct (categoryStep_set groups c) as (cs & E).
    assert (Hs : allNonEmpty (TheoryEngine.categoryStep groups c)).
    { rewrite E. apply set_allNonEmpty; [assumption|].
      destruct cs; discriminate. }
    destruct (IH _ Hs) as [H1 H2]. split; [assumption|].
    intros _. apply H2. left. rewrite E. apply set_not_nil.
Qed.

Lemma pushToSimilarCategory_nonEmpty (category : string) (codes : list Code)
    (merged merged' : JsMap.t (list Code)) :
  allNonEmpty merged ->
  TheoryEngine.pushToSimilarCategory category codes merged = Some merged' ->
  allNonEmpty merged' /\ merged' <> [].
Proof.
  revert merged'.
  induction merged as [|[k g] merged IH]; simpl; intros merged' Hm H.
  - discriminate.
  - inversion Hm as [|? ? Hg Hrest]; subst. simpl in Hg.
    destruct (TheoryEngine.categoriesAreSimilar category k).
    + inversion H; subst. split; [|discriminate].
      constructor; [|assumption]. simpl. destruct g; [contradiction|discriminate].
    + destruct (TheoryEngine.pushToSimilarCategory category codes merged)
        as [m|]; [|discriminate].
      inversion H; subst. split; [|discriminate].
      constructor; [assumption|]. now apply (IH m).
Qed.

Lemma fold_mergeCategoryStep (groups : JsMap.t (list Code))
    (categories : list string) :
  (forall k, In k categories -> TheoryEngine.getCodes groups k <> []) ->
  forall merged,
    allNonEmpty merged ->
    allNonEmpty
      (fold_left (TheoryEngine.mergeCategoryStep groups) categories merged)
    /\ (merged <> [] \/ categories <> [] ->
        fold_left (TheoryEngine.mergeCategoryStep groups) categories merged
        <> []).
Proof.
  induction categories as [|k ks IH]; intros Hk merged Hm; simpl.
  - split; [assumption|]. intros [H|H]; [assumption|contradiction].
  - assert (Hstep : allNonEmpty (TheoryEngine.mergeCategoryStep groups merged k)
                    /\ TheoryEngine.mergeCategoryStep groups merged k <> []).
    { unfold TheoryEngine.mergeCategoryStep.
      destruct (TheoryEngine.pushToSimilarCategory k
                  (TheoryEngine.getCodes groups k) merged) as [m|] eqn:E.
      - now apply (pushToSimilarCategory_nonEmpty _ _ _ _ Hm E).
      - split; [|apply set_not_nil].
        apply set_allNonEmpty; [assumption|]. apply Hk. now left. }
    destruct Hstep as [Hs Hn].
    destruct (IH (fun k' H => Hk k' (or_intror H)) _ Hs) as [H1 H2].
    split; [assumption|]. intros _. apply H2. now left.
Qed.

Lemma groupCodesIntoCategories_nonEmpty (codes : list Code) :
  allNonEmpty (TheoryEngine.groupCodesIntoCategories codes)
  /\ (codes <> [] -> TheoryEngine.groupCodesIntoCategories codes <> []).
Proof.
  unfold TheoryEngine.groupCodesIntoCategories,
    TheoryEngine.mergeSimilarCategories.
  destruct (fold_categoryStep codes JsMap.empty (Forall_nil _)) as [Hg Hn].
  set (groups := fold_left TheoryEngine.categoryStep codes JsMap.empty) in *.
  assert (Hk : forall k, In k (JsMap.keys groups) ->
                         TheoryEngine.getCodes groups k <> []).
  { intros k Hin. unfold TheoryEngine.getCodes.
    destruct (get_key groups k Hin) as (v & E). rewrite E.
    apply get_in in E. unfold allNonEmpty in Hg.
    rewrite Forall_forall in Hg. exact (Hg _ E). }
  destruct (fold_mergeCategoryStep groups (JsMap.keys groups) Hk JsMap.empty
              (Forall_nil _)) as [H1 H2].
  split; [assumption|]. intros Hc. apply H2. right.
  specialize (Hn (or_intror Hc)). unfold JsMap.keys.
  destruct groups; [contradiction|discriminate].
Qed.

(** Open coding yields no category only for the empty list of codes. *)
Lemma identifyCategories_nil_iff (codes : list Code) (paradigm : Paradigm) :
  TheoryEngine.identifyCategories codes paradigm = [] <-> codes = [].
Proof.
  split; [|intros ->; reflexivity].
  intros H. destruct codes as [|c codes]; [reflexivity|]. exfalso.
  destruct (groupCodesIntoCategories_nonEmpty (c :: codes)) as [Hall Hne].
  specialize (Hne ltac:(discriminate)).
  unfold TheoryEngine.identifyCategories, JsMap.entries in H.
  destruct (TheoryEngine.groupCodesIntoCategories (c :: codes))
    as [|[k g] rest]; [contradiction|].
  inversion Hall as [|? ? Hg _]; subst. simpl in Hg.
  destruct g as [|c0 g]; [contradiction|]. simpl in H. discriminate H.
Qed.

(** ** A single code *)

Lemma groupCodesIntoCategories_single (c : Code) :
  TheoryEngine.groupCodesIntoCategories [c]
  = [(TheoryEngine.inferCategoryName c, [c])].
Proof.
  unfold TheoryEngine.groupCodesIntoCategories,
    TheoryEngine.mergeSimilarCategories.
  cbn [fold_left]. unfold TheoryEngine.categoryStep.
  set (cn := TheoryEngine.inferCategoryName c).
  cbn -[String.eqb]. unfold TheoryEngine.getCodes.
  cbn -[String.eqb]. rewrite !String.eqb_refl.
  cbn -[String.eqb]. unfold TheoryEngine.mergeCategoryStep.
  cbn -[String.eqb]. unfold TheoryEngine.getCodes.
  cbn -[String.eqb]. rewrite !String.eqb_refl. reflexivity.
Qed.

Lemma identifyCategories_single (c : Code) (paradigm : Paradigm) :
  exists cat,
    TheoryEngine.identifyCategories [c] paradigm = [cat]
    /\ cat_name cat = TheoryEngine.inferCategoryName c
    /\ relatedCodes cat = [name c].
Proof.
  unfold TheoryEngine.identifyCategories, JsMap.entries.
  rewrite groupCodesIntoCategories_single. cbn [flat_map List.length Nat.ltb].
  eexists. split; [reflexivity|]. split; reflexivity.
Qed.

Lemma performAxialCoding_single (cat : Category) (codes : list Code) :
  exists ax,
    TheoryEngine.performAxialCoding [cat] codes = [ax]
    /\ phenomenon ax = cat_name cat.
Proof. eexists. split; reflexivity. Qed.

(** The only category is the core, with centrality 1. *)
Lemma identifyCoreCategory_single (cat : Category) (ax : AxialCodingResult)
    (researchQuestion : string) :
  relatedCodes cat <> [] ->
  phenomenon ax = cat_name cat ->
  exists core,
    TheoryEngine.identifyCoreCategory [cat] [ax] researchQuestion = inr core
    /\ (centrality core == 1)%Q.
Proof.
  intros Hcodes Hph. unfold TheoryEngine.identifyCoreCategory.
  set (score := TheoryEngine.categoryScore [ax] cat).
  assert (Hscore : (1 <= score)%Q).
  { pose proof (count_pos _ Hcodes).
    pose proof (categoryScore_ge_codes [ax] cat). unfold score. lra. }
  change (TheoryEngine.categoryScores [cat] [ax])
    with [(cat_name cat, score)].
  cbn -[String.eqb Qplus Qdiv Qltb].
  rewrite String.eqb_refl.
  assert (Hpos : Qltb 0 (0 + score) = true) by (apply Qltb_true; lra).
  rewrite Hpos. eexists. split; [reflexivity|].
  cbn [centrality]. field. lra.
Qed.

Lemma capped_relationships (n : nat) :
  (n < 3 -> (TheoryEngine.capped n 5 <= 10)%Q)
  /\ (3 <= n -> (15 <= TheoryEngine.capped n 5)%Q).
Proof.
  unfold TheoryEngine.capped. split; intros H.
  - change (inject_Z (Z.of_nat (Nat.min (n * 5) 20)) <= inject_Z 10)%Q.
    rewrite <- Zle_Qle. lia.
  - change (inject_Z 15 <= inject_Z (Z.of_nat (Nat.min (n * 5) 20)))%Q.
    rewrite <- Zle_Qle. lia.
Qed.

Lemma completeness_single (core : CoreCategory) (cat : Category)
    (ax : AxialCodingResult) :
  (centrality core == 1)%Q ->
  (TheoryEngine.assessTheoryCompleteness core [cat] [ax]
   == (48 + TheoryEngine.capped (List.length (relationships core)) 5) / 100)%Q.
Proof.
  intros Hc. unfold TheoryEngine.assessTheoryCompleteness.
  set (x := TheoryEngine.capped (List.length (relationships core)) 5).
  pose proof (capped_bounds (List.length (relationships core)) 5) as Hx.
  fold x in Hx. cbn [List.length].
  change (TheoryEngine.capped 1 4) with (4 : Q).
  rewrite Hc. rewrite Q.min_l.
  - field.
  - apply Qle_shift_div_r; [reflexivity|]. lra.
Qed.

Lemma first_recommendation (completeness : Q) (core : CoreCategory)
    (categories : list Category) :
  hd_error (TheoryEngine.generateRecommendations completeness core categories)
  = Some (if Qltb completeness (6 # 10) then incompleteAdvice
          else if Qltb completeness (8 # 10) then developingAdvice
          else "Theory is well-developed and ready for validation and refinement.").
Proof.
  unfold TheoryEngine.generateRecommendations. cbn [app hd_error].
  destruct (Qltb completeness (6 # 10)); [reflexivity|].
  destruct (Qltb completeness (8 # 10)); reflexivity.
Qed.

(** For every single code of frequency 1, [buildGroundedTheory] returns a
    result whose completeness is (48 + min(5 n, 20)) / 100, where n is the
    number of relationships of the core category.  When n is below 3,
    completeness is strictly below 0.6 and the first recommendation is the
    advice to continue data collection, which matches the
    incomplete/continue/more pattern.  When n is 3 or more, completeness is
    at least 0.63 and the first recommendation is the one of a developing
    theory. *)
Lemma single_code_completeness
    (c : Code) (themes : option (list Theme)) (researchQuestion : string)
    (paradigm : Paradigm) :
  exists r,
    TheoryEngine.buildGroundedTheory [c] themes researchQuestion paradigm
    = inr r
    /\ (completeness r
        == (48 + TheoryEngine.capped
                   (List.length (relationships (coreCategory r))) 5) / 100)%Q
    /\ (List.length (relationships (coreCategory r)) < 3 ->
        (completeness r < 6 # 10)%Q
        /\ hd_error (recommendations r) = Some incompleteAdvice
        /\ matchesIncomplete incompleteAdvice = true)
    /\ (3 <= List.length (relationships (coreCategory r)) ->
        (63 # 100 <= completeness r)%Q
        /\ hd_error (recommendations r) = Some developingAdvice).
Proof.
  unfold TheoryEngine.buildGroundedTheory.
  destruct (identifyCategories_single c paradigm) as (cat & -> & _ & Hrel).
  destruct (performAxialCoding_single cat [c]) as (ax & -> & Hph).
  assert (Hcodes : relatedCodes cat <> []) by (rewrite Hrel; discriminate).
  destruct (identifyCoreCategory_single cat ax researchQuestion Hcodes Hph)
    as (core & -> & Hcent).
  eexists. split; [reflexivity|].
  unfold TheoryEngine.integrateTheory.
  cbn [completeness recommendations coreCategory].
  pose proof (completeness_single core cat ax Hcent) as Hcomp.
  set (comp := TheoryEngine.assessTheoryCompleteness core [cat] [ax]) in *.
  set (n := List.length (relationships core)) in *.
  destruct (capped_relationships n) as [Hlow Hhigh].
  pose proof (capped_bounds n 5) as Hcap.
  set (x := TheoryEngine.capped n 5) in *. clearbody x comp.
  rewrite first_recommendation.
  assert (Hcomp' : (comp * 100 == 48 + x)%Q) by (rewrite Hcomp; field).
  split; [exact Hcomp|]. split.
  - intros Hn. specialize (Hlow Hn).
    assert (Hlt : (comp < 6 # 10)%Q) by lra.
    rewrite (proj2 (Qltb_true _ _) Hlt). repeat split. exact Hlt.
  - intros Hn. specialize (Hhigh Hn).
    assert (Hge : (6 # 10 <= comp)%Q) by lra.
    assert (Hlt : (comp < 8 # 10)%Q) by lra.
    rewrite (proj2 (Qltb_false _ _) Hge), (proj2 (Qltb_true _ _) Hlt).
    split; [lra|reflexivity].
Qed.

(** The input of the test "should handle minimal input gracefully": the
    completeness is 0.48, as the test expects. *)
Example minimalCode_completeness :
  match TheoryEngine.buildGroundedTheory [minimalCode] None "Test?"
                                         constructivist with
  | inr r => Qred (completeness r) = 12 # 25
             /\ hd_error (recommendations r) = Some incompleteAdvice
  | inl _ => False
  end.
Proof. vm_compute. split; reflexivity. Qed.

(** C7.  The single code [causedCode], of frequency 1, falls into the
    category of processes, the only category and so the core.  Its
    definition reads as a cause and as an outcome, which gives the core two
    relationships with the code; and the core is listed as an action
    strategy of itself, since [identifyActionStrategies] does not leave the
    category under analysis out: a third relationship, from the core to
    itself.  With three relationships the completeness is 0.63, not below
    0.6, and the first recommendation is the one of a developing theory,
    which does not match the incomplete/continue/more pattern. *)
Theorem single_code_core_relates_to_itself :
  exists r,
    TheoryEngine.buildGroundedTheory [causedCode] None "Test?" constructivist
    = inr r
    /\ frequency causedCode = 1%Z
    /\ core_name (coreCategory r) = "processes"
    /\ map (fun rel => (relatedCategory rel, relationshipType rel))
           (relationships (coreCategory r))
       = [("working", causes); ("working", leads_to);
          ("processes", influences)]
    /\ (completeness r == 63 # 100)%Q
    /\ ~ (completeness r < 6 # 10)%Q
    /\ hd_error (recommendations r) = Some developingAdvice
    /\ matchesIncomplete developingAdvice = false.
Proof.
  eexists. split; [vm_compute; reflexivity|].
  vm_compute. repeat split; try reflexivity. discriminate.
Qed.

(* ================================================================== *)
(** * Further properties of the engines *)

(** ** Sorting *)

Section SortFacts.
Context {A : Type}.
Variable gt : A -> A -> bool.
Hypothesis gt_asym : forall x y, gt x y = true -> gt y x = false.
Hypothesis le_trans :
  forall x y z, gt x y = false -> gt y z = false -> gt x z = false.

Lemma js_insert_sorted (x : A) (l : list A) :
  StronglySorted (fun a b => gt a b = false) l ->
  StronglySorted (fun a b => gt a b = false) (js_insert gt x l).
Proof.
  induction 1 as [|y l Hs IH Hy]; simpl.
  - repeat constructor.
  - destruct (gt x y) eqn:E.
    + constructor; [assumption|].
      apply Forall_forall. intros z Hz.
      apply (Permutation_in _ (js_insert_perm gt x l)) in Hz.
      destruct Hz as [<-|Hz]; [now apply gt_asym|].
      rewrite Forall_forall in Hy. now apply Hy.
    + constructor; [now constructor|].
      constructor; [assumption|].
      eapply Forall_impl; [|exact Hy]. intros z Hz. now apply (le_trans x y z).
Qed.

Lemma js_sort_sorted (l : list A) :
  StronglySorted (fun a b => gt a b = false) (js_sort gt l).
Proof.
  induction l as [|x l IH]; simpl.
  - constructor.
  - now apply js_insert_sorted.
Qed.
End SortFacts.

Lemma sorted_impl {A : Type} (R R' : A -> A -> Prop) (l : list A) :
  (forall a b, R a b -> R' a b) ->
  StronglySorted R l -> StronglySorted R' l.
Proof.
  intros H. induction 1 as [|a l Hs IH Ha]; constructor; [assumption|].
  eapply Forall_impl; [|exact Ha]. intros b. apply H.
Qed.

(** ** Maps *)

Lemma get_none_fresh {V : Type} (m : JsMap.t V) (k : string) :
  JsMap.get m k = None -> Forall (fun e => fst e <> k) m.
Proof.
  induction m as [|[k0 v0] m IH]; simpl; intros H; [constructor|].
  destruct (String.eqb k0 k) eqn:E; [discriminate|].
  constructor; [|now apply IH]. simpl. now apply String.eqb_neq.
Qed.

Lemma fresh_not_key {V : Type} (m : JsMap.t V) (k : string) :
  Forall (fun e => fst e <> k) m -> ~ In k (JsMap.keys m).
Proof.
  unfold JsMap.keys. rewrite Forall_forall. intros H Hin.
  apply in_map_iff in Hin. destruct Hin as (e & E & He). now apply (H e He).
Qed.

(** Where [set] finds its key, it replaces the value that [get] returns
    and touches nothing else. *)
Lemma set_update_split {V : Type} (m : JsMap.t V) (k : string) (v v' : V) :
  JsMap.get m k = Some v ->
  exists pre post,
    m = pre ++ (k, v) :: post
    /\ JsMap.set m k v' = pre ++ (k, v') :: post.
Proof.
  induction m as [|[k0 v0] m IH]; simpl; intros H; [discriminate|].
  destruct (String.eqb k0 k) eqn:E.
  - apply String.eqb_eq in E. inversion H; subst.
    now exists [], m.
  - destruct (IH H) as (pre & post & E1 & E2).
    exists ((k0, v0) :: pre), post. split; simpl; f_equal; assumption.
Qed.

Lemma keys_app {V : Type} (m1 m2 : JsMap.t V) :
  JsMap.keys (m1 ++ m2) = JsMap.keys m1 ++ JsMap.keys m2.
Proof. apply map_app. Qed.

Lemma values_app {V : Type} (m1 m2 : JsMap.t V) :
  JsMap.values (m1 ++ m2) = JsMap.values m1 ++ JsMap.values m2.
Proof. apply map_app. Qed.

Lemma set_keys_nodup {V : Type} (m : JsMap.t V) (k : string) (v : V) :
  NoDup (JsMap.keys m) -> NoDup (JsMap.keys (JsMap.set m k v)).
Proof.
  intros Hn. destruct (JsMap.get m k) as [v0|] eqn:E.
  - destruct (set_update_split m k v0 v E) as (pre & post & E1 & E2).
    rewrite E2. rewrite E1 in Hn. rewrite keys_app in *. exact Hn.
  - pose proof (get_none_fresh m k E) as Hf.
    rewrite (set_fresh m k v Hf), keys_app. simpl.
    apply NoDup_app; [assumption|repeat constructor; intros []|].
    intros x Hx [E'|[]]. subst x. now apply (fresh_not_key m k Hf).
Qed.

(** ** Automatic coding *)

Lemma quoteCode_generated (text cleaned : string) :
  generated (CodingEngine.quoteCode text cleaned).
Proof. repeat split; discriminate. Qed.

Lemma emotionCode_generated (text : string) (m : nat * string) :
  generated (CodingEngine.emotionCode text m).
Proof. repeat split; discriminate. Qed.

Lemma constructedCode_generated (n d text : string) :
  generated (AutoCoding.constructedCode n d text).
Proof. repeat split; discriminate. Qed.

Lemma Forall_map_intro {A B : Type} (P : B -> Prop) (f : A -> B) (l : list A) :
  (forall x, P (f x)) -> Forall P (map f l).
Proof. intros H. apply Forall_forall. intros y Hy.
  apply in_map_iff in Hy. destruct Hy as (x & <- & _). apply H. Qed.

Lemma Forall_map_intro_in {A B : Type} (P : B -> Prop) (f : A -> B)
    (l : list A) :
  (forall x, In x l -> P (f x)) -> Forall P (map f l).
Proof. intros H. apply Forall_forall. intros y Hy.
  apply in_map_iff in Hy. destruct Hy as (x & <- & Hx). now apply H. Qed.

Lemma generateConstructedCodes_generated (text methodology : string) :
  Forall generated (AutoCoding.generateConstructedCodes text methodology).
Proof.
  unfold AutoCoding.generateConstructedCodes, AutoCoding.groundedCodes,
    AutoCoding.thematicCodes, AutoCoding.phenomenologyCodes.
  repeat (apply Forall_app; split);
    repeat match goal with
           | |- Forall _ (if ?b then _ else _) => destruct b
           | |- Forall _ [] => constructor
           | |- Forall _ (_ ++ _) => apply Forall_app; split
           | |- Forall _ (map _ _) =>
               apply Forall_map_intro; intros;
               apply constructedCode_generated
           | |- Forall _ [_] =>
               constructor; [apply constructedCode_generated|constructor]
           end.
Qed.

Lemma generateCodesForSegment_generated (text methodology : string)
    (existingCodes : list string) :
  Forall generated
         (AutoCoding.generateCodesForSegment text methodology existingCodes).
Proof.
  unfold AutoCoding.generateCodesForSegment.
  apply Forall_app. split; [|apply Forall_app; split].
  - unfold CodingEngine.extractInVivoCodes. apply Forall_app. split.
    + apply Forall_map_intro. intros. apply quoteCode_generated.
    + apply Forall_map_intro. intros. apply emotionCode_generated.
  - apply generateConstructedCodes_generated.
  - apply Forall_map_intro. intros. repeat split; discriminate.
Qed.

Lemma codebook_empty : codebook JsMap.empty.
Proof. repeat split; constructor. Qed.

(** One more code of a segment: the map stays a codebook, its frequencies
    grow by one in total, and the name of the code is the only name that
    can be new. *)
Lemma accumulate_facts (segmentText : string) (m : JsMap.t Code) (c : Code) :
  codebook m -> generated c ->
  codebook (AutoCoding.accumulate segmentText m c)
  /\ sum_by frequency (JsMap.values (AutoCoding.accumulate segmentText m c))
     = (sum_by frequency (JsMap.values m) + 1)%Z
  /\ forall n, In n (JsMap.keys (AutoCoding.accumulate segmentText m c))
               <-> (In n (JsMap.keys m) \/ n = name c).
Proof.
  intros (Hkey & Hnd & Hcnt) (Hf & Ht & He). unfold AutoCoding.accumulate.
  destruct (JsMap.get m (name c)) as [existing|] eqn:E.
  - set (existing' := {| name := name existing |}).
    destruct (set_update_split m (name c) existing existing' E)
      as (pre & post & E1 & E2).
    rewrite E2. subst m. subst existing'.
    apply Forall_app in Hkey. destruct Hkey as [Hk1 Hk2].
    apply Forall_app in Hcnt. destruct Hcnt as [Hc1 Hc2].
    apply Forall_cons_iff in Hk2. destruct Hk2 as [Hk Hk3].
    apply Forall_cons_iff in Hc2. destruct Hc2 as [(Hcf & Hct & Hce) Hc3].
    cbn [fst snd] in Hk, Hcf, Hct, Hce.
    split; [|split].
    + split; [|split].
      * apply Forall_app. split; [assumption|]. now constructor.
      * rewrite keys_app in *. exact Hnd.
      * apply Forall_app. split; [assumption|].
        constructor; [|assumption].
        unfold counted. cbn [snd frequency type examples]. repeat split.
        -- lia.
        -- assumption.
        -- intros H. now apply app_eq_nil in H.
    + unfold JsMap.values. rewrite !map_app. cbn [map snd].
      rewrite !sum_by_app, !sum_by_cons. cbn [frequency]. lia.
    + intros n. unfold JsMap.keys. rewrite !map_app. cbn [map fst].
      rewrite !in_app_iff. cbn [In]. intuition.
  - pose proof (get_none_fresh m (name c) E) as Hfresh.
    rewrite (set_fresh m (name c) c Hfresh).
    split; [|split].
    + split; [|split].
      * apply Forall_app. split; [assumption|]. now repeat constructor.
      * rewrite <- (set_fresh m (name c) c Hfresh). now apply set_keys_nodup.
      * apply Forall_app. split; [assumption|].
        repeat constructor; simpl; try assumption. lia.
    + rewrite values_app. simpl.
      rewrite sum_by_app, sum_by_cons, sum_by_nil. lia.
    + intros n. rewrite keys_app. simpl. rewrite in_app_iff. simpl.
      intuition.
Qed.

Lemma fold_accumulate (segmentText : string) (cs : list Code) :
  Forall generated cs ->
  forall m,
    codebook m ->
    let m' := fold_left (AutoCoding.accumulate segmentText) cs m in
    codebook m'
    /\ sum_by frequency (JsMap.values m')
       = (sum_by frequency (JsMap.values m) + Z.of_nat (List.length cs))%Z
    /\ forall n, In n (JsMap.keys m')
                 <-> (In n (JsMap.keys m) \/ In n (map name cs)).
Proof.
  induction 1 as [|c cs Hc Hcs IH]; intros m Hm; simpl.
  - split; [assumption|]. split; [lia|]. intuition.
  - destruct (accumulate_facts segmentText m c Hm Hc) as (H1 & H2 & H3).
    destruct (IH _ H1) as (H4 & H5 & H6).
    split; [assumption|]. split.
    + rewrite H5, H2. lia.
    + intros n. rewrite H6, H3. intuition.
Qed.

Lemma attachments_app (s1 s2 : list CodedSegment) :
  attachments (s1 ++ s2) = attachments s1 + attachments s2.
Proof. unfold attachments. now rewrite map_app, list_sum_app. Qed.

(** The state of the loop over the segments. *)
Lemma fold_codingStep (methodology : string) (existingCodes : list string)
    (segs : list Segment) :
  forall m coded,
    codebook m ->
    sum_by frequency (JsMap.values m) = Z.of_nat (attachments coded) ->
    (forall n, In n (JsMap.keys m)
               <-> exists seg, In seg coded /\ In n (cs_codes seg)) ->
    let state :=
      fold_left (AutoCoding.codingStep methodology existingCodes) segs
                (m, coded) in
    codebook (fst state)
    /\ sum_by frequency (JsMap.values (fst state))
       = Z.of_nat (attachments (snd state))
    /\ (forall n, In n (JsMap.keys (fst state))
                  <-> exists seg, In seg (snd state) /\ In n (cs_codes seg)).
Proof.
  induction segs as [|seg segs IH]; intros m coded Hm Hsum Hkeys; simpl.
  - auto.
  - set (cs := AutoCoding.generateCodesForSegment (seg_text seg) methodology
                 existingCodes).
    destruct (fold_accumulate (seg_text seg) cs
                (generateCodesForSegment_generated _ _ _) m Hm)
      as (H1 & H2 & H3).
    apply IH.
    + exact H1.
    + rewrite H2, Hsum, attachments_app. unfold attachments at 3. simpl.
      rewrite length_map. lia.
    + intros n. rewrite H3, Hkeys. split.
      * intros [(s & Hs & Hn)|Hn].
        -- exists s. split; [apply in_or_app; now left|assumption].
        -- eexists. split; [apply in_or_app; right; now left|exact Hn].
      * intros (s & Hs & Hn). apply in_app_or in Hs.
        destruct Hs as [Hs|[<-|[]]]; [left; now exists s|right; exact Hn].
Qed.

Lemma codebook_names (m : JsMap.t Code) :
  codebook m -> map name (JsMap.values m) = JsMap.keys m.
Proof.
  intros (Hkey & _ & _). unfold JsMap.values, JsMap.keys.
  rewrite map_map. apply map_ext_in. intros e He.
  rewrite Forall_forall in Hkey. symmetry. now apply Hkey.
Qed.

(** The final state of [autoCoding], as the three lemmas above give it. *)
Lemma autoCoding_state (text : string) (existingCodes : list string)
    (methodology : string) :
  exists m,
    codes (AutoCoding.autoCoding text existingCodes methodology)
    = JsMap.values m
    /\ codebook m
    /\ sum_by frequency (JsMap.values m)
       = Z.of_nat
           (attachments
              (segments (AutoCoding.autoCoding text existingCodes methodology)))
    /\ (forall n,
          In n (JsMap.keys m)
          <-> exists seg,
                In seg (segments
                          (AutoCoding.autoCoding text existingCodes methodology))
                /\ In n (cs_codes seg)).
Proof.
  unfold AutoCoding.autoCoding.
  pose proof (fold_codingStep methodology existingCodes
                (AutoCoding.segmentText text) JsMap.empty []
                codebook_empty eq_refl) as H.
  destruct (fold_left _ _ _) as [m coded]. simpl in *.
  exists m. split; [reflexivity|]. apply H.
  intros n. split; [intros []|intros (s & [] & _)].
Qed.

(** X1.  The codebook that [autoCoding] returns holds no name twice: codes
    of the same name, within a segment or across segments, are folded into
    one record. *)
Theorem autoCoding_names_distinct (text : string)
    (existingCodes : list string) (methodology : string) :
  NoDup (map name (codes (AutoCoding.autoCoding text existingCodes methodology))).
Proof.
  destruct (autoCoding_state text existingCodes methodology)
    as (m & -> & Hm & _).
  rewrite (codebook_names m Hm). apply Hm.
Qed.

(** X2.  The frequencies of the returned codes add up to the number of code
    names attached to the segments: every attachment is counted once. *)
Theorem autoCoding_frequency_counts_attachments (text : string)
    (existingCodes : list string) (methodology : string) :
  sum_by frequency
         (codes (AutoCoding.autoCoding text existingCodes methodology))
  = Z.of_nat
      (attachments
         (segments (AutoCoding.autoCoding text existingCodes methodology))).
Proof.
  destruct (autoCoding_state text existingCodes methodology)
    as (m & -> & _ & Hsum & _).
  exact Hsum.
Qed.

(** X3.  A name is in the returned codebook exactly when it is attached to
    one of the returned segments. *)
Theorem autoCoding_codebook_covers_segments (text : string)
    (existingCodes : list string) (methodology : string) (n : string) :
  In n (map name (codes (AutoCoding.autoCoding text existingCodes methodology)))
  <-> exists seg,
        In seg (segments (AutoCoding.autoCoding text existingCodes methodology))
        /\ In n (cs_codes seg).
Proof.
  destruct (autoCoding_state text existingCodes methodology)
    as (m & -> & Hm & _ & Hkeys).
  rewrite (codebook_names m Hm). apply Hkeys.
Qed.

Lemma countType_total (cs : list Code) :
  List.length cs
  = AutoCoding.countType in_vivo cs + AutoCoding.countType constructed cs
    + AutoCoding.countType theoretical cs.
Proof.
  unfold AutoCoding.countType.
  induction cs as [|c cs IH]; simpl; [reflexivity|].
  destruct (type c); simpl; lia.
Qed.

Lemma countType_theoretical (cs : list Code) :
  Forall (fun c => type c <> theoretical) cs ->
  AutoCoding.countType theoretical cs = 0.
Proof.
  unfold AutoCoding.countType.
  induction 1 as [|c cs Hc _ IH]; simpl; [reflexivity|].
  destruct (type c); simpl; try assumption. contradiction.
Qed.

(** X4.  Every returned code has a frequency of 1 or more and an example at
    least, and none is of type theoretical: the summary counts no
    theoretical code, and the in-vivo and constructed counts add up to the
    total. *)
Theorem autoCoding_codes_and_summary (text : string)
    (existingCodes : list string) (methodology : string) :
  let r := AutoCoding.autoCoding text existingCodes methodology in
  Forall (fun c => (1 <= frequency c)%Z
                   /\ examples c <> []
                   /\ (type c = in_vivo \/ type c = constructed))
         (codes r)
  /\ theoreticalCodes (summary r) = 0
  /\ totalCodes (summary r) = List.length (codes r)
  /\ totalCodes (summary r)
     = inVivoCodes (summary r) + constructedCodes (summary r).
Proof.
  intros r.
  destruct (autoCoding_state text existingCodes methodology)
    as (m & Hcodes & (_ & _ & Hcnt) & _).
  fold r in Hcodes.
  assert (Hall : Forall counted (codes r)).
  { rewrite Hcodes. unfold JsMap.values. apply Forall_forall. intros c Hc.
    apply in_map_iff in Hc. destruct Hc as (e & <- & He).
    rewrite Forall_forall in Hcnt. now apply Hcnt. }
  assert (Hth : AutoCoding.countType theoretical (codes r) = 0).
  { apply countType_theoretical. eapply Forall_impl; [|exact Hall].
    intros c (_ & Ht & _). exact Ht. }
  assert (Hsummary : summary r
                     = AutoCoding.generateSummary (codes r) (segments r)).
  { unfold r, AutoCoding.autoCoding.
    destruct (fold_left _ _ _) as [m' coded]. reflexivity. }
  rewrite Hsummary. cbn [AutoCoding.generateSummary theoreticalCodes totalCodes
                         inVivoCodes constructedCodes].
  split; [|split; [exact Hth|split; [reflexivity|]]].
  - eapply Forall_impl; [|exact Hall]. intros c (Hf & Ht & He).
    split; [assumption|]. split; [assumption|].
    destruct (type c); [now left|now right|contradiction].
  - rewrite (countType_total (codes r)), Hth. lia.
Qed.

(** ** Segmentation *)





Lemma trimStart_spaces (s : string) :
  allChars JsString.is_space s = true -> JsString.trimStart s = EmptyString.
Proof.
  induction s as [|c s IH]; simpl; [reflexivity|].
  intros H. apply andb_true_iff in H. destruct H as [Hc Hs].
  rewrite Hc. now apply IH.
Qed.

Lemma trim_spaces (s : string) :
  allChars JsString.is_space s = true -> JsString.trim s = EmptyString.
Proof.
  intros H. unfold JsString.trim. now rewrite (trimStart_spaces s H).
Qed.

Lemma splitParagraphsAux_chars (p : ascii -> bool) (s : string) :
  forall skip,
    allChars p s = true ->
    allChars p (fst (AutoCoding.splitParagraphsAux skip s)) = true
    /\ Forall (fun t => allChars p t = true)
              (snd (AutoCoding.splitParagraphsAux skip s)).
Proof.
  induction s as [|c s IH]; intros skip H;
    cbn [AutoCoding.splitParagraphsAux].
  - split; [reflexivity|constructor].
  - simpl in H. apply andb_true_iff in H. destruct H as [Hc Hs].
    destruct skip as [|skip]; [|now apply IH].
    destruct (AutoCoding.is_newline c
              && (1 <=? CodingEngine.countWhile AutoCoding.is_newline s)).
    + destruct (IH (CodingEngine.countWhile AutoCoding.is_newline s) Hs)
        as [H1 H2].
      destruct (AutoCoding.splitParagraphsAux _ s) as [t ts]. simpl in *.
      split; [reflexivity|now constructor].
    + destruct (IH 0 Hs) as [H1 H2].
      destruct (AutoCoding.splitParagraphsAux 0 s) as [t ts]. simpl in *.
      now rewrite Hc, H1.
Qed.

Lemma splitParagraphs_chars (p : ascii -> bool) (s : string) :
  allChars p s = true ->
  Forall (fun t => allChars p t = true) (AutoCoding.splitParagraphs s).
Proof.
  intros H. unfold AutoCoding.splitParagraphs.
  destruct (splitParagraphsAux_chars p s 0 H) as [H1 H2].
  destruct (AutoCoding.splitParagraphsAux 0 s) as [t ts]. now constructor.
Qed.

Lemma segmentText_blank (text : string) :
  allChars JsString.is_space text = true -> AutoCoding.segmentText text = [].
Proof.
  intros H. unfold AutoCoding.segmentText.
  pose proof (splitParagraphs_chars _ text H) as Hp.
  assert (G : forall paras state,
             Forall (fun t => allChars JsString.is_space t = true) paras ->
             fold_left AutoCoding.paragraphStep paras state = state).
  { induction paras as [|para paras IH]; intros state Hall; [reflexivity|].
    inversion Hall as [|? ? Hpara Hrest]; subst. simpl.
    assert (E : AutoCoding.paragraphStep state para = state).
    { unfold AutoCoding.paragraphStep. destruct state as [segs cur].
      now rewrite (trim_spaces para Hpara). }
    rewrite E. now apply IH. }
  now rewrite G.
Qed.

(** X5.  A text made of whitespace only, the empty text included, is no
    error: it yields no segment, no code and a summary of zeros. *)
Theorem autoCoding_blank_text (text : string) (existingCodes : list string)
    (methodology : string) :
  allChars JsString.is_space text = true ->
  let r := AutoCoding.autoCoding text existingCodes methodology in
  codes r = [] /\ segments r = []
  /\ totalCodes (summary r) = 0
  /\ (averageCodesPerSegment (summary r) == 0)%Q.
Proof.
  intros H r. unfold r, AutoCoding.autoCoding.
  rewrite (segmentText_blank text H). simpl.
  repeat split; reflexivity.
Qed.

Lemma autoCoding_blank_text_witness :
  allChars JsString.is_space
           (String " " (String AutoCoding.newline
                          (String AutoCoding.newline "  "))) = true
  /\ codes (AutoCoding.autoCoding
              (String " " (String AutoCoding.newline
                             (String AutoCoding.newline "  ")))
              ["stress"] "general") = [].
Proof.
  split; [reflexivity|].
  apply (autoCoding_blank_text
           (String " " (String AutoCoding.newline
                          (String AutoCoding.newline "  ")))
           ["stress"] "general").
  reflexivity.
Defined.









(** ** Existing codes and constructed codes *)

Lemma is_sep_lower (c : ascii) :
  JsString.is_sep (JsString.lower_char c) = JsString.is_sep c.
Proof.
  destruct c as [[] [] [] [] [] [] [] []]; vm_compute; reflexivity.
Qed.

Lemma lower_char_idem (c : ascii) :
  JsString.lower_char (JsString.lower_char c) = JsString.lower_char c.
Proof.
  destruct c as [[] [] [] [] [] [] [] []]; vm_compute; reflexivity.
Qed.

Lemma toLowerCase_idem (s : string) :
  JsString.toLowerCase (JsString.toLowerCase s) = JsString.toLowerCase s.
Proof.
  unfold JsString.toLowerCase.
  induction s as [|c s IH]; simpl; [reflexivity|].
  now rewrite lower_char_idem, IH.
Qed.

Lemma split_aux_lower (s : string) :
  forall prev,
    JsString.split_aux prev (JsString.toLowerCase s)
    = (JsString.toLowerCase (fst (JsString.split_aux prev s)),
       map JsString.toLowerCase (snd (JsString.split_aux prev s))).
Proof.
  unfold JsString.toLowerCase.
  induction s as [|c s IH]; intros prev; simpl; [reflexivity|].
  rewrite is_sep_lower. destruct (JsString.is_sep c).
  - rewrite IH. destruct (JsString.split_aux true s) as [t ts].
    destruct prev; reflexivity.
  - rewrite IH. destruct (JsString.split_aux false s) as [t ts]. reflexivity.
Qed.

Lemma split_words_lower (s : string) :
  JsString.split_words (JsString.toLowerCase s)
  = map JsString.toLowerCase (JsString.split_words s).
Proof.
  unfold JsString.split_words. rewrite split_aux_lower.
  destruct (JsString.split_aux false s) as [t ts]. reflexivity.
Qed.

Lemma existsb_map_compose {A B : Type} (f : B -> bool) (g : A -> B)
    (l : list A) :
  existsb f (map g l) = existsb (fun x => f (g x)) l.
Proof. induction l as [|x l IH]; simpl; [reflexivity|]. now rewrite IH. Qed.

Lemma codeApplies_lower (text code : string) :
  AutoCoding.codeApplies text code
  = existsb (JsString.includes (JsString.toLowerCase text))
            (JsString.split_words (JsString.toLowerCase code)).
Proof.
  unfold AutoCoding.codeApplies.
  now rewrite split_words_lower, existsb_map_compose.
Qed.

(** X7.  Whether an existing code applies to a text depends on neither the
    letter case of the text nor that of the code name. *)
Theorem codeApplies_ignores_case (text text' code code' : string) :
  JsString.toLowerCase text = JsString.toLowerCase text' ->
  JsString.toLowerCase code = JsString.toLowerCase code' ->
  AutoCoding.codeApplies text code = AutoCoding.codeApplies text' code'.
Proof.
  intros Ht Hc. now rewrite !codeApplies_lower, Ht, Hc.
Qed.

Lemma codeApplies_ignores_case_witness :
  JsString.toLowerCase "I am COPING" = JsString.toLowerCase "i am coping"
  /\ JsString.toLowerCase "Coping-Strategies"
     = JsString.toLowerCase "coping-strategies"
  /\ AutoCoding.codeApplies "I am COPING" "Coping-Strategies"
     = AutoCoding.codeApplies "i am coping" "coping-strategies".
Proof.
  split; [reflexivity|]. split; [reflexivity|].
  apply (codeApplies_ignores_case "I am COPING" "i am coping"
           "Coping-Strategies" "coping-strategies"); reflexivity.
Defined.

Lemma includes_empty (s : string) : JsString.includes s EmptyString = true.
Proof. destruct s; reflexivity. Qed.

(** X8.  An existing code name that is empty or begins with a separator
    has an empty keyword, which every text contains: such a code applies to
    every segment. *)
Theorem codeApplies_empty_keyword (text code : string) :
  match code with
  | EmptyString => True
  | String c _ => JsString.is_sep c = true
  end ->
  AutoCoding.codeApplies text code = true
  /\ forall methodology others,
       In code
          (map name
               (AutoCoding.generateCodesForSegment text methodology
                                                   (code :: others))).
Proof.
  intros H.
  assert (E : AutoCoding.codeApplies text code = true).
  { unfold AutoCoding.codeApplies, JsString.split_words.
    destruct code as [|c rest]; simpl.
    - now rewrite includes_empty.
    - rewrite H. destruct (JsString.split_aux true rest) as [t ts]. simpl.
      now rewrite includes_empty. }
  split; [exact E|]. intros methodology others.
  unfold AutoCoding.generateCodesForSegment. rewrite !map_app.
  apply in_or_app. right. apply in_or_app. right.
  cbn [filter]. rewrite E. now left.
Qed.

Lemma codeApplies_empty_keyword_witness :
  AutoCoding.codeApplies "I went home" "-draft" = true
  /\ forall methodology others,
       In "-draft"
          (map name
               (AutoCoding.generateCodesForSegment "I went home" methodology
                                                   ("-draft" :: others))).
Proof.
  apply (codeApplies_empty_keyword "I went home" "-draft"). reflexivity.
Defined.

Lemma unique_facts (xs : list string) :
  forall seen,
    NoDup seen ->
    NoDup (fold_left (fun seen x => if JsString.mem x seen then seen
                                    else seen ++ [x]) xs seen)
    /\ forall x,
         In x (fold_left (fun seen x => if JsString.mem x seen then seen
                                        else seen ++ [x]) xs seen)
         -> In x seen \/ In x xs.
Proof.
  induction xs as [|y xs IH]; intros seen Hnd; simpl.
  - split; [assumption|]. intros x Hx. now left.
  - destruct (JsString.mem y seen) eqn:E.
    + destruct (IH seen Hnd) as [H1 H2]. split; [assumption|].
      intros x Hx. destruct (H2 x Hx); [now left|now right; right].
    + assert (Hnd' : NoDup (seen ++ [y])).
      { apply NoDup_app; [assumption|repeat constructor; intros []|].
        intros x Hx [E'|[]]. subst x. unfold JsString.mem in E.
        assert (existsb (String.eqb y) seen = true).
        { apply existsb_exists. exists y. split; [assumption|].
          apply String.eqb_refl. }
        congruence. }
      destruct (IH _ Hnd') as [H1 H2]. split; [assumption|].
      intros x Hx. destruct (H2 x Hx) as [H|H]; [|now right; right].
      apply in_app_or in H. destruct H as [H|[E'|[]]];
        [now left|right; left; exact E'].
Qed.

Lemma firstn_NoDup {A : Type} (n : nat) (l : list A) :
  NoDup l -> NoDup (firstn n l).
Proof.
  intros H. rewrite <- (firstn_skipn n l) in H.
  now apply NoDup_app_remove_r in H.
Qed.

Lemma firstn_In {A : Type} (n : nat) (l : list A) (x : A) :
  In x (firstn n l) -> In x l.
Proof.
  intros H. rewrite <- (firstn_skipn n l). apply in_or_app. now left.
Qed.

Lemma codedGerunds_facts (text : string) :
  List.length (codedGerunds text) <= 5
  /\ NoDup (codedGerunds text)
  /\ Forall (fun g => 5 < String.length g /\ JsString.endsWith g "ing" = true)
            (codedGerunds text).
Proof.
  unfold codedGerunds.
  set (gs := AutoCoding.gerundsOf (JsString.toLowerCase text)).
  destruct (unique_facts gs [] (NoDup_nil _)) as [Hnd Hin].
  fold (AutoCoding.unique gs) in Hnd, Hin.
  split; [|split].
  - etransitivity; [apply filter_length_le|]. apply firstn_le_length.
  - apply NoDup_filter. now apply firstn_NoDup.
  - apply Forall_forall. intros g Hg. apply filter_In in Hg.
    destruct Hg as [Hg Hlen]. apply Nat.ltb_lt in Hlen. split; [assumption|].
    apply firstn_In in Hg. destruct (Hin g Hg) as [[]|Hg'].
    unfold gs, AutoCoding.gerundsOf in Hg'. apply filter_In in Hg'.
    destruct Hg' as [_ H]. now apply andb_true_iff in H.
Qed.

Lemma filter_if_one {A : Type} (p : A -> bool) (b : bool) (x : A) :
  p x = false -> filter p (if b then [x] else []) = [].
Proof. intros H. destruct b; simpl; [now rewrite H|reflexivity]. Qed.

Lemma filter_map_none {A B : Type} (p : B -> bool) (f : A -> B) (l : list A) :
  (forall x, p (f x) = false) -> filter p (map f l) = [].
Proof.
  intros H. induction l as [|x l IH]; simpl; [reflexivity|].
  now rewrite H.
Qed.

Lemma filter_map_all {A B : Type} (p : B -> bool) (f : A -> B) (l : list A) :
  (forall x, p (f x) = true) -> filter p (map f l) = map f l.
Proof.
  intros H. induction l as [|x l IH]; simpl; [reflexivity|].
  now rewrite H, IH.
Qed.

Lemma gerund_codes_of (text methodology : string) :
  filter isGerundCode (AutoCoding.generateConstructedCodes text methodology)
  = if JsString.includes methodology "grounded"
       || String.eqb methodology "general"
    then map (fun gerund =>
                AutoCoding.constructedCode gerund
                  ("Process/action: " ++ gerund) text)
             (codedGerunds text)
    else [].
Proof.
  unfold AutoCoding.generateConstructedCodes. rewrite !filter_app.
  set (grounded := JsString.includes methodology "grounded"
                   || String.eqb methodology "general").
  set (thematic := JsString.includes methodology "thematic"
                   || String.eqb methodology "general").
  set (phenomenology := JsString.includes methodology "phenomenology").
  assert (Hth : filter isGerundCode
                  (if thematic then AutoCoding.thematicCodes text else [])
                = []).
  { destruct thematic; [|reflexivity].
    unfold AutoCoding.thematicCodes. rewrite !filter_app.
    rewrite !filter_if_one by reflexivity.
    rewrite filter_map_none by reflexivity. reflexivity. }
  assert (Hph : filter isGerundCode
                  (if phenomenology then AutoCoding.phenomenologyCodes text
                   else []) = []).
  { destruct phenomenology; [|reflexivity].
    unfold AutoCoding.phenomenologyCodes. now apply filter_if_one. }
  rewrite Hth, Hph, !app_nil_r.
  destruct grounded; [|reflexivity].
  unfold AutoCoding.groundedCodes. fold (codedGerunds text).
  rewrite filter_app.
  rewrite filter_if_one by reflexivity. rewrite app_nil_r.
  apply filter_map_all. intros g. unfold isGerundCode.
  cbn [AutoCoding.constructedCode definition]. simpl. now destruct g.
Qed.

(** X9.  A segment yields at most five gerund codes; their names are
    distinct words of the lowered text, longer than five characters and
    ending in [ing].  Without the grounded or general methodology it yields
    none. *)
Theorem gerund_codes_bounded (text methodology : string) :
  let gerundCodes :=
    filter isGerundCode
           (AutoCoding.generateConstructedCodes text methodology) in
  List.length gerundCodes <= 5
  /\ NoDup (map name gerundCodes)
  /\ Forall (fun c => 5 < String.length (name c)
                      /\ JsString.endsWith (name c) "ing" = true
                      /\ type c = constructed)
            gerundCodes
  /\ (JsString.includes methodology "grounded"
      || String.eqb methodology "general" = false -> gerundCodes = []).
Proof.
  intros gerundCodes. unfold gerundCodes. rewrite gerund_codes_of.
  destruct (codedGerunds_facts text) as (Hlen & Hnd & Hall).
  destruct (_ || _).
  - split; [now rewrite length_map|]. split.
    + rewrite map_map. cbn [AutoCoding.constructedCode name].
      now rewrite map_id.
    + split; [|discriminate].
      apply Forall_map_intro_in. intros g Hg.
      rewrite Forall_forall in Hall. destruct (Hall g Hg). auto.
  - repeat split; try constructor. simpl. lia.
Qed.

(** ** Merge records *)

Lemma sortByNameLength_facts (g : list Code) :
  Permutation (CodingEngine.sortByNameLength g) g
  /\ StronglySorted
       (fun a b => String.length (name a) <= String.length (name b))
       (CodingEngine.sortByNameLength g).
Proof.
  unfold CodingEngine.sortByNameLength. split; [apply js_sort_perm|].
  eapply sorted_impl;
    [|apply js_sort_sorted].
  - intros a b H. apply Nat.ltb_ge in H. exact H.
  - intros x y H. apply Nat.ltb_lt in H. apply Nat.ltb_ge. lia.
  - intros x y z H1 H2. apply Nat.ltb_ge in H1, H2. apply Nat.ltb_ge. lia.
Qed.

(** What merging a group of two codes or more produces. *)
Lemma mergeGroup_facts (g : list Code) :
  2 <= List.length g ->
  let merged := fst (CodingEngine.mergeGroup g) in
  let m := snd (CodingEngine.mergeGroup g) in
  Permutation (from m) (map name g)
  /\ to m = name merged
  /\ Forall (fun n => String.length (to m) <= String.length n) (from m)
  /\ In (to m) (from m)
  /\ List.length (examples merged) <= 5
  /\ exists c, In c g /\ name c = name merged
               /\ definition c = definition merged /\ type c = type merged.
Proof.
  intros Hlen. unfold CodingEngine.mergeGroup, CodingEngine.selectBestCodeName.
  destruct (sortByNameLength_facts g) as [Hp Hs].
  destruct (CodingEngine.sortByNameLength g) as [|c sorted] eqn:E.
  - apply Permutation_length in Hp. simpl in Hp. lia.
  - cbn [fst snd from to name definition type examples].
    split; [now apply Permutation_map|]. split; [reflexivity|].
    split; [|split; [now left|split]].
    + cbn [map]. constructor; [lia|].
      inversion Hs as [|? ? _ Hc]; subst.
      apply Forall_map_intro_in. intros b Hb.
      rewrite Forall_forall in Hc. now apply Hc.
    + apply firstn_le_length.
    + exists c. split; [|auto].
      apply (Permutation_in _ Hp). now left.
Qed.


Lemma group_names (codes : list Code) (k : string) (g : list Code) :
  In (k, g) (groupCodes CodingEngine.codesAreSimilar codes) ->
  forall c, In c g -> In c codes.
Proof.
  intros He c Hc.
  destruct (group_submultiset _ coding_similar_self codes k g He)
    as [rest Hp].
  apply (Permutation_in _ Hp). apply in_or_app. now left.
Qed.



Lemma absorbed_app (m1 m2 : list Merge) :
  absorbed (m1 ++ m2) = absorbed m1 + absorbed m2.
Proof. unfold absorbed. now rewrite map_app, list_sum_app. Qed.

Lemma accounting_of_group (k : string) (c : Code) (g : list Code) :
  List.length (c :: g)
  = List.length (refinedOf (k, c :: g)) + absorbed (mergesOf (k, c :: g)).
Proof.
  unfold refinedOf, mergesOf. cbn [snd].
  destruct (1 <? List.length (c :: g)) eqn:E.
  - apply Nat.ltb_lt in E.
    destruct (mergeGroup_facts (c :: g) E) as (Hp & _).
    apply Permutation_length in Hp. rewrite length_map in Hp.
    unfold absorbed. cbn [map list_sum]. rewrite Hp.
    cbn [List.length list_sum fold_right] in *. lia.
  - apply Nat.ltb_ge in E. destruct g; [|simpl in E; lia]. reflexivity.
Qed.

Lemma accounting_of_keyed (groups : JsMap.t (list Code)) :
  keyed groups ->
  List.length (flat_map snd groups)
  = List.length (flat_map refinedOf groups)
    + absorbed (flat_map mergesOf groups).
Proof.
  induction 1 as [|[k gc] groups (c & g & Es & _) _ IH]; [reflexivity|].
  cbn [snd] in Es. subst gc. cbn [flat_map snd].
  rewrite !length_app, absorbed_app, IH, (accounting_of_group k c g). lia.
Qed.

(** X11.  No code is lost or counted twice by a refinement: the input has
    as many codes as the refined list, plus, for every merge, its source
    codes but one. *)
Theorem refineCodebook_accounts_for_every_code (codes : list Code) :
  List.length codes
  = List.length (refined (CodingEngine.refineCodebook codes))
    + absorbed (merges (CodingEngine.refineCodebook codes)).
Proof.
  rewrite refineCodebook_refined, refineCodebook_merges.
  rewrite <- accounting_of_keyed
    by (apply groupCodes_keyed; exact coding_similar_self).
  symmetry. apply Permutation_length.
  apply groupCodes_members. exact coding_similar_self.
Qed.

(** X12.  A refined code is either an input code, passed on as it is, or
    the product of a merge: then it has five examples at most, and it has
    the name, the definition and the type of one input code, the member of
    its group with the shortest name. *)
Theorem refineCodebook_refined_provenance (codes : list Code) (r : Code) :
  In r (refined (CodingEngine.refineCodebook codes)) ->
  In r codes
  \/ (List.length (examples r) <= 5
      /\ (exists m, In m (merges (CodingEngine.refineCodebook codes))
                    /\ to m = name r)
      /\ exists c, In c codes /\ name c = name r
                   /\ definition c = definition r /\ type c = type r).
Proof.
  rewrite refineCodebook_refined, refineCodebook_merges. intros H.
  apply in_flat_map in H. destruct H as ([k g] & He & Hr).
  unfold refinedOf in Hr. cbn [snd] in Hr.
  destruct (1 <? List.length g) eqn:E.
  - right. destruct Hr as [<-|[]].
    pose proof E as E'. apply Nat.ltb_lt in E'.
    destruct (mergeGroup_facts g E')
      as (_ & Hto & _ & _ & Hex & c & Hc & Hn & Hd & Ht).
    split; [exact Hex|]. split.
    + exists (snd (CodingEngine.mergeGroup g)). split; [|exact Hto].
      apply in_flat_map. exists (k, g). split; [assumption|].
      unfold mergesOf. cbn [snd]. rewrite E. now left.
    + exists c. split; [|auto]. now apply (group_names codes k g He).
  - left. apply (group_names codes k g He).
    destruct g as [|c g]; [contradiction|]. destruct Hr as [<-|[]].
    now left.
Qed.

Lemma refineCodebook_refined_provenance_witness :
  In (sampleCode "coping-with" 1)
     (refined (CodingEngine.refineCodebook nestedNames))
  /\ (In (sampleCode "coping-with" 1) nestedNames
      \/ (List.length (examples (sampleCode "coping-with" 1)) <= 5
          /\ (exists m,
                In m (merges (CodingEngine.refineCodebook nestedNames))
                /\ to m = name (sampleCode "coping-with" 1))
          /\ exists c,
               In c nestedNames /\ name c = name (sampleCode "coping-with" 1)
               /\ definition c = definition (sampleCode "coping-with" 1)
               /\ type c = type (sampleCode "coping-with" 1))).
Proof.
  assert (H : In (sampleCode "coping-with" 1)
                 (refined (CodingEngine.refineCodebook nestedNames))).
  { vm_compute. right. left. reflexivity. }
  split; [exact H|].
  exact (refineCodebook_refined_provenance nestedNames _ H).
Defined.

(** ** Shape of the extracted themes *)

Lemma sortByPrevalence_sorted (themes : list Theme) :
  StronglySorted (fun a b => (prevalence b <= prevalence a)%Q)
                 (ThemeEngine.sortByPrevalence themes).
Proof.
  unfold ThemeEngine.sortByPrevalence.
  eapply sorted_impl; [|apply js_sort_sorted].
  - intros a b H. now apply Qltb_false in H.
  - intros x y H. apply Qltb_true in H. apply Qltb_false.
    now apply Qlt_le_weak.
  - intros x y z H1 H2. apply Qltb_false in H1, H2. apply Qltb_false.
    now apply (Qle_trans _ (prevalence y)).
Qed.

(** X13.  In either mode the themes are returned by decreasing prevalence:
    no theme is followed by a theme of higher prevalence. *)
Theorem extractThemes_sorted_by_prevalence
    (codes : list Code) (mode : Mode) (depth : Depth) :
  StronglySorted (fun a b => (prevalence b <= prevalence a)%Q)
                 (ThemeEngine.extractThemes codes mode depth).
Proof. destruct mode; apply sortByPrevalence_sorted. Qed.

Lemma inductive_supporting (codes : list Code) (depth : Depth)
    (groups : JsMap.t (list Code)) :
  exists singles,
    Permutation
      (flat_map supportingCodes
                (flat_map (ThemeEngine.inductiveThemeOf codes depth) groups)
       ++ singles)
      (map name (flat_map snd groups))
    /\ 2 * List.length
             (flat_map (ThemeEngine.inductiveThemeOf codes depth) groups)
       + List.length singles
       <= List.length (flat_map snd groups).
Proof.
  induction groups as [|[k g] groups (singles & Hp & Hl)].
  - exists []. split; [reflexivity|simpl; lia].
  - cbn [flat_map]. unfold ThemeEngine.inductiveThemeOf at 1 3. cbn [snd].
    destruct (List.length g <? 2) eqn:E.
    + exists (map name g ++ singles). cbn [app flat_map].
      rewrite map_app. split.
      * etransitivity; [apply Permutation_app_swap_app|].
        now apply Permutation_app_head.
      * rewrite !length_app, length_map. lia.
    + apply Nat.ltb_ge in E. exists singles.
      cbn [app flat_map supportingCodes]. rewrite map_app, <- app_assoc.
      split; [now apply Permutation_app_head|].
      rewrite !length_app. cbn [List.length]. lia.
Qed.

(** X14.  In inductive mode every theme has two supporting codes or more
    and three examples at most, and no input code supports two themes: the
    supporting codes of all themes, put together, are part of the input
    names.  So there are at most half as many themes as codes, and none for
    the empty list. *)
Theorem inductive_themes_share_no_code (codes : list Code) (depth : Depth) :
  let themes := ThemeEngine.extractThemes codes inductive depth in
  Forall (fun t => 2 <= List.length (supportingCodes t)
                   /\ List.length (theme_examples t) <= 3)
         themes
  /\ (exists others,
        Permutation (flat_map supportingCodes themes ++ others)
                    (map name codes))
  /\ 2 * List.length themes <= List.length codes.
Proof.
  intros themes. unfold themes. cbn [ThemeEngine.extractThemes].
  unfold ThemeEngine.inductiveThemeExtraction, JsMap.entries.
  set (groups := ThemeEngine.groupCodesBySimilarity codes).
  set (unsorted := flat_map (ThemeEngine.inductiveThemeOf codes depth) groups).
  assert (Hsort : Permutation (ThemeEngine.sortByPrevalence unsorted) unsorted)
    by apply js_sort_perm.
  assert (Hmem : Permutation (flat_map snd groups) codes).
  { apply groupCodes_members. exact theme_similar_self. }
  destruct (inductive_supporting codes depth groups) as (singles & Hp & Hl).
  fold unsorted in Hp, Hl.
  split; [|split].
  - apply Forall_forall. intros t Ht. apply (Permutation_in _ Hsort) in Ht.
    apply in_flat_map in Ht. destruct Ht as ([k g] & _ & Ht).
    unfold ThemeEngine.inductiveThemeOf in Ht. cbn [snd] in Ht.
    destruct (List.length g <? 2) eqn:E; [contradiction|].
    apply Nat.ltb_ge in E. destruct Ht as [<-|[]].
    cbn [supportingCodes theme_examples]. rewrite length_map.
    split; [assumption|apply firstn_le_length].
  - exists singles.
    rewrite (Permutation_flat_map supportingCodes Hsort), Hp.
    now apply Permutation_map.
  - rewrite (Permutation_length Hsort).
    rewrite <- (Permutation_length Hmem). lia.
Qed.

Lemma deductiveThemeOf_cases (codes : list Code) (fw : Framework) :
  ThemeEngine.deductiveThemeOf codes fw = []
  \/ exists t, ThemeEngine.deductiveThemeOf codes fw = [t]
               /\ theme_name t = fw_name fw.
Proof.
  unfold ThemeEngine.deductiveThemeOf.
  destruct (0 <? List.length (filter (ThemeEngine.matchesFramework fw) codes)).
  - right. eexists. split; reflexivity.
  - now left.
Qed.

Lemma deductive_names (codes : list Code) (fws : list Framework) :
  NoDup (map fw_name fws) ->
  let themes := flat_map (ThemeEngine.deductiveThemeOf codes) fws in
  NoDup (map theme_name themes)
  /\ incl (map theme_name themes) (map fw_name fws)
  /\ List.length themes <= List.length fws.
Proof.
  induction fws as [|fw fws IH]; intros Hnd; cbn [flat_map map].
  - split; [constructor|]. split; [intros x []|simpl; lia].
  - inversion Hnd as [|? ? Hfresh Hnd']; subst.
    destruct (IH Hnd') as (H1 & H2 & H3).
    destruct (deductiveThemeOf_cases codes fw) as [->|(t & -> & Ht)].
    + cbn [app]. split; [assumption|]. split; [|cbn [List.length]; lia].
      intros x Hx. right. now apply H2.
    + cbn [app map List.length]. rewrite Ht. split; [|split].
      * constructor; [|assumption]. intros Hin. apply Hfresh. now apply H2.
      * intros x [<-|Hx]; [now left|right; now apply H2].
      * lia.
Qed.

Lemma frameworks_distinct :
  NoDup (map fw_name ThemeEngine.theoreticalFrameworks).
Proof.
  repeat constructor; simpl; intuition discriminate.
Qed.

(** X15.  In deductive mode there are five themes at most, under distinct
    names taken from the five frameworks; every theme has a supporting code
    at least, all of them input codes, and three examples at most.  The
    empty list of codes gives no theme. *)
Theorem deductive_themes_follow_frameworks (codes : list Code) (depth : Depth) :
  let themes := ThemeEngine.extractThemes codes deductive depth in
  List.length themes <= 5
  /\ NoDup (map theme_name themes)
  /\ incl (map theme_name themes)
          (map fw_name ThemeEngine.theoreticalFrameworks)
  /\ Forall (fun t => 1 <= List.length (supportingCodes t)
                      /\ incl (supportingCodes t) (map name codes)
                      /\ List.length (theme_examples t) <= 3)
            themes
  /\ (codes = [] -> themes = []).
Proof.
  intros themes. unfold themes. cbn [ThemeEngine.extractThemes].
  unfold ThemeEngine.deductiveThemeExtraction.
  set (unsorted := flat_map (ThemeEngine.deductiveThemeOf codes)
                            ThemeEngine.theoreticalFrameworks).
  assert (Hsort : Permutation (ThemeEngine.sortByPrevalence unsorted) unsorted)
    by apply js_sort_perm.
  destruct (deductive_names codes _ frameworks_distinct) as (H1 & H2 & H3).
  fold unsorted in H1, H2, H3.
  split; [|split; [|split; [|split]]].
  - rewrite (Permutation_length Hsort). exact H3.
  - apply (Permutation_NoDup (l := map theme_name unsorted)); [|exact H1].
    symmetry. now apply Permutation_map.
  - intros n Hn. apply H2.
    apply (Permutation_in _ (Permutation_map theme_name Hsort)). exact Hn.
  - apply Forall_forall. intros t Ht. apply (Permutation_in _ Hsort) in Ht.
    apply in_flat_map in Ht. destruct Ht as (fw & _ & Ht).
    unfold ThemeEngine.deductiveThemeOf in Ht.
    destruct (0 <? List.length (filter (ThemeEngine.matchesFramework fw) codes))
      eqn:E; [|contradiction].
    apply Nat.ltb_lt in E. destruct Ht as [<-|[]].
    cbn [supportingCodes theme_examples]. rewrite length_map.
    split; [lia|]. split; [|apply firstn_le_length].
    intros n Hn. apply in_map_iff in Hn. destruct Hn as (c & <- & Hc).
    apply in_map. apply filter_In in Hc. apply Hc.
  - intros ->. reflexivity.
Qed.

(** ** Counts and threshold of the saturation analysis *)

Lemma saturation_counts_bounded (m : JsMap.t (list Code))
    (sources : list string) :
  forall counts seen done,
    Forall2 (fun n k => n <= List.length (TheoryEngine.getCodes m k))
            counts done ->
    Forall2 (fun n k => n <= List.length (TheoryEngine.getCodes m k))
            (fst (fold_left (ThemeEngine.saturationStep m) sources
                            (counts, seen)))
            (done ++ sources).
Proof.
  induction sources as [|s sources IH]; intros counts seen done H; simpl.
  - now rewrite app_nil_r.
  - replace (done ++ s :: sources) with ((done ++ [s]) ++ sources)
      by now rewrite <- app_assoc.
    apply IH. apply Forall2_app; [assumption|].
    constructor; [|constructor]. unfold TheoryEngine.getCodes.
    apply filter_length_le.
Qed.

(** X16.  The analysis returns one count per source, in the order of the
    sources, and no count exceeds the number of codes of its source. *)
Theorem detectSaturation_one_count_per_source (level : Level)
    (codesBySource : JsMap.t (list Code)) :
  Forall2 (fun n source =>
             n <= List.length
                    (match JsMap.get codesBySource source with
                     | Some cs => cs
                     | None => []
                     end))
          (newCodesPerSource
             (ThemeEngine.detectSaturation level codesBySource))
          (JsMap.keys codesBySource).
Proof.
  unfold ThemeEngine.detectSaturation. cbn [newCodesPerSource].
  apply (saturation_counts_bounded codesBySource (JsMap.keys codesBySource)
           [] [] []).
  constructor.
Qed.

(** X17.  With one source or more the saturation rate is a number, not
    NaN or an infinity, and it lies between 0 and 1. *)
Theorem detectSaturation_rate_is_a_fraction (level : Level)
    (codesBySource : JsMap.t (list Code)) :
  codesBySource <> [] ->
  exists rate,
    saturationRate (ThemeEngine.detectSaturation level codesBySource)
    = Num rate
    /\ (0 <= rate <= 1)%Q.
Proof.
  intros Hne.
  pose proof (detectSaturation_rate_in_unit level codesBySource Hne) as H.
  destruct (saturationRate (ThemeEngine.detectSaturation level codesBySource))
    as [| | |rate]; try contradiction.
  now exists rate.
Qed.

Lemma detectSaturation_rate_is_a_fraction_witness :
  [("s1", [sampleCode "c1" 1])] <> []
  /\ exists rate,
       saturationRate
         (ThemeEngine.detectSaturation theme_level
            [("s1", [sampleCode "c1" 1])])
       = Num rate
       /\ (0 <= rate <= 1)%Q.
Proof.
  assert (H : [("s1", [sampleCode "c1" 1])] <> []) by discriminate.
  split; [exact H|].
  exact (detectSaturation_rate_is_a_fraction theme_level _ H).
Defined.

Lemma saturated_of_counts (s n : nat) :
  0 < n ->
  Number.gtb
    (Number.sub (Num 1)
       (Number.min
          (Number.div (Number.div (Number.of_nat s) (Number.of_nat n)) (Num 5))
          (Num 1)))
    (Num (85 # 100)) = true
  <-> 4 * s < 3 * n.
Proof.
  intros Hn. unfold Number.of_nat.
  set (sq := inject_Z (Z.of_nat s)). set (nq := inject_Z (Z.of_nat n)).
  assert (Hs : (0 <= sq)%Q).
  { unfold sq. change (inject_Z 0 <= inject_Z (Z.of_nat s))%Q.
    rewrite <- Zle_Qle. lia. }
  assert (Hnq : (0 < nq)%Q) by (apply inject_Z_pos; lia).
  assert (En : Qeq_bool nq 0 = false).
  { destruct (Qeq_bool nq 0) eqn:E; [|reflexivity].
    apply Qeq_bool_iff in E. rewrite E in Hnq. now apply Qlt_irrefl in Hnq. }
  unfold Number.div at 2. rewrite En. unfold Number.div.
  change (Qeq_bool 5 0) with false. cbv iota.
  set (x := (sq / nq / 5)%Q).
  assert (Hx : (x * (5 * nq) == sq)%Q).
  { unfold x. field. intros E. rewrite E in Hnq. now apply Qlt_irrefl in Hnq. }
  assert (Hiff : (x < 15 # 100)%Q <-> 4 * s < 3 * n).
  { assert (Hsn : (sq * 4 < nq * 3)%Q <-> 4 * s < 3 * n).
    { unfold sq, nq.
      change 4%Q with (inject_Z 4). change 3%Q with (inject_Z 3).
      rewrite <- !inject_Z_mult, <- Zlt_Qlt. lia. }
    rewrite <- Hsn. rewrite <- Hx. clearbody x. clear Hx Hsn.
    clearbody nq. split; intros H; nra. }
  unfold Number.min, Number.sub, Number.gtb.
  destruct (Qle_bool x 1) eqn:E.
  - rewrite Qltb_true, <- Hiff. clearbody x. split; intros H; lra.
  - rewrite Qltb_true.
    assert (Hgt : (1 < x)%Q).
    { apply Qnot_le_lt. intros Hle. apply Qle_bool_iff in Hle. congruence. }
    rewrite <- Hiff. clearbody x. split; intros H; lra.
Qed.

Lemma fold_add_list_sum (l : list nat) :
  forall a, fold_left Nat.add l a = a + list_sum l.
Proof.
  induction l as [|x l IH]; intros a; simpl; [lia|]. rewrite IH. lia.
Qed.

(** X18.  With one source or more, the result is saturated exactly when the
    last three counts (all of them when there are fewer) average to less
    than three quarters of a new code per source; with three sources or
    more, when the last three sources brought two new codes at most. *)
Theorem detectSaturation_saturated_iff (level : Level)
    (codesBySource : JsMap.t (list Code)) :
  codesBySource <> [] ->
  let r := ThemeEngine.detectSaturation level codesBySource in
  let recent := ThemeEngine.lastThree (newCodesPerSource r) in
  (saturated r = true <-> 4 * list_sum recent < 3 * List.length recent)
  /\ (3 <= List.length (JsMap.keys codesBySource) ->
      (saturated r = true <-> list_sum recent <= 2)).
Proof.
  intros Hne r recent.
  assert (Hlen : List.length (newCodesPerSource r)
                 = List.length (JsMap.keys codesBySource)).
  { unfold r, ThemeEngine.detectSaturation. cbn [newCodesPerSource].
    now rewrite saturation_fold_length. }
  assert (Hkeys : 0 < List.length (JsMap.keys codesBySource)).
  { unfold JsMap.keys. rewrite length_map.
    destruct codesBySource; [contradiction|simpl; lia]. }
  assert (Hrecent : List.length recent
                    = Nat.min 3 (List.length (newCodesPerSource r))).
  { unfold recent, ThemeEngine.lastThree. rewrite length_skipn. lia. }
  assert (Hsat : saturated r = true
                 <-> 4 * list_sum recent < 3 * List.length recent).
  { unfold r, ThemeEngine.detectSaturation at 1. cbn [saturated].
    fold r. fold recent. rewrite fold_add_list_sum. cbn [Nat.add].
    apply saturated_of_counts. lia. }
  split; [exact Hsat|].
  intros H3. rewrite Hsat. lia.
Qed.

Lemma detectSaturation_saturated_iff_witness :
  [("s1", [sampleCode "c1" 1; sampleCode "c2" 1]);
   ("s2", [sampleCode "c1" 1]); ("s3", [sampleCode "c3" 1])] <> []
  /\ (saturated
        (ThemeEngine.detectSaturation code_level
           [("s1", [sampleCode "c1" 1; sampleCode "c2" 1]);
            ("s2", [sampleCode "c1" 1]); ("s3", [sampleCode "c3" 1])])
      = true
      <-> 4 * list_sum
                (ThemeEngine.lastThree
                   (newCodesPerSource
                      (ThemeEngine.detectSaturation code_level
                         [("s1", [sampleCode "c1" 1; sampleCode "c2" 1]);
                          ("s2", [sampleCode "c1" 1]);
                          ("s3", [sampleCode "c3" 1])])))
          < 3 * List.length
                  (ThemeEngine.lastThree
                     (newCodesPerSource
                        (ThemeEngine.detectSaturation code_level
                           [("s1", [sampleCode "c1" 1; sampleCode "c2" 1]);
                            ("s2", [sampleCode "c1" 1]);
                            ("s3", [sampleCode "c3" 1])])))).
Proof.
  assert (H : [("s1", [sampleCode "c1" 1; sampleCode "c2" 1]);
               ("s2", [sampleCode "c1" 1]); ("s3", [sampleCode "c3" 1])]
              <> []) by discriminate.
  split; [exact H|].
  exact (proj1 (detectSaturation_saturated_iff code_level _ H)).
Defined.

(** ** What the negative cases are *)

Lemma mem_false_not_in (x : string) (l : list string) :
  JsString.mem x l = false -> ~ In x l.
Proof.
  unfold JsString.mem. intros H Hin.
  assert (existsb (String.eqb x) l = true).
  { apply existsb_exists. exists x. split; [assumption|apply String.eqb_refl]. }
  congruence.
Qed.

Lemma firstContradiction_strength (ops : list Opposition)
    (themeName codeName codeDefinition reason : string) (s : Strength) :
  Forall (fun op => op_strength op <> weak) ops ->
  ThemeEngine.firstContradiction ops themeName codeName codeDefinition
  = Some (reason, s) ->
  s <> weak.
Proof.
  induction 1 as [|op ops Hop _ IH]; simpl; [discriminate|].
  destruct (_ && _); [intros H; inversion H; subst; exact Hop|].
  destruct (_ && _); [intros H; inversion H; subst; exact Hop|].
  exact IH.
Qed.

Lemma detectedCases_facts (theme : Theme) (allCodes : list Code)
    (nc : NegativeCase) :
  In nc (ThemeEngine.detectedCases theme allCodes) ->
  In (nc_code nc) (map name allCodes)
  /\ ~ In (nc_code nc) (supportingCodes theme)
  /\ strength nc <> weak.
Proof.
  unfold ThemeEngine.detectedCases. intros H.
  apply in_flat_map in H. destruct H as (c & Hc & H).
  destruct (JsString.mem (name c) (supportingCodes theme)) eqn:E;
    [contradiction|].
  destruct (ThemeEngine.detectContradiction _ c) as [[reason s]|] eqn:Ed;
    [|contradiction].
  destruct H as [<-|[]]. cbn [nc_code strength].
  split; [now apply in_map|]. split; [now apply mem_false_not_in|].
  unfold ThemeEngine.detectContradiction in Ed.
  apply (firstContradiction_strength _ _ _ _ _ _ ) with (2 := Ed).
  repeat constructor; discriminate.
Qed.

(** X19.  Whatever the threshold, a reported negative case is an input
    code, is not one of the supporting codes of the theme, and its strength
    is never weak. *)
Theorem findNegativeCases_reports_outside_codes (theme : Theme)
    (allCodes : list Code) (threshold : Strength) (nc : NegativeCase) :
  In nc (negativeCases
           (ThemeEngine.findNegativeCases theme allCodes threshold)) ->
  In (nc_code nc) (map name allCodes)
  /\ ~ In (nc_code nc) (supportingCodes theme)
  /\ strength nc <> weak.
Proof.
  unfold ThemeEngine.findNegativeCases. cbn [negativeCases]. intros H.
  apply filter_In in H. destruct H as [H _].
  now apply detectedCases_facts.
Qed.

(** X20.  The lexicon rates a contradiction as strong or moderate only, so
    the thresholds weak and moderate return the same cases and the same
    recommendation. *)
Theorem findNegativeCases_weak_is_moderate (theme : Theme)
    (allCodes : list Code) :
  ThemeEngine.findNegativeCases theme allCodes weak
  = ThemeEngine.findNegativeCases theme allCodes moderate.
Proof.
  unfold ThemeEngine.findNegativeCases.
  assert (E : filter (ThemeEngine.keptBy weak)
                     (ThemeEngine.detectedCases theme allCodes)
              = filter (ThemeEngine.keptBy moderate)
                       (ThemeEngine.detectedCases theme allCodes)).
  { apply filter_ext_in. intros nc Hnc.
    destruct (detectedCases_facts theme allCodes nc Hnc) as (_ & _ & Hs).
    unfold ThemeEngine.keptBy. destruct (strength nc); try reflexivity.
    contradiction. }
  now rewrite E.
Qed.

Lemma findNegativeCases_reports_outside_codes_witness :
  In {| nc_code := "failure-experience";
        contradiction :=
          ThemeEngine.emphasizes "success" "failure";
        strength := strong |}
     (negativeCases
        (ThemeEngine.findNegativeCases
           {| theme_name := "Success Theme"; theme_description := "About success";
              supportingCodes := ["success-code"]; prevalence := 6 # 10;
              theme_examples := []; subThemes := None |}
           [ {| name := "success-code"; definition := "success";
                examples := []; frequency := 5; type := constructed |};
             {| name := "failure-experience";
                definition := "failure experiences";
                examples := []; frequency := 3; type := constructed |} ]
           strong))
  /\ ~ In "failure-experience" ["success-code"].
Proof.
  assert (H : In {| nc_code := "failure-experience";
                    contradiction :=
                      ThemeEngine.emphasizes "success" "failure";
                    strength := strong |}
                 (negativeCases
                    (ThemeEngine.findNegativeCases
                       {| theme_name := "Success Theme";
                          theme_description := "About success";
                          supportingCodes := ["success-code"];
                          prevalence := 6 # 10;
                          theme_examples := []; subThemes := None |}
                       [ {| name := "success-code"; definition := "success";
                            examples := []; frequency := 5;
                            type := constructed |};
                         {| name := "failure-experience";
                            definition := "failure experiences";
                            examples := []; frequency := 3;
                            type := constructed |} ]
                       strong))).
  { vm_compute. left. reflexivity. }
  split; [exact H|].
  exact (proj1 (proj2 (findNegativeCases_reports_outside_codes _ _ _ _ H))).
Defined.

(** ** Patterns *)

Lemma coOccurrenceOf_shape (cs : list Code) (c1 c2 : Code)
    (p : PatternAnalysis.Pattern) :
  In c1 cs -> In c2 cs ->
  In p (PatternAnalysis.coOccurrenceOf c1 c2) -> patternShape cs p.
Proof.
  intros H1 H2 Hp. unfold PatternAnalysis.coOccurrenceOf in Hp.
  set (n := List.length (PatternAnalysis.sharedExamples c1 c2)) in *.
  destruct (0 <? n) eqn:E; [|contradiction].
  apply Nat.ltb_lt in E. destruct Hp as [<-|[]].
  unfold patternShape.
  cbn [PatternAnalysis.pattern_type PatternAnalysis.significance
         PatternAnalysis.elements PatternAnalysis.pattern_frequency
         List.length].
  split; [discriminate|]. split; [destruct (2 <? n); discriminate|].
  split; [lia|]. split; [exact E|]. split.
  - intros x [<-|[<-|[]]]; now apply in_map.
  - split; [reflexivity|].
    destruct (2 <? n) eqn:E2.
    + apply Nat.ltb_lt in E2. split; [right; auto|reflexivity].
    + apply Nat.ltb_ge in E2. split; [discriminate|].
      intros [H|[_ H]]; [discriminate|lia].
Qed.

Lemma findCoOccurrences_shape (cs all : list Code)
    (p : PatternAnalysis.Pattern) :
  incl cs all ->
  In p (PatternAnalysis.findCoOccurrences cs) -> patternShape all p.
Proof.
  induction cs as [|c1 rest IH]; intros Hincl Hp; [contradiction|].
  cbn [PatternAnalysis.findCoOccurrences] in Hp.
  apply in_app_or in Hp. destruct Hp as [Hp|Hp].
  - apply in_flat_map in Hp. destruct Hp as (c2 & Hc2 & Hp).
    apply (coOccurrenceOf_shape all c1 c2); [| |assumption].
    + apply Hincl. now left.
    + apply Hincl. now right.
  - apply IH; [|assumption]. intros x Hx. apply Hincl. now right.
Qed.

Lemma findContrasts_shape (cs : list Code) (p : PatternAnalysis.Pattern) :
  In p (PatternAnalysis.findContrasts cs) -> patternShape cs p.
Proof.
  unfold PatternAnalysis.findContrasts. intros Hp.
  apply in_flat_map in Hp. destruct Hp as ([term1 term2] & _ & Hp).
  unfold PatternAnalysis.contrastOf in Hp.
  set (codes1 := filter (fun c => JsString.includes (name c) term1) cs) in *.
  set (codes2 := filter (fun c => JsString.includes (name c) term2) cs) in *.
  destruct ((0 <? List.length codes1) && (0 <? List.length codes2)) eqn:E;
    [|contradiction].
  apply andb_true_iff in E. destruct E as [E1 E2].
  apply Nat.ltb_lt in E1, E2. destruct Hp as [<-|[]].
  unfold patternShape.
  cbn [PatternAnalysis.pattern_type PatternAnalysis.significance
         PatternAnalysis.elements PatternAnalysis.pattern_frequency
         List.length].
  split; [discriminate|]. split; [discriminate|].
  split; [rewrite length_app, !length_map; lia|]. split; [lia|]. split.
  - intros x Hx. apply in_app_or in Hx.
    destruct Hx as [Hx|Hx]; apply in_map_iff in Hx;
      destruct Hx as (c & <- & Hc); apply in_map;
      apply filter_In in Hc; apply Hc.
  - split; [discriminate|]. split; [now left|reflexivity].
Qed.

Lemma indexed_in (cs : list Code) (i : nat) (c : Code) :
  In (i, c) (PatternAnalysis.indexed cs) -> In c cs.
Proof. unfold PatternAnalysis.indexed. apply in_combine_r. Qed.

Lemma findHierarchies_shape (cs : list Code) (p : PatternAnalysis.Pattern) :
  In p (PatternAnalysis.findHierarchies cs) -> patternShape cs p.
Proof.
  unfold PatternAnalysis.findHierarchies. intros Hp.
  apply in_flat_map in Hp. destruct Hp as ([i code] & Hcode & Hp).
  unfold PatternAnalysis.hierarchyOf in Hp.
  set (children := map snd (filter _ (PatternAnalysis.indexed cs))) in *.
  destruct (0 <? List.length children) eqn:E; [|contradiction].
  apply Nat.ltb_lt in E. destruct Hp as [<-|[]].
  unfold patternShape.
  cbn [PatternAnalysis.pattern_type PatternAnalysis.significance
         PatternAnalysis.elements PatternAnalysis.pattern_frequency
         List.length].
  split; [discriminate|]. split; [discriminate|].
  split; [rewrite length_map; lia|]. split; [exact E|]. split.
  - intros x [<-|Hx].
    + apply in_map. now apply (indexed_in cs i).
    + apply in_map_iff in Hx. destruct Hx as (c & <- & Hc). apply in_map.
      unfold children in Hc. apply in_map_iff in Hc.
      destruct Hc as ([j c'] & <- & Hc'). apply filter_In in Hc'.
      apply (indexed_in cs j). apply Hc'.
  - split; [discriminate|]. split; [discriminate|].
    intros [H|[H _]]; discriminate.
Qed.

(** X21.  Every pattern of the analysis is a co-occurrence, a contrast or a
    hierarchy, never a sequence, and of high or medium significance, never
    low.  It has two elements or more, all of them input code names, and
    exactly two for a co-occurrence; it is of high significance exactly
    when it is a contrast or a co-occurrence on more than two shared
    examples. *)
Theorem analyzePatterns_shape (cs : list Code) (p : PatternAnalysis.Pattern) :
  In p (PatternAnalysis.analyzePatterns cs) -> patternShape cs p.
Proof.
  unfold PatternAnalysis.analyzePatterns. intros Hp.
  apply (Permutation_in _ (js_sort_perm _ _)) in Hp.
  apply in_app_or in Hp. destruct Hp as [Hp|Hp].
  - apply (findCoOccurrences_shape cs cs); [apply incl_refl|assumption].
  - apply in_app_or in Hp. destruct Hp as [Hp|Hp].
    + now apply findContrasts_shape.
    + now apply findHierarchies_shape.
Qed.

Lemma analyzePatterns_shape_witness :
  In (hd (PatternAnalysis.mkPattern PatternAnalysis.sequence EmptyString [] 0
            PatternAnalysis.low)
         (PatternAnalysis.analyzePatterns overlappingExamples))
     (PatternAnalysis.analyzePatterns overlappingExamples)
  /\ patternShape overlappingExamples
       (hd (PatternAnalysis.mkPattern PatternAnalysis.sequence EmptyString [] 0
              PatternAnalysis.low)
           (PatternAnalysis.analyzePatterns overlappingExamples)).
Proof.
  assert (H : In (hd (PatternAnalysis.mkPattern PatternAnalysis.sequence
                        EmptyString [] 0 PatternAnalysis.low)
                     (PatternAnalysis.analyzePatterns overlappingExamples))
                 (PatternAnalysis.analyzePatterns overlappingExamples)).
  { vm_compute. left. reflexivity. }
  split; [exact H|].
  exact (analyzePatterns_shape overlappingExamples _ H).
Defined.

(** X22.  The patterns are returned by decreasing significance: no pattern
    of medium significance comes before a pattern of high significance. *)
Theorem analyzePatterns_sorted_by_significance (cs : list Code) :
  StronglySorted
    (fun a b =>
       PatternAnalysis.sigOrder (PatternAnalysis.significance b)
       <= PatternAnalysis.sigOrder (PatternAnalysis.significance a))
    (PatternAnalysis.analyzePatterns cs).
Proof.
  unfold PatternAnalysis.analyzePatterns.
  eapply sorted_impl; [|apply js_sort_sorted].
  - intros a b H. apply Nat.ltb_ge in H. exact H.
  - intros x y H. apply Nat.ltb_lt in H. apply Nat.ltb_ge. lia.
  - intros x y z H1 H2. apply Nat.ltb_ge in H1, H2. apply Nat.ltb_ge. lia.
Qed.

(** ** Open coding keeps every code once *)

Lemma get_set_same {V : Type} (m : JsMap.t V) (k : string) (v : V) :
  JsMap.get (JsMap.set m k v) k = Some v.
Proof.
  induction m as [|[k0 v0] m IH]; simpl.
  - now rewrite String.eqb_refl.
  - destruct (String.eqb k0 k) eqn:E; simpl; now rewrite E.
Qed.

Lemma categoryStep_eq (groups : JsMap.t (list Code)) (code : Code) :
  TheoryEngine.categoryStep groups code
  = JsMap.set groups (TheoryEngine.inferCategoryName code)
              (TheoryEngine.getCodes groups (TheoryEngine.inferCategoryName code)
               ++ [code]).
Proof.
  unfold TheoryEngine.categoryStep, JsMap.has, TheoryEngine.getCodes.
  destruct (JsMap.get groups (TheoryEngine.inferCategoryName code)) eqn:E.
  - now rewrite E.
  - now rewrite get_set_same, set_set.
Qed.

(** Pushing a code on the group of its key: the keys stay distinct and the
    members gain the code. *)
Lemma set_push (m : JsMap.t (list Code)) (k : string) (extra : list Code) :
  NoDup (JsMap.keys m) ->
  NoDup (JsMap.keys (JsMap.set m k (TheoryEngine.getCodes m k ++ extra)))
  /\ Permutation
       (flat_map snd (JsMap.set m k (TheoryEngine.getCodes m k ++ extra)))
       (flat_map snd m ++ extra).
Proof.
  intros Hnd. split; [now apply set_keys_nodup|].
  unfold TheoryEngine.getCodes.
  destruct (JsMap.get m k) as [v|] eqn:E.
  - destruct (set_update_split m k v (v ++ extra) E)
      as (pre & post & E1 & E2).
    rewrite E2, E1, !flat_map_app. cbn [flat_map snd].
    rewrite <- !app_assoc. apply Permutation_app_head.
    apply Permutation_app_head. apply Permutation_app_comm.
  - rewrite (set_fresh m k _ (get_none_fresh m k E)).
    rewrite flat_map_app. cbn. now rewrite app_nil_r.
Qed.

Lemma fold_categoryStep_members (codes : list Code) :
  forall groups,
    NoDup (JsMap.keys groups) ->
    NoDup (JsMap.keys (fold_left TheoryEngine.categoryStep codes groups))
    /\ Permutation
         (flat_map snd (fold_left TheoryEngine.categoryStep codes groups))
         (flat_map snd groups ++ codes).
Proof.
  induction codes as [|c codes IH]; intros groups Hnd; simpl.
  - split; [assumption|now rewrite app_nil_r].
  - rewrite categoryStep_eq.
    destruct (set_push groups (TheoryEngine.inferCategoryName c) [c] Hnd)
      as [H1 H2].
    destruct (IH _ H1) as [H3 H4]. split; [assumption|].
    rewrite H4, H2, <- app_assoc. reflexivity.
Qed.

Lemma categoriesAreSimilar_refl (c : string) :
  TheoryEngine.categoriesAreSimilar c c = true.
Proof. unfold TheoryEngine.categoriesAreSimilar. now rewrite String.eqb_refl. Qed.

Lemma pushToSimilarCategory_cases (category : string) (codes : list Code)
    (merged : JsMap.t (list Code)) :
  match TheoryEngine.pushToSimilarCategory category codes merged with
  | Some merged' =>
      exists pre k v post,
        merged = pre ++ (k, v) :: post
        /\ merged' = pre ++ (k, v ++ codes) :: post
  | None => Forall (fun e => fst e <> category) merged
  end.
Proof.
  induction merged as [|[k v] merged IH]; simpl; [constructor|].
  destruct (TheoryEngine.categoriesAreSimilar category k) eqn:E.
  - now exists [], k, v, merged.
  - destruct (TheoryEngine.pushToSimilarCategory category codes merged).
    + destruct IH as (pre & k' & v' & post & -> & ->).
      now exists ((k, v) :: pre), k', v', post.
    + constructor; [|assumption]. simpl. intros ->.
      now rewrite categoriesAreSimilar_refl in E.
Qed.

Lemma mergeCategoryStep_members (groups merged : JsMap.t (list Code))
    (category : string) :
  NoDup (JsMap.keys merged) ->
  NoDup (JsMap.keys (TheoryEngine.mergeCategoryStep groups merged category))
  /\ Permutation
       (flat_map snd (TheoryEngine.mergeCategoryStep groups merged category))
       (flat_map snd merged ++ TheoryEngine.getCodes groups category).
Proof.
  intros Hnd. unfold TheoryEngine.mergeCategoryStep.
  pose proof (pushToSimilarCategory_cases category
                (TheoryEngine.getCodes groups category) merged) as H.
  destruct (TheoryEngine.pushToSimilarCategory _ _ merged) as [merged'|].
  - destruct H as (pre & k & v & post & -> & ->). split.
    + unfold JsMap.keys in *. rewrite map_app in *. exact Hnd.
    + rewrite !flat_map_app. cbn [flat_map snd].
      rewrite <- !app_assoc. apply Permutation_app_head.
      apply Permutation_app_head. apply Permutation_app_comm.
  - split; [now apply set_keys_nodup|].
    rewrite (set_fresh merged category _ H), flat_map_app. cbn.
    now rewrite app_nil_r.
Qed.

Lemma fold_mergeCategoryStep_members (groups : JsMap.t (list Code))
    (categories : list string) :
  forall merged,
    NoDup (JsMap.keys merged) ->
    NoDup (JsMap.keys
             (fold_left (TheoryEngine.mergeCategoryStep groups) categories
                        merged))
    /\ Permutation
         (flat_map snd
            (fold_left (TheoryEngine.mergeCategoryStep groups) categories
                       merged))
         (flat_map snd merged
          ++ flat_map (TheoryEngine.getCodes groups) categories).
Proof.
  induction categories as [|k ks IH]; intros merged Hnd; simpl.
  - split; [assumption|now rewrite app_nil_r].
  - destruct (mergeCategoryStep_members groups merged k Hnd) as [H1 H2].
    destruct (IH _ H1) as [H3 H4]. split; [assumption|].
    rewrite H4, H2, <- app_assoc. reflexivity.
Qed.

Lemma get_of_nodup {V : Type} (m : JsMap.t V) :
  NoDup (JsMap.keys m) ->
  forall k v, In (k, v) m -> JsMap.get m k = Some v.
Proof.
  induction m as [|[k0 v0] m IH]; intros Hnd k v Hin; [contradiction|].
  unfold JsMap.keys in Hnd. cbn [map fst] in Hnd.
  inversion Hnd as [|? ? Hfresh Hnd']; subst. simpl.
  destruct Hin as [E|Hin].
  - inversion E; subst. now rewrite String.eqb_refl.
  - destruct (String.eqb k0 k) eqn:E; [|now apply IH].
    apply String.eqb_eq in E. subst k0. exfalso. apply Hfresh.
    apply in_map_iff. now exists (k, v).
Qed.

Lemma getCodes_of_keys (m : JsMap.t (list Code)) :
  NoDup (JsMap.keys m) ->
  flat_map (TheoryEngine.getCodes m) (JsMap.keys m) = flat_map snd m.
Proof.
  intros Hnd. unfold JsMap.keys. rewrite flat_map_concat_map, map_map.
  rewrite (flat_map_concat_map snd). f_equal.
  apply map_ext_in. intros [k v] Hin. unfold TheoryEngine.getCodes.
  cbn [fst snd]. now rewrite (get_of_nodup m Hnd k v Hin).
Qed.

Lemma groupCodesIntoCategories_members (codes : list Code) :
  NoDup (JsMap.keys (TheoryEngine.groupCodesIntoCategories codes))
  /\ Permutation
       (flat_map snd (TheoryEngine.groupCodesIntoCategories codes)) codes.
Proof.
  unfold TheoryEngine.groupCodesIntoCategories,
    TheoryEngine.mergeSimilarCategories.
  destruct (fold_categoryStep_members codes JsMap.empty (NoDup_nil _))
    as [Hnd Hp].
  set (groups := fold_left TheoryEngine.categoryStep codes JsMap.empty) in *.
  destruct (fold_mergeCategoryStep_members groups (JsMap.keys groups)
              JsMap.empty (NoDup_nil _)) as [H1 H2].
  split; [assumption|].
  rewrite H2. cbn [flat_map app JsMap.empty].
  now rewrite (getCodes_of_keys groups Hnd).
Qed.

Lemma identifyCategories_of_groups (paradigm : Paradigm)
    (groups : JsMap.t (list Code)) :
  allNonEmpty groups ->
  let categories :=
    flat_map
      (fun entry : string * list Code =>
         let '(categoryName, categoryCodes) := entry in
         if List.length categoryCodes <? 1 then []
         else
           [ {| cat_name := categoryName;
                cat_description :=
                  TheoryEngine.generateCategoryDescription categoryCodes
                                                           paradigm;
                properties := TheoryEngine.identifyProperties categoryCodes;
                dimensions := TheoryEngine.identifyDimensions categoryCodes;
                relatedCodes := map name categoryCodes;
                relatedCategories := [];
                cat_examples :=
                  firstn 3 (flat_map examples categoryCodes) |} ])
      groups in
  map cat_name categories = JsMap.keys groups
  /\ flat_map relatedCodes categories = map name (flat_map snd groups).
Proof.
  induction 1 as [|[k g] groups Hg _ [IH1 IH2]]; [split; reflexivity|].
  cbn [snd] in Hg. cbn [flat_map].
  destruct g as [|c g]; [contradiction|].
  change (List.length (c :: g) <? 1) with false.
  cbn [app map cat_name flat_map relatedCodes].
  split.
  - unfold JsMap.keys in *. cbn [map fst]. now f_equal.
  - cbn [snd]. rewrite IH2, map_app. reflexivity.
Qed.

(** X23.  Open coding puts every code in one category and one only: the
    related codes of the categories, put together, are the input code
    names, each as often as in the input; and no two categories share a
    name. *)
Theorem identifyCategories_partition (codes : list Code) (paradigm : Paradigm) :
  Permutation
    (flat_map relatedCodes (TheoryEngine.identifyCategories codes paradigm))
    (map name codes)
  /\ NoDup (map cat_name (TheoryEngine.identifyCategories codes paradigm)).
Proof.
  destruct (groupCodesIntoCategories_members codes) as [Hnd Hp].
  destruct (groupCodesIntoCategories_nonEmpty codes) as [Hall _].
  destruct (identifyCategories_of_groups paradigm _ Hall) as [H1 H2].
  unfold TheoryEngine.identifyCategories, JsMap.entries.
  split.
  - rewrite H2. now apply Permutation_map.
  - rewrite H1. exact Hnd.
Qed.

Lemma identifyCategories_names_distinct (codes : list Code)
    (paradigm : Paradigm) :
  NoDup (map cat_name (TheoryEngine.identifyCategories codes paradigm)).
Proof.
  destruct (groupCodesIntoCategories_members codes) as [Hnd _].
  destruct (groupCodesIntoCategories_nonEmpty codes) as [Hall _].
  destruct (identifyCategories_of_groups paradigm _ Hall) as [H1 _].
  unfold TheoryEngine.identifyCategories, JsMap.entries.
  rewrite H1. exact Hnd.
Qed.

(** ** Properties and dimensions of a category *)

Lemma setAdd_facts (P : string -> Prop) (s : list string) (x : string) :
  NoDup s -> Forall P s -> P x ->
  NoDup (TheoryEngine.setAdd s x) /\ Forall P (TheoryEngine.setAdd s x).
Proof.
  intros Hnd Hall Hx. unfold TheoryEngine.setAdd.
  destruct (JsString.mem x s) eqn:E; [now split|]. split.
  - apply NoDup_app; [assumption|repeat constructor; intros []| ].
    intros y Hy [<-|[]]. now apply (mem_false_not_in _ _ E).
  - apply Forall_app. split; [assumption|now repeat constructor].
Qed.

Lemma identifyProperties_facts (codes : list Code) :
  List.length (TheoryEngine.identifyProperties codes) <= 5
  /\ NoDup (TheoryEngine.identifyProperties codes)
  /\ Forall (fun word =>
               3 < String.length word
               /\ TheoryEngine.isCommonWord word = false
               /\ exists code, In code codes
                               /\ In word (JsString.split_words (name code)))
            (TheoryEngine.identifyProperties codes).
Proof.
  unfold TheoryEngine.identifyProperties.
  set (P := fun word =>
              3 < String.length word
              /\ TheoryEngine.isCommonWord word = false
              /\ exists code, In code codes
                              /\ In word (JsString.split_words (name code))).
  set (step := fun props code =>
                 fold_left
                   (fun props word =>
                      if (3 <? String.length word)
                         && negb (TheoryEngine.isCommonWord word)
                      then TheoryEngine.setAdd props word else props)
                   (JsString.split_words (name code)) props).
  assert (Hwords : forall code ws props,
             In code codes ->
             incl ws (JsString.split_words (name code)) ->
             NoDup props -> Forall P props ->
             NoDup (fold_left
                      (fun props word =>
                         if (3 <? String.length word)
                            && negb (TheoryEngine.isCommonWord word)
                         then TheoryEngine.setAdd props word else props)
                      ws props)
             /\ Forall P (fold_left
                      (fun props word =>
                         if (3 <? String.length word)
                            && negb (TheoryEngine.isCommonWord word)
                         then TheoryEngine.setAdd props word else props)
                      ws props)).
  { intros code ws. induction ws as [|w ws IH]; intros props Hc Hi Hnd Hall.
    - now split.
    - simpl. apply IH; try assumption.
      + intros y Hy. apply Hi. now right.
      + destruct ((3 <? String.length w)
                  && negb (TheoryEngine.isCommonWord w)) eqn:E;
          [|assumption].
        apply andb_true_iff in E. destruct E as [E1 E2].
        apply Nat.ltb_lt in E1. apply negb_true_iff in E2.
        apply (setAdd_facts P); try assumption.
        repeat split; try assumption. exists code. split; [assumption|].
        apply Hi. now left.
      + destruct ((3 <? String.length w)
                  && negb (TheoryEngine.isCommonWord w)) eqn:E;
          [|assumption].
        apply andb_true_iff in E. destruct E as [E1 E2].
        apply Nat.ltb_lt in E1. apply negb_true_iff in E2.
        apply (setAdd_facts P); try assumption.
        repeat split; try assumption. exists code. split; [assumption|].
        apply Hi. now left. }
  assert (Hcodes : forall cs props,
             incl cs codes -> NoDup props -> Forall P props ->
             NoDup (fold_left step cs props)
             /\ Forall P (fold_left step cs props)).
  { induction cs as [|c cs IH]; intros props Hi Hnd Hall; [now split|].
    simpl.
    destruct (Hwords c (JsString.split_words (name c)) props
                (Hi c (or_introl eq_refl)) (incl_refl _) Hnd Hall)
      as [H1 H2].
    apply IH; try assumption. intros y Hy. apply Hi. now right. }
  destruct (Hcodes codes [] (incl_refl _) (NoDup_nil _) (Forall_nil _))
    as [H1 H2].
  fold step. split; [|split].
  - apply firstn_le_length.
  - now apply firstn_NoDup.
  - apply Forall_forall. intros w Hw. rewrite Forall_forall in H2.
    apply H2. revert Hw. apply firstn_In.
Qed.

Lemma identifyCategories_members (codes : list Code) (paradigm : Paradigm)
    (category : Category) :
  In category (TheoryEngine.identifyCategories codes paradigm) ->
  exists categoryCodes,
    incl categoryCodes codes
    /\ properties category = TheoryEngine.identifyProperties categoryCodes
    /\ dimensions category = TheoryEngine.identifyDimensions categoryCodes
    /\ relatedCodes category = map name categoryCodes
    /\ cat_examples category = firstn 3 (flat_map examples categoryCodes).
Proof.
  intros Hc. unfold TheoryEngine.identifyCategories in Hc.
  apply in_flat_map in Hc. destruct Hc as ([k g] & Hin & Hc).
  destruct (List.length g <? 1); [contradiction|].
  destruct Hc as [<-|[]]. exists g. repeat split.
  intros c Hcg. destruct (groupCodesIntoCategories_members codes) as [_ Hp].
  apply (Permutation_in _ Hp). apply in_flat_map.
  exists (k, g). now split.
Qed.

(** X24.  A category has at most five properties, all different, each a
    word of more than three characters, not a common word, taken from the
    name of one of the category's codes; it has one dimension per property,
    in the same order, and at most three examples. *)
Theorem category_properties (codes : list Code) (paradigm : Paradigm)
    (category : Category) :
  In category (TheoryEngine.identifyCategories codes paradigm) ->
  List.length (properties category) <= 5
  /\ NoDup (properties category)
  /\ Forall (propertyOf codes category) (properties category)
  /\ map property (dimensions category) = properties category
  /\ List.length (cat_examples category) <= 3.
Proof.
  intros Hc.
  destruct (identifyCategories_members codes paradigm category Hc)
    as (g & Hg & -> & -> & Hr & ->).
  destruct (identifyProperties_facts g) as (H1 & H2 & H3).
  repeat split; try assumption.
  - apply Forall_forall. intros w Hw. rewrite Forall_forall in H3.
    destruct (H3 w Hw) as (L & C & c & Hcg & Hcw).
    repeat split; try assumption. exists c. repeat split; try assumption.
    + now apply Hg.
    + rewrite Hr. now apply in_map.
  - unfold TheoryEngine.identifyDimensions. rewrite map_map. cbn [property].
    apply map_id.
  - apply firstn_le_length.
Qed.

Lemma category_properties_witness :
  In (hd (mkCategory EmptyString EmptyString [] [] [] [] [])
         (TheoryEngine.identifyCategories theorySample constructivist))
     (TheoryEngine.identifyCategories theorySample constructivist)
  /\ NoDup (properties
              (hd (mkCategory EmptyString EmptyString [] [] [] [] [])
                  (TheoryEngine.identifyCategories theorySample
                                                   constructivist))).
Proof.
  assert (H : In (hd (mkCategory EmptyString EmptyString [] [] [] [] [])
                     (TheoryEngine.identifyCategories theorySample
                                                      constructivist))
                 (TheoryEngine.identifyCategories theorySample
                                                  constructivist)).
  { vm_compute. left. reflexivity. }
  split; [exact H|].
  exact (proj1 (proj2 (category_properties theorySample constructivist _ H))).
Defined.

(** ** The core category *)

(** The head of a stable sort by decreasing score is the first element of
    highest score. *)
Lemma js_sort_head_first_max {A : Type} (score : A -> Q) (l : list A) :
  forall h t,
    js_sort (fun a b => Qltb (score a) (score b)) l = h :: t ->
    exists pre post,
      l = pre ++ h :: post
      /\ Forall (fun p => (score p < score h)%Q) pre
      /\ Forall (fun q => (score q <= score h)%Q) post.
Proof.
  induction l as [|x l IH]; intros h t E; [discriminate|].
  simpl in E.
  destruct (js_sort (fun a b => Qltb (score a) (score b)) l)
    as [|h' t'] eqn:Es.
  - apply js_sort_nil_inv in Es. subst l. simpl in E.
    inversion E; subst. exists [], []. repeat split; constructor.
  - destruct (IH h' t' eq_refl) as (pre & post & -> & Hpre & Hpost).
    simpl in E. destruct (Qltb (score x) (score h')) eqn:Ex.
    + inversion E; subst. apply Qltb_true in Ex.
      exists (x :: pre), post. repeat split; [|assumption].
      now constructor.
    + inversion E; subst. apply Qltb_false in Ex.
      exists [], (pre ++ h' :: post). repeat split; [constructor|].
      apply Forall_app. split; [|constructor].
      * eapply Forall_impl; [|exact Hpre]. intros a Ha. simpl in Ha. lra.
      * assumption.
      * eapply Forall_impl; [|exact Hpost]. intros a Ha. simpl in Ha. lra.
Qed.

Lemma categoryScores_distinct (axialResults : list AxialCodingResult)
    (categories : list Category) :
  NoDup (map cat_name categories) ->
  TheoryEngine.categoryScores categories axialResults
  = map (fun c => (cat_name c, TheoryEngine.categoryScore axialResults c))
        categories.
Proof.
  unfold TheoryEngine.categoryScores.
  assert (G : forall cs (m : JsMap.t Q),
             NoDup (JsMap.keys m ++ map cat_name cs) ->
             fold_left
               (fun scores category =>
                  JsMap.set scores (cat_name category)
                    (TheoryEngine.categoryScore axialResults category))
               cs m
             = m ++ map (fun c => (cat_name c,
                                   TheoryEngine.categoryScore axialResults c))
                        cs).
  { induction cs as [|c cs IH]; intros m Hnd; simpl.
    - now rewrite app_nil_r.
    - cbn [map] in Hnd.
      assert (Hfresh : ~ In (cat_name c) (JsMap.keys m)).
      { intros Hin. apply NoDup_remove_2 in Hnd. apply Hnd.
        apply in_or_app. now left. }
      rewrite set_fresh.
      + rewrite IH.
        * now rewrite <- app_assoc.
        * unfold JsMap.keys in *. rewrite map_app, <- app_assoc.
          exact Hnd.
      + apply Forall_forall. intros e He Heq. apply Hfresh.
        unfold JsMap.keys. apply in_map_iff. now exists e. }
  intros Hnd. now rewrite (G categories JsMap.empty Hnd).
Qed.

Lemma find_name_distinct (pre post : list Category) (c : Category) :
  NoDup (map cat_name (pre ++ c :: post)) ->
  find (fun c0 => String.eqb (cat_name c0) (cat_name c)) (pre ++ c :: post)
  = Some c.
Proof.
  induction pre as [|p pre IH]; intros Hnd; simpl.
  - now rewrite String.eqb_refl.
  - cbn [app map] in Hnd. inversion Hnd as [|? ? Hfresh Hnd']; subst.
    destruct (String.eqb (cat_name p) (cat_name c)) eqn:E.
    + apply String.eqb_eq in E. exfalso. apply Hfresh. rewrite E.
      apply in_map. apply in_or_app. right. now left.
    + now apply IH.
Qed.

Lemma identifyCoreCategory_first_highest (categories : list Category)
    (axialResults : list AxialCodingResult) (researchQuestion : string) :
  categories <> [] ->
  Forall (fun c => relatedCodes c <> []) categories ->
  NoDup (map cat_name categories) ->
  exists core pre category post,
    TheoryEngine.identifyCoreCategory categories axialResults researchQuestion
    = inr core
    /\ categories = pre ++ category :: post
    /\ core_name core = cat_name category
    /\ core_description core = cat_description category
    /\ Forall (fun c => (TheoryEngine.categoryScore axialResults c
                         < TheoryEngine.categoryScore axialResults category)%Q)
              pre
    /\ Forall (fun c => (TheoryEngine.categoryScore axialResults c
                         <= TheoryEngine.categoryScore axialResults category)%Q)
              post
    /\ (centrality core
        * fold_left Qplus
            (map (TheoryEngine.categoryScore axialResults) categories) 0
        == TheoryEngine.categoryScore axialResults category)%Q
    /\ relationships core
       = TheoryEngine.buildRelationships
           (cat_name category)
           (TheoryEngine.findAxial axialResults (cat_name category)).
Proof.
  intros Hne Hcodes Hnd. unfold TheoryEngine.identifyCoreCategory.
  rewrite (categoryScores_distinct axialResults categories Hnd).
  set (entry := fun c => (cat_name c,
                          TheoryEngine.categoryScore axialResults c)).
  destruct (TheoryEngine.sortByScore (JsMap.entries (map entry categories)))
    as [|[coreName coreScore] rest] eqn:Es.
  - apply js_sort_nil_inv in Es. destruct categories; [contradiction|].
    discriminate Es.
  - unfold TheoryEngine.sortByScore, JsMap.entries in Es.
    destruct (js_sort_head_first_max snd _ _ _ Es)
      as (pre' & post' & Hsplit & Hpre & Hpost).
    apply map_eq_app in Hsplit.
    destruct Hsplit as (pre & rest' & -> & <- & Hrest).
    apply map_eq_cons in Hrest.
    destruct Hrest as (category & post & -> & Hentry & <-).
    inversion Hentry; subst coreName coreScore. clear Hentry.
    rewrite (find_name_distinct pre post category Hnd).
    exists {| core_name := cat_name category;
              core_description := cat_description category;
              centrality :=
                if Qltb 0 (fold_left Qplus
                             (JsMap.values (map entry (pre ++ category :: post)))
                             (0 : Q))
                then TheoryEngine.categoryScore axialResults category
                     / fold_left Qplus
                         (JsMap.values (map entry (pre ++ category :: post)))
                         (0 : Q)
                else 0;
              relationships :=
                TheoryEngine.buildRelationships
                  (cat_name category)
                  (TheoryEngine.findAxial axialResults (cat_name category));
              theoreticalMemo :=
                TheoryEngine.generateTheoreticalMemo
                  category
                  (TheoryEngine.findAxial axialResults (cat_name category))
                  researchQuestion |}, pre, category, post.
    cbn [core_name core_description centrality relationships].
    split; [reflexivity|]. split; [reflexivity|].
    split; [reflexivity|]. split; [reflexivity|].
    split.
    { rewrite Forall_map in Hpre. exact Hpre. }
    split.
    { rewrite Forall_map in Hpost. exact Hpost. }
    split; [|reflexivity].
    unfold JsMap.values. rewrite map_map. cbn [entry snd].
    set (scores := map (fun x => TheoryEngine.categoryScore axialResults x)
                       (pre ++ category :: post)).
    assert (Hvals : Forall (fun x => (1 <= x)%Q) scores).
    { apply Forall_forall. intros x Hx. apply in_map_iff in Hx.
      destruct Hx as (c & <- & Hc). rewrite Forall_forall in Hcodes.
      pose proof (count_pos _ (Hcodes c Hc)).
      pose proof (categoryScore_ge_codes axialResults c). lra. }
    assert (Hvals0 : Forall (fun x => (0 <= x)%Q) scores).
    { eapply Forall_impl; [|exact Hvals]. intros a Ha. simpl in Ha. lra. }
    assert (Hin : In (TheoryEngine.categoryScore axialResults category)
                     scores).
    { apply in_map. apply in_or_app. right. now left. }
    destruct (fold_Qplus_bound _ Hvals0 0 _ (Qle_refl 0) Hin) as [_ Hle].
    rewrite Forall_forall in Hvals. specialize (Hvals _ Hin).
    set (total := fold_left Qplus scores (0 : Q)) in *.
    assert (Hpos : (0 < total)%Q) by lra.
    rewrite (proj2 (Qltb_true 0 total) Hpos). field. lra.
Qed.

(** X25.  For a code list that is not empty a theory is returned, and its
    core category is the first of the categories with the highest score:
    the categories before it score strictly less, those after it at most
    as much.  The core takes the name and description of that category, and
    its centrality is the category's share of the sum of all scores. *)
Theorem buildGroundedTheory_core_is_first_highest
    (codes : list Code) (themes : option (list Theme))
    (researchQuestion : string) (paradigm : Paradigm) :
  codes <> [] ->
  exists r pre category post,
    TheoryEngine.buildGroundedTheory codes themes researchQuestion paradigm
    = inr r
    /\ supportingCategories r = pre ++ category :: post
    /\ core_name (coreCategory r) = cat_name category
    /\ core_description (coreCategory r) = cat_description category
    /\ Forall (fun c => (scoreIn codes (supportingCategories r) c
                         < scoreIn codes (supportingCategories r) category)%Q)
              pre
    /\ Forall (fun c => (scoreIn codes (supportingCategories r) c
                         <= scoreIn codes (supportingCategories r) category)%Q)
              post
    /\ (centrality (coreCategory r)
        * totalScore codes (supportingCategories r)
        == scoreIn codes (supportingCategories r) category)%Q.
Proof.
  intros Hne. unfold TheoryEngine.buildGroundedTheory.
  set (categories := TheoryEngine.identifyCategories codes paradigm).
  assert (Hcats : categories <> []).
  { intros E. now apply identifyCategories_nil_iff in E. }
  destruct (identifyCoreCategory_first_highest
              categories (TheoryEngine.performAxialCoding categories codes)
              researchQuestion Hcats
              (identifyCategories_codes codes paradigm)
              (identifyCategories_names_distinct codes paradigm))
    as (core & pre & category & post & -> & E & H1 & H2 & H3 & H4 & H5 & _).
  eexists _, pre, category, post.
  split; [reflexivity|].
  cbn [TheoryEngine.integrateTheory supportingCategories coreCategory].
  unfold scoreIn, totalScore, scoreIn.
  repeat split; assumption.
Qed.

Lemma buildGroundedTheory_core_is_first_highest_witness :
  theorySample <> []
  /\ exists r pre category post,
       TheoryEngine.buildGroundedTheory theorySample None "How do students cope?"
                                        constructivist
       = inr r
       /\ supportingCategories r = pre ++ category :: post
       /\ core_name (coreCategory r) = cat_name category
       /\ core_description (coreCategory r) = cat_description category
       /\ Forall (fun c =>
                    (scoreIn theorySample (supportingCategories r) c
                     < scoreIn theorySample (supportingCategories r) category)%Q)
                 pre
       /\ Forall (fun c =>
                    (scoreIn theorySample (supportingCategories r) c
                     <= scoreIn theorySample (supportingCategories r) category)%Q)
                 post
       /\ (centrality (coreCategory r)
           * totalScore theorySample (supportingCategories r)
           == scoreIn theorySample (supportingCategories r) category)%Q.
Proof.
  assert (H : theorySample <> []) by (vm_compute; discriminate).
  split; [exact H|].
  exact (buildGroundedTheory_core_is_first_highest
           theorySample None "How do students cope?" constructivist H).
Defined.

(** ** Axial coding *)

Lemma performAxialCoding_in (categories : list Category) (codes : list Code)
    (model : AxialCodingResult) :
  In model (TheoryEngine.performAxialCoding categories codes) ->
  exists category,
    In category categories
    /\ model
       = {| phenomenon := cat_name category;
            causalConditions :=
              TheoryEngine.identifyCausalConditions category categories codes;
            context := TheoryEngine.identifyContext category categories codes;
            interveningConditions :=
              TheoryEngine.identifyInterveningConditions category categories;
            actionStrategies :=
              TheoryEngine.identifyActionStrategies category categories;
            consequences :=
              TheoryEngine.identifyConsequences category categories codes |}.
Proof.
  unfold TheoryEngine.performAxialCoding. intros H.
  apply in_flat_map in H. destruct H as (category & Hc & [<-|[]]).
  now exists category.
Qed.

(** X26.  Axial coding gives one paradigm model per category, in the order
    of the categories and with the category's name as phenomenon.  No model
    lists its own phenomenon among its intervening conditions, and all
    models of one run share the same context, the same action strategies
    and the same consequences. *)
Theorem performAxialCoding_models (categories : list Category)
    (codes : list Code) :
  map phenomenon (TheoryEngine.performAxialCoding categories codes)
  = map cat_name categories
  /\ Forall (fun model => ~ In (phenomenon model)
                               (interveningConditions model))
            (TheoryEngine.performAxialCoding categories codes)
  /\ (forall a b,
        In a (TheoryEngine.performAxialCoding categories codes) ->
        In b (TheoryEngine.performAxialCoding categories codes) ->
        context a = context b
        /\ actionStrategies a = actionStrategies b
        /\ consequences a = consequences b).
Proof.
  split; [|split].
  - unfold TheoryEngine.performAxialCoding.
    assert (G : forall allCategories cs,
               map phenomenon
                   (flat_map
                      (fun category =>
                         match TheoryEngine.analyzeParadigmModel
                                 category allCategories codes with
                         | Some axialResult => [axialResult]
                         | None => []
                         end) cs)
               = map cat_name cs).
    { intros allCategories. induction cs as [|c cs IH]; [reflexivity|].
      cbn [flat_map TheoryEngine.analyzeParadigmModel app map phenomenon].
      now f_equal. }
    apply G.
  - apply Forall_forall. intros model Hm.
    destruct (performAxialCoding_in _ _ _ Hm) as (c & _ & ->).
    cbn [phenomenon interveningConditions].
    unfold TheoryEngine.identifyInterveningConditions. intros Hin.
    apply in_map_iff in Hin. destruct Hin as (other & E & Hin).
    apply filter_In in Hin. destruct Hin as [_ Hin].
    apply andb_true_iff in Hin. destruct Hin as [Hin _].
    unfold TheoryEngine.isOther in Hin. rewrite E in Hin.
    now rewrite String.eqb_refl in Hin.
  - intros a b Ha Hb.
    destruct (performAxialCoding_in _ _ _ Ha) as (ca & _ & ->).
    destruct (performAxialCoding_in _ _ _ Hb) as (cb & _ & ->).
    repeat split.
Qed.

Lemma codesDescribing_in (ks : list string) (codes : list Code) (x : string) :
  In x (TheoryEngine.codesDescribing ks codes) -> In x (map name codes).
Proof.
  unfold TheoryEngine.codesDescribing. intros H. apply firstn_In in H.
  apply in_map_iff in H. destruct H as (c & <- & Hc).
  apply filter_In in Hc. apply in_map. tauto.
Qed.

Lemma filtered_names_in (f : Category -> bool) (categories : list Category)
    (x : string) :
  In x (map cat_name (filter f categories)) -> In x (map cat_name categories).
Proof.
  intros H. apply in_map_iff in H. destruct H as (c & <- & Hc).
  apply filter_In in Hc. apply in_map. tauto.
Qed.

Lemma buildRelationships_shape (codes : list Code)
    (categories : list Category) (coreName : string) :
  Forall (relationshipShape codes categories)
         (TheoryEngine.buildRelationships
            coreName
            (TheoryEngine.findAxial
               (TheoryEngine.performAxialCoding categories codes) coreName)).
Proof.
  unfold TheoryEngine.findAxial.
  destruct (find _ (TheoryEngine.performAxialCoding categories codes))
    as [model|] eqn:E; [|constructor].
  apply find_some in E. destruct E as [Hm _].
  destruct (performAxialCoding_in _ _ _ Hm) as (c & _ & ->).
  unfold TheoryEngine.buildRelationships.
  cbn [causalConditions consequences actionStrategies].
  apply Forall_app. split; [|apply Forall_app; split].
  - apply Forall_map_intro_in. intros x Hx. unfold relationshipShape.
    cbn [relationshipType relatedCategory].
    repeat split; try discriminate.
    unfold TheoryEngine.identifyCausalConditions in Hx.
    apply in_app_or in Hx. destruct Hx as [Hx|Hx].
    + left. revert Hx. apply filtered_names_in.
    + right. revert Hx. apply codesDescribing_in.
  - apply Forall_map_intro_in. intros x Hx. unfold relationshipShape.
    cbn [relationshipType relatedCategory].
    repeat split; try discriminate.
    unfold TheoryEngine.identifyConsequences in Hx.
    apply in_app_or in Hx. destruct Hx as [Hx|Hx].
    + left. revert Hx. apply filtered_names_in.
    + right. revert Hx. apply codesDescribing_in.
  - apply Forall_map_intro_in. intros x Hx. unfold relationshipShape.
    cbn [relationshipType relatedCategory].
    unfold TheoryEngine.identifyActionStrategies in Hx.
    apply filtered_names_in in Hx.
    repeat split; try discriminate; [now left|intros _; assumption].
Qed.

(** X27.  Every relationship of the core category of a theory is of type
    causes, leads_to or influences, never part_of or contradicts.  Its
    related category is the name of a category of the theory or of an input
    code; for type influences it is always the name of a category. *)
Theorem buildGroundedTheory_relationships
    (codes : list Code) (themes : option (list Theme))
    (researchQuestion : string) (paradigm : Paradigm)
    (r : GroundedTheoryResult) :
  TheoryEngine.buildGroundedTheory codes themes researchQuestion paradigm
  = inr r ->
  Forall (relationshipShape codes (supportingCategories r))
         (relationships (coreCategory r)).
Proof.
  intros Hr.
  assert (Hne : codes <> []).
  { intros ->. discriminate Hr. }
  unfold TheoryEngine.buildGroundedTheory in Hr.
  set (categories := TheoryEngine.identifyCategories codes paradigm) in *.
  assert (Hcats : categories <> []).
  { intros E. now apply identifyCategories_nil_iff in E. }
  destruct (identifyCoreCategory_first_highest
              categories (TheoryEngine.performAxialCoding categories codes)
              researchQuestion Hcats
              (identifyCategories_codes codes paradigm)
              (identifyCategories_names_distinct codes paradigm))
    as (core & pre & category & post & E & _ & _ & _ & _ & _ & _ & Hrel).
  rewrite E in Hr. inversion Hr; subst r. clear Hr.
  cbn [TheoryEngine.integrateTheory supportingCategories coreCategory].
  rewrite Hrel. apply buildRelationships_shape.
Qed.

Lemma buildGroundedTheory_relationships_witness :
  exists r,
    TheoryEngine.buildGroundedTheory theorySample None "How do students cope?"
                                     constructivist
    = inr r
    /\ Forall (relationshipShape theorySample (supportingCategories r))
              (relationships (coreCategory r)).
Proof.
  destruct (TheoryEngine.buildGroundedTheory
              theorySample None "How do students cope?" constructivist)
    as [e|r] eqn:E.
  - exfalso. vm_compute in E. discriminate E.
  - exists r. split; [reflexivity|].
    exact (buildGroundedTheory_relationships
             theorySample None "How do students cope?" constructivist r E).
Defined.

(* ================================================================== *)
(** * Quoted phrases in the output of [autoCoding] *)
















(* ================================================================== *)
(** * A single code whose category is not related to itself *)

Lemma codesDescribing_single (ks : list string) (c : Code) :
  List.length (TheoryEngine.codesDescribing ks [c]) <= 1.
Proof.
  unfold TheoryEngine.codesDescribing. rewrite length_firstn, length_map.
  cbn [filter]. destruct (JsString.test_any ks _); simpl; lia.
Qed.

Lemma filter_single {A : Type} (f : A -> bool) (x : A) :
  filter f [x] = [] \/ filter f [x] = [x].
Proof. simpl. destruct (f x); [now right|now left]. Qed.

(** With one code there is one category, the core; its relationships come
    from the paradigm model of that category. *)
Lemma single_code_relationships (c : Code) (themes : option (list Theme))
    (researchQuestion : string) (paradigm : Paradigm) :
  exists r cat,
    TheoryEngine.buildGroundedTheory [c] themes researchQuestion paradigm
    = inr r
    /\ core_name (coreCategory r) = cat_name cat
    /\ relationships (coreCategory r)
       = TheoryEngine.buildRelationships
           (cat_name cat)
           (Some {| phenomenon := cat_name cat;
                    causalConditions :=
                      TheoryEngine.identifyCausalConditions cat [cat] [c];
                    context := TheoryEngine.identifyContext cat [cat] [c];
                    interveningConditions :=
                      TheoryEngine.identifyInterveningConditions cat [cat];
                    actionStrategies :=
                      TheoryEngine.identifyActionStrategies cat [cat];
                    consequences :=
                      TheoryEngine.identifyConsequences cat [cat] [c] |}).
Proof.
  unfold TheoryEngine.buildGroundedTheory.
  destruct (identifyCategories_single c paradigm) as (cat & -> & _ & Hrel).
  assert (Hne : [cat] <> []) by discriminate.
  assert (Hcodes : Forall (fun x => relatedCodes x <> []) [cat]).
  { constructor; [rewrite Hrel; discriminate|constructor]. }
  assert (Hnd : NoDup (map cat_name [cat])).
  { repeat constructor. intros []. }
  destruct (identifyCoreCategory_first_highest
              [cat] (TheoryEngine.performAxialCoding [cat] [c])
              researchQuestion Hne Hcodes Hnd)
    as (core & pre & category & post & -> & Hsplit & Hname & _ & _ & _ & _
        & Hrels).
  assert (category = cat).
  { destruct pre as [|p pre].
    - now inversion Hsplit.
    - inversion Hsplit as [[Hp Hrest]]. now destruct pre. }
  subst category.
  eexists _, cat. split; [reflexivity|].
  cbn [TheoryEngine.integrateTheory coreCategory].
  split; [exact Hname|]. rewrite Hrels.
  unfold TheoryEngine.findAxial, TheoryEngine.performAxialCoding.
  cbn [flat_map TheoryEngine.analyzeParadigmModel app find phenomenon].
  now rewrite String.eqb_refl.
Qed.

(** For every single code, when no relationship of the core category names
    the core category itself, the completeness is strictly below 0.6 and
    the first recommendation is the advice to continue data collection. *)
Lemma single_code_without_self_relationship
    (c : Code) (themes : option (list Theme)) (researchQuestion : string)
    (paradigm : Paradigm) :
  exists r,
    TheoryEngine.buildGroundedTheory [c] themes researchQuestion paradigm
    = inr r
    /\ (Forall (fun rel => relatedCategory rel
                           <> core_name (coreCategory r))
               (relationships (coreCategory r)) ->
        (completeness r < 6 # 10)%Q
        /\ hd_error (recommendations r) = Some incompleteAdvice
        /\ matchesIncomplete incompleteAdvice = true).
Proof.
  destruct (single_code_completeness c themes researchQuestion paradigm)
    as (r & Hr & _ & Hlow & _).
  destruct (single_code_relationships c themes researchQuestion paradigm)
    as (r' & cat & Hr' & Hname & Hrels).
  rewrite Hr in Hr'. inversion Hr'; subst r'. clear Hr'.
  exists r. split; [exact Hr|]. intros Hself. apply Hlow.
  rewrite Hrels in Hself |- *. rewrite Hname in Hself.
  unfold TheoryEngine.buildRelationships in *.
  cbn [causalConditions consequences actionStrategies] in *.
  unfold TheoryEngine.identifyCausalConditions,
    TheoryEngine.identifyConsequences,
    TheoryEngine.identifyActionStrategies in *.
  assert (Hcausal : filter (fun other =>
                              TheoryEngine.isOther cat other
                              && TheoryEngine.nameHas ["condition"; "cause"]
                                                      other) [cat] = []).
  { cbn [filter]. unfold TheoryEngine.isOther.
    now rewrite String.eqb_refl. }
  rewrite Hcausal in *. cbn [map app] in *.
  apply Forall_app in Hself. destruct Hself as [_ Hself].
  apply Forall_app in Hself. destruct Hself as [Hcons Hstrat].
  assert (Hno : forall ks,
             Forall (fun x => x <> cat_name cat)
                    (map cat_name (filter (TheoryEngine.nameHas ks) [cat])) ->
             filter (TheoryEngine.nameHas ks) [cat] = []).
  { intros ks H. destruct (filter_single (TheoryEngine.nameHas ks) cat)
      as [E|E]; [exact E|].
    rewrite E in H. cbn [map] in H. inversion H as [|? ? Hx _]; subst.
    now contradiction Hx. }
  assert (Hstrat' : filter (TheoryEngine.nameHas
                              ["strategy"; "coping"; "approach"; "process"])
                           [cat] = []).
  { apply Hno. rewrite Forall_map in Hstrat. exact Hstrat. }
  assert (Hcons' : filter (TheoryEngine.nameHas
                             ["outcome"; "result"; "consequence"; "effect"])
                          [cat] = []).
  { apply Hno. rewrite map_app in Hcons. apply Forall_app in Hcons.
    destruct Hcons as [Hcons _]. rewrite Forall_map in Hcons. exact Hcons. }
  rewrite Hstrat', Hcons'. cbn [map app].
  rewrite app_nil_r, length_app, !length_map.
  pose proof (codesDescribing_single
                ["because"; "due to"; "caused by"; "result of"; "led to"] c).
  pose proof (codesDescribing_single
                ["result"; "outcome"; "led to"; "caused"; "effect"] c).
  lia.
Qed.

(* ================================================================== *)
(** * Sub-themes repeat their parent theme *)

Section Regrouping.
Variable sim : Code -> Code -> bool.
Hypothesis sim_self : forall c c', name c = name c' -> sim c c' = true.

Lemma clustered_keyed (groups : JsMap.t (list Code)) :
  clustered sim groups -> keyed groups.
Proof.
  apply Forall_impl. intros e (first & rest & E1 & E2 & _).
  now exists first, rest.
Qed.

Lemma groupStep_clustered (code : Code) (groups : JsMap.t (list Code)) :
  clustered sim groups -> clustered sim (groupStep sim groups code).
Proof.
  intros Hc. pose proof (clustered_keyed groups Hc) as Hk.
  destruct (pushToSimilar sim code groups) as [groups'|] eqn:E.
  - unfold groupStep. rewrite E.
    apply pushToSimilar_Some in E.
    destruct E as (pre & k & first & g & post & E1 & E2 & Es). subst.
    unfold clustered in *. apply Forall_app in Hc. destruct Hc as [Hpre Hpost].
    apply Forall_app. split; [assumption|].
    inversion Hpost as [|? ? Hhd Htl]; subst.
    constructor; [|assumption].
    destruct Hhd as (c & g' & Es' & Ef & Hsim). simpl in *.
    inversion Es'; subst. exists c, (g' ++ [code]).
    repeat split. apply Forall_app. split; [assumption|].
    now repeat constructor.
  - rewrite (groupStep_None sim sim_self) by assumption.
    apply Forall_app. split; [assumption|].
    constructor; [|constructor]. exists code, []. repeat split. constructor.
Qed.

Lemma groupCodes_clustered (codes : list Code) :
  clustered sim (groupCodes sim codes).
Proof.
  unfold groupCodes.
  assert (G : forall groups,
             clustered sim groups ->
             clustered sim (fold_left (groupStep sim) codes groups)).
  { induction codes as [|c cs IH]; intros groups Hc; [exact Hc|].
    simpl. apply IH. now apply groupStep_clustered. }
  apply G. constructor.
Qed.

(** A first code followed by codes that are similar to it makes one group,
    in the same order. *)
Lemma groupCodes_of_cluster (first : Code) (rest : list Code) :
  Forall (fun c => sim c first = true) rest ->
  groupCodes sim (first :: rest) = [(name first, first :: rest)].
Proof.
  intros Hsim. unfold groupCodes. cbn [fold_left].
  change (groupStep sim JsMap.empty first) with [(name first, [first])].
  assert (G : forall done,
             fold_left (groupStep sim) rest [(name first, first :: done)]
             = [(name first, first :: done ++ rest)]).
  { induction Hsim as [|c rest Hc _ IH]; intros done; simpl.
    - now rewrite app_nil_r.
    - unfold groupStep at 2. cbn [pushToSimilar]. rewrite Hc.
      change ((first :: done) ++ [c]) with (first :: (done ++ [c])).
      rewrite IH, <- app_assoc. reflexivity. }
  apply (G []).
Qed.

End Regrouping.

Lemma in_sortByPrevalence (t : Theme) (themes : list Theme) :
  In t (ThemeEngine.sortByPrevalence themes) -> In t themes.
Proof. apply Permutation_in. apply js_sort_perm. Qed.

(** Whenever the deep inductive extraction gives a theme sub-themes, it
    gives it exactly one, which has the supporting codes of the theme
    itself and, for frequencies of 1 or more that add up within 2^53, a
    prevalence of 1: grouping the codes of a group again yields that group,
    and the sub-theme is measured against the group. *)
Lemma subthemes_repeat_the_parent (codes : list Code) (t : Theme)
    (subs : list Theme) :
  Forall (fun c => (1 <= frequency c)%Z) codes ->
  (sum_by frequency codes <= Double.maxSafe)%Z ->
  In t (ThemeEngine.extractThemes codes inductive deep) ->
  subThemes t = Some subs ->
  exists s,
    subs = [s]
    /\ supportingCodes s = supportingCodes t
    /\ (prevalence s == 1)%Q.
Proof.
  intros Hall Hmax Hin Hsubs. cbn [ThemeEngine.extractThemes] in Hin.
  apply in_sortByPrevalence in Hin.
  apply in_flat_map in Hin. destruct Hin as ([k g] & He & Ht).
  unfold ThemeEngine.inductiveThemeOf in Ht. simpl snd in Ht.
  destruct (List.length g <? 2) eqn:E2; [contradiction|].
  apply Nat.ltb_ge in E2. destruct Ht as [<-|[]].
  cbn [subThemes supportingCodes] in *.
  destruct (5 <? List.length g); [|discriminate].
  inversion Hsubs; subst subs. clear Hsubs.
  pose proof (groupCodes_clustered ThemeEngine.codesAreSimilar
                theme_similar_self codes) as Hc.
  unfold clustered in Hc. rewrite Forall_forall in Hc.
  destruct (Hc _ He) as (first & rest & Eg & _ & Hsim).
  cbn [snd] in Eg. subst g.
  unfold ThemeEngine.identifySubThemes, ThemeEngine.groupCodesBySimilarity,
    JsMap.entries.
  rewrite (groupCodes_of_cluster _ first rest Hsim).
  cbn [flat_map]. unfold ThemeEngine.subThemeOf. cbn [snd].
  rewrite (proj2 (Nat.leb_le _ _) E2). cbn [app].
  eexists. split; [reflexivity|]. cbn [supportingCodes prevalence].
  split; [reflexivity|].
  destruct (group_submultiset _ theme_similar_self codes k (first :: rest) He)
    as [others Hp].
  assert (Hcount : countable codes).
  { split; [|assumption].
    eapply Forall_impl; [|exact Hall]. simpl. intros a Ha. lia. }
  apply (countable_perm _ _ (Permutation_sym Hp)) in Hcount.
  apply countable_app in Hcount. destruct Hcount as [Hg _].
  unfold ThemeEngine.calculatePrevalence.
  rewrite (sumFrequency_exact _ Hg).
  assert (Hfirst : (1 <= frequency first)%Z).
  { rewrite Forall_forall in Hall. apply Hall.
    apply (Permutation_in _ Hp). now left. }
  assert (Hpos : (0 < sum_by frequency (first :: rest))%Z).
  { rewrite sum_by_cons.
    pose proof (sum_by_nonneg frequency rest) as Hr.
    destruct Hg as [Hnn _]. inversion Hnn; subst.
    specialize (Hr ltac:(assumption)). lia. }
  rewrite (proj2 (Z.ltb_lt _ _) Hpos).
  pose proof (inject_Z_pos _ Hpos) as HposQ.
  field. intros E. rewrite E in HposQ. now apply Qlt_irrefl in HposQ.
Qed.
